(** * atlasc: a shallow embedding of the atlas builder (src/atlasc.c)

    The development follows the C source function by function.

    - [int] values are integers of [Z].  Where the program's arithmetic can
      leave the range of a 32-bit [int] on inputs it accepts (the
      INT_MAX/INT_MIN sentinel rectangles, the canvas sizing), the
      two's-complement wrap-around is written out with [Int32.wrap].
      Pixel coordinates stay inside the image and are plain [Z].
    - [float] values are IEEE-754 binary32 numbers, modelled with the
      [SpecFloat] operations of the standard library at precision 24.
    - The external collaborators (image decoder, sproutline, Delaunay,
      rectangle packer, PNG and file writers) are the fields of the record
      [externals]; every function of atlasc.c that calls one takes it as an
      argument.
    - The two unbounded loops of the program ([do ... while] of
      [atlasc__make_mesh], [while] of [atlasc__fix_outline_pts]) take a
      [fuel]; [None] means that the fuel ran out before the loop left.
    - Byte buffers are lists of [Z]; a pointer into one is an offset, and a
      [memcpy] or [memset] that would leave its buffer yields [None]: the C
      program has no defined behaviour from there on (in practice the process
      is killed).  [atlasc_make] and [main] so return [None] when a loop runs
      out of fuel or when the sheet is written out of its bounds.
    - Memory is taken to be available: [sx_malloc] returns a block unless the
      size asked for, once converted to [size_t], is more than any object can
      have, which is what a negative [int] count amounts to.
    - A text written into a [char] array of the program is cut to the size of
      the array ([g_error_str], the path buffers of [atlasc__save]).
    - The option parser of sx is seen from [main] as the list of the steps
      it takes ([cmdline_step]), one for each call that does not return
      -1. *)

From Stdlib Require Import String Ascii.
From Stdlib Require Import ZArith List Bool Lia.
From Stdlib Require Import Floats.SpecFloat.
From Stdlib Require Import DecimalString.
Import ListNotations.
Local Open Scope Z_scope.

(* ================================================================== *)
(** * 32-bit [int] arithmetic *)

Module Int32.

Definition INT_MAX : Z := 2147483647.
Definition INT_MIN : Z := -2147483648.

(** Reduction of an integer to the range of [int]. *)
Definition wrap (z : Z) : Z := (z + 2147483648) mod 4294967296 - 2147483648.

Definition add (a b : Z) : Z := wrap (a + b).
Definition sub (a b : Z) : Z := wrap (a - b).
Definition mul (a b : Z) : Z := wrap (a * b).
Definition neg (a : Z) : Z := wrap (- a).

Definition in_range (z : Z) : Prop := INT_MIN <= z <= INT_MAX.

(** Congruence modulo 2^32, to compare two [int] expressions by their
    values without the wraps. *)
Definition eqm (a b : Z) : Prop := exists k, a = b + k * 4294967296.

End Int32.

(* ================================================================== *)
(** * binary32 [float] arithmetic *)

Module F32.

Definition prec : Z := 24.
Definition emax : Z := 128.

Definition float : Type := spec_float.

Definition add : float -> float -> float := SFadd prec emax.
Definition sub : float -> float -> float := SFsub prec emax.
Definition mul : float -> float -> float := SFmul prec emax.
Definition div : float -> float -> float := SFdiv prec emax.
Definition sqrt : float -> float := SFsqrt prec emax.
Definition opp : float -> float := SFopp.
Definition abs : float -> float := SFabs.
Definition ltb : float -> float -> bool := SFltb.
Definition leb : float -> float -> bool := SFleb.

(** Conversion [(float)i] of an [int]. *)
Definition of_int (z : Z) : float := binary_normalize prec emax z 0 false.

Definition zero : float := S754_zero false.
Definition one : float := of_int 1.
Definition two : float := of_int 2.
(** The literal [0.5f]. *)
Definition half : float := div one two.
(** The literal [0.00001f]. *)
Definition eps_1e5 : float := div one (of_int 100000).

(** The integer part of a finite float, rounded toward zero ([trunc]) and
    toward minus infinity ([floor]); [None] on infinities and NaN. *)
Definition trunc (f : float) : option Z :=
  match f with
  | S754_zero _ => Some 0
  | S754_finite s m e =>
      let v := Z.shiftl (Zpos m) e in Some (if s then - v else v)
  | _ => None
  end.

Definition floor (f : float) : option Z :=
  match f with
  | S754_zero _ => Some 0
  | S754_finite s m e => Some (Z.shiftl (if s then Zneg m else Zpos m) e)
  | _ => None
  end.

(** What a conversion to [int] yields when the integer part exists and fits;
    otherwise the "integer indefinite" value INT_MIN of the x86 conversion
    instructions (the C standard leaves these cases undefined). *)
Definition int_or_indefinite (o : option Z) : Z :=
  match o with
  | Some v =>
      if (Int32.INT_MIN <=? v) && (v <=? Int32.INT_MAX) then v
      else Int32.INT_MIN
  | None => Int32.INT_MIN
  end.

(** The C conversion [(int)f]: truncation toward zero. *)
Definition to_int (f : float) : Z := int_or_indefinite (trunc f).

(** Rounding down to an [int], the way the spec words the conversion. *)
Definition floor_to_int (f : float) : Z := int_or_indefinite (floor f).

End F32.

(* ================================================================== *)
(** * The parts of the sx base library that atlasc.c uses *)

(** Integer vectors and rectangles ([sx_ivec2], [sx_irect]). *)
Record sx_ivec2 : Type := sx_ivec2i { vx : Z; vy : Z }.

Record sx_irect : Type := sx_irecti { xmin : Z; ymin : Z; xmax : Z; ymax : Z }.

Definition vmin (rc : sx_irect) : sx_ivec2 := sx_ivec2i (xmin rc) (ymin rc).
Definition vmax (rc : sx_irect) : sx_ivec2 := sx_ivec2i (xmax rc) (ymax rc).

(** [sx_ivec2_add] and [sx_ivec2_sub] (sx/math.h): component by component,
    in [int] arithmetic. *)
Definition sx_ivec2_add (a b : sx_ivec2) : sx_ivec2 :=
  sx_ivec2i (Int32.add (vx a) (vx b)) (Int32.add (vy a) (vy b)).

Definition sx_ivec2_sub (a b : sx_ivec2) : sx_ivec2 :=
  sx_ivec2i (Int32.sub (vx a) (vx b)) (Int32.sub (vy a) (vy b)).

(** Modelled from the spec: [sx_irectwh] (sx/math.h, not under src/) builds
    the rectangle with the given origin, width and height, so that
    [xmax - xmin] is the width. *)
Definition sx_irectwh (x y w h : Z) : sx_irect :=
  sx_irecti x y (Int32.add x w) (Int32.add y h).

(** Modelled from the spec: [sx_irect_expand] (sx/math.h, not under src/)
    moves every side outward by the given amount; with a negative amount the
    rectangle is contracted inward on all sides. *)
Definition sx_irect_expand (rc : sx_irect) (expand : sx_ivec2) : sx_irect :=
  sx_irecti (Int32.sub (xmin rc) (vx expand)) (Int32.sub (ymin rc) (vy expand))
            (Int32.add (xmax rc) (vx expand)) (Int32.add (ymax rc) (vy expand)).

(** Modelled from the spec: [sx_irect_add_point] (sx/math.h, not under src/)
    grows the rectangle to the axis-aligned bounds that include the point. *)
Definition sx_irect_add_point (rc : sx_irect) (pt : sx_ivec2) : sx_irect :=
  sx_irecti (Z.min (xmin rc) (vx pt)) (Z.min (ymin rc) (vy pt))
            (Z.max (xmax rc) (vx pt)) (Z.max (ymax rc) (vy pt)).

(** Modelled from the spec: [sx_align_mask] (sx/sx.h, not under src/) is the
    operation [x <- (x + mask) & ~mask]. *)
Definition sx_align_mask (value mask : Z) : Z :=
  Z.land (Int32.add value mask) (Z.lnot mask).

(** One step [n |= n >> s] of the bit cascade of [sx_nearest_pow2]. *)
Definition or_shift (s n : Z) : Z := Z.lor n (Z.shiftr n s).

Definition smear (n : Z) : Z :=
  or_shift 16 (or_shift 8 (or_shift 4 (or_shift 2 (or_shift 1 n)))).

(** Modelled from the spec: [sx_nearest_pow2] (sx/math.h, not under src/)
    rounds up to the next power of two.  The body is the usual cascade on a
    32-bit [int]: decrement, smear the top bit downward, increment.
    [sx_nearest_pow2_rounds_up] below relates it to the spec's words. *)
Definition sx_nearest_pow2 (n : Z) : Z :=
  Int32.add (smear (Int32.sub n 1)) 1.

(** Modelled from the spec: [sx_clamp] (sx/sx.h, not under src/) restricts a
    value to the interval between the two bounds. *)
Definition sx_clamp (v lo hi : Z) : Z := Z.max (Z.min v hi) lo.

(** Modelled from the spec: the functions of sx that write a text into a
    [char] array of [size] bytes handed to them ([sx_snprintf], [sx_strcpy]
    and [sx_strcat] of sx/string.h, the [sx_os_path_*] functions of sx/os.h;
    not under src/) keep the [size - 1] characters that fit before the
    terminator and drop the rest, as the fixed-size error string of the spec
    supposes. *)
Definition fit (size : nat) (text : string) : string :=
  substring 0 (size - 1) text.

(** [sx_snprintf (str, size, fmt, ...)], on the text already formatted. *)
Definition sx_snprintf (size : nat) (text : string) : string := fit size text.

Definition sx_strcpy (size : nat) (src : string) : string := fit size src.

Definition sx_strcat (size : nat) (dst src : string) : string :=
  fit size (dst ++ src).

(** [size_t] on the LP64 platforms: an [int] is converted to it before it is
    multiplied by a [sizeof] or handed to [sx_malloc]. *)
Definition size_t (z : Z) : Z := z mod 18446744073709551616.

Definition PTRDIFF_MAX : Z := 9223372036854775807.

(** [sx_malloc (g_alloc, size)] with the allocator of [main]
    ([sx_alloc_malloc], not under src/): [true] is a block of [size] bytes,
    [false] the null pointer.  Memory is taken to be available, so the
    request fails only when no object can have the size, which is the case of
    a negative [int] after its conversion. *)
Definition sx_malloc (size : Z) : bool := size <=? PTRDIFF_MAX.

(** [sizeof (stbrp_node)] on x86-64 (stb_rect_pack.h, not under src/): two
    coordinates and a pointer.  Its value does not matter to [sx_malloc],
    only the sign of the count does ([sx_malloc_count] below). *)
Definition sizeof_stbrp_node : Z := 16.

(* ================================================================== *)
(** * Canvas sizing (atlasc_make, lines 477-486) *)

(** [dst_w], [dst_h] from the extents of the union of the placed rects. *)
Definition canvas_size (pot : Z) (extent : Z * Z) : Z * Z :=
  let dst_w := fst extent in
  let dst_h := snd extent in
  (* make output size divide by 4 by default *)
  let dst_w := sx_align_mask dst_w 3 in
  let dst_h := sx_align_mask dst_h 3 in
  if pot =? 0 then (dst_w, dst_h)
  else (sx_nearest_pow2 dst_w, sx_nearest_pow2 dst_h).

(* ================================================================== *)
(** * Float vectors of sx/math.h *)

(** [sx_vec2], [sx_vec3] and the component-wise operations on them. *)
Record sx_vec2 : Type := sx_vec2f { fx : F32.float; fy : F32.float }.

Record sx_vec3 : Type := sx_vec3f { cx : F32.float; cy : F32.float; cz : F32.float }.

Definition sx_vec2_add (a b : sx_vec2) : sx_vec2 :=
  sx_vec2f (F32.add (fx a) (fx b)) (F32.add (fy a) (fy b)).

Definition sx_vec2_sub (a b : sx_vec2) : sx_vec2 :=
  sx_vec2f (F32.sub (fx a) (fx b)) (F32.sub (fy a) (fy b)).

Definition sx_vec2_mulf (a : sx_vec2) (k : F32.float) : sx_vec2 :=
  sx_vec2f (F32.mul (fx a) k) (F32.mul (fy a) k).

Definition sx_vec2_dot (a b : sx_vec2) : F32.float :=
  F32.add (F32.mul (fx a) (fx b)) (F32.mul (fy a) (fy b)).

(** Modelled from the spec: [sx_rsqrt] and [sx_vec2_norm] (sx/math.h, not
    under src/) normalize a vector: it is scaled by the reciprocal of its
    length. *)
Definition sx_rsqrt (a : F32.float) : F32.float := F32.div F32.one (F32.sqrt a).

Definition sx_vec2_norm (a : sx_vec2) : sx_vec2 :=
  sx_vec2_mulf a (sx_rsqrt (sx_vec2_dot a a)).

(** Modelled from the spec: [sx_vec3_cross] (sx/math.h, not under src/) is
    the cross product; on two vectors of the plane only its z-component is
    not zero. *)
Definition sx_vec3_cross (a b : sx_vec3) : sx_vec3 :=
  sx_vec3f (F32.sub (F32.mul (cy a) (cz b)) (F32.mul (cz a) (cy b)))
           (F32.sub (F32.mul (cz a) (cx b)) (F32.mul (cx a) (cz b)))
           (F32.sub (F32.mul (cx a) (cy b)) (F32.mul (cy a) (cx b))).

(** Modelled from the spec: [sx_equal] (sx/math.h, not under src/) holds when
    the two numbers differ by less than the tolerance: the collinear case of
    the spec is [|z| < 1e-5]. *)
Definition sx_equal (a b epsilon : F32.float) : bool :=
  F32.ltb (F32.abs (F32.sub a b)) epsilon.

(* ================================================================== *)
(** * Outline points and masks *)

(** [s2o_point] of sproutline: a pixel position. *)
Definition s2o_point : Type := sx_ivec2.

(** A single-channel mask of [w * h] bytes, row after row. *)
Definition mask : Type := list Z.

Definition byte_at (buffer : mask) (i : Z) : Z := nth (Z.to_nat i) buffer 0.

Definition pt_at (pts : list s2o_point) (i : nat) : s2o_point :=
  nth i pts (sx_ivec2i 0 0).

Fixpoint pt_set (pts : list s2o_point) (i : nat) (p : s2o_point) : list s2o_point :=
  match pts, i with
  | [], _ => []
  | _ :: rest, O => p :: rest
  | q :: rest, S j => q :: pt_set rest j p
  end.

Definition atlasc__itof2 (p : s2o_point) : sx_vec2 :=
  sx_vec2f (F32.of_int (vx p)) (F32.of_int (vy p)).

(* ================================================================== *)
(** * atlasc__test_line (lines 140-173) *)

(** The state of the [while (1)] loop: [x0], [y0] and [err]. *)
Record line_state : Type := mk_line_state { ls_x0 : Z; ls_y0 : Z; ls_err : Z }.

(** One turn of the loop body.  [inl b] is [return b] (or the [break]
    followed by [return false]); [inr s] goes round again. *)
Definition test_line_body (buffer : mask) (w h x1 y1 dx sx dy sy : Z)
           (s : line_state) : bool + line_state :=
  let x0 := ls_x0 s in
  let y0 := ls_y0 s in
  let err := ls_err s in
  if (x0 >? -1) && (y0 >? -1) && (x0 <? w) && (y0 <? h)
     && negb (byte_at buffer (y0 * w + x0) =? 0)
  then inl true                   (* line intersects with image data *)
  else if (x0 =? x1) && (y0 =? y1) then inl false
  else
    let e2 := 2 * err in
    let '(err, x0) := if e2 >=? dy then (err + dy, x0 + sx) else (err, x0) in
    let '(err, y0) := if e2 <=? dx then (err + dx, y0 + sy) else (err, y0) in
    inr (mk_line_state x0 y0 err).

Fixpoint test_line_loop (fuel : nat) (buffer : mask) (w h x1 y1 dx sx dy sy : Z)
         (s : line_state) : option bool :=
  match fuel with
  | O => None
  | S fuel' =>
      match test_line_body buffer w h x1 y1 dx sx dy sy s with
      | inl b => Some b
      | inr s' => test_line_loop fuel' buffer w h x1 y1 dx sx dy sy s'
      end
  end.

(** The number of turns the loop needs at most: one per pixel of the line. *)
Definition test_line_fuel (p0 p1 : s2o_point) : nat :=
  S (Z.to_nat (Z.abs (vx p1 - vx p0) + Z.abs (vy p1 - vy p0))).

Definition atlasc__test_line_run (buffer : mask) (w h : Z) (p0 p1 : s2o_point)
  : option bool :=
  let x0 := vx p0 in
  let y0 := vy p0 in
  let x1 := vx p1 in
  let y1 := vy p1 in
  let dx := Z.abs (x1 - x0) in
  let sx := if x0 <? x1 then 1 else -1 in
  let dy := - Z.abs (y1 - y0) in
  let sy := if y0 <? y1 then 1 else -1 in
  let err := dx + dy in
  test_line_loop (test_line_fuel p0 p1) buffer w h x1 y1 dx sx dy sy
                 (mk_line_state x0 y0 err).

(** [test_line_terminates] below shows that the loop always leaves within
    [test_line_fuel], so the [None] case never arises. *)
Definition atlasc__test_line (buffer : mask) (w h : Z) (p0 p1 : s2o_point) : bool :=
  match atlasc__test_line_run buffer w h p0 p1 with
  | Some b => b
  | None => false
  end.

(* ================================================================== *)
(** * atlasc__offset_pt (lines 176-206) *)

(** Returns the flag "the pts buffer is changed" and the buffer. *)
Definition atlasc__offset_pt (pts : list s2o_point) (num_pts pt_idx : nat)
           (amount : F32.float) (w h : Z) : bool * list s2o_point :=
  let ipt := pt_at pts pt_idx in
  let _ipt := ipt in
  let pt := atlasc__itof2 ipt in
  let prev_pt :=
    if (0 <? pt_idx)%nat then atlasc__itof2 (pt_at pts (pt_idx - 1))
    else atlasc__itof2 (pt_at pts (num_pts - 1)) in
  let next_pt :=
    if (pt_idx + 1 <? num_pts)%nat then atlasc__itof2 (pt_at pts (pt_idx + 1))
    else atlasc__itof2 (pt_at pts 0) in
  let edge1 := sx_vec2_norm (sx_vec2_sub prev_pt pt) in
  let edge2 := sx_vec2_norm (sx_vec2_sub next_pt pt) in
  (* calculate normal vector to move the point away from the polygon *)
  let c := sx_vec3_cross (sx_vec3f (fx edge1) (fy edge1) F32.zero)
                         (sx_vec3f (fx edge2) (fy edge2) F32.zero) in
  let n :=
    if sx_equal (cz c) F32.zero F32.eps_1e5 then
      sx_vec2_mulf (sx_vec2f (F32.opp (fy edge1)) (fx edge1)) amount
    else
      (* c.z < 0 -> point intersecting convex edges
         c.z > 0 -> point intersecting concave edges *)
      let k := if F32.ltb (cz c) F32.zero then F32.opp F32.one else F32.one in
      sx_vec2_mulf (sx_vec2_norm (sx_vec2_add edge1 edge2)) (F32.mul k amount) in
  let pt := sx_vec2_add pt n in
  let ipt := sx_ivec2i (F32.to_int (fx pt)) (F32.to_int (fy pt)) in
  let ipt := sx_ivec2i (sx_clamp (vx ipt) 0 w) (sx_clamp (vy ipt) 0 h) in
  (negb (vx _ipt =? vx ipt) || negb (vy _ipt =? vy ipt), pt_set pts pt_idx ipt).

(* ================================================================== *)
(** * atlasc__fix_outline_pts (lines 208-229) *)

Definition offset_amount : F32.float := F32.two.

Definition next_index (i num_pts : nat) : nat :=
  if (i + 1 <? num_pts)%nat then (i + 1)%nat else O.

(** The [while] loop of one edge [(i, next_i)].  The debug assertion on the
    starting point is not part of the behaviour. *)
Fixpoint fix_edge_loop (fuel : nat) (thresholded : mask) (tw th : Z)
         (pts : list s2o_point) (num_pts i next_i : nat)
  : option (list s2o_point) :=
  match fuel with
  | O => None
  | S fuel' =>
      if atlasc__test_line thresholded tw th (pt_at pts i) (pt_at pts next_i) then
        let (changed, pts1) := atlasc__offset_pt pts num_pts i offset_amount tw th in
        if changed then
          let (_, pts2) := atlasc__offset_pt pts1 num_pts next_i offset_amount tw th in
          (* refresh points for the new line intersection test *)
          fix_edge_loop fuel' thresholded tw th pts2 num_pts i next_i
        else Some pts1
      else Some pts
  end.

(** The [for] loop over the edges, from edge [i], with [todo] edges left. *)
Fixpoint fix_edges_from (fuel : nat) (thresholded : mask) (tw th : Z)
         (num_pts todo i : nat) (pts : list s2o_point)
  : option (list s2o_point) :=
  match todo with
  | O => Some pts
  | S todo' =>
      match fix_edge_loop fuel thresholded tw th pts num_pts i (next_index i num_pts) with
      | Some pts' => fix_edges_from fuel thresholded tw th num_pts todo' (S i) pts'
      | None => None
      end
  end.

Definition atlasc__fix_outline_pts (fuel : nat) (thresholded : mask) (tw th : Z)
           (pts : list s2o_point) (num_pts : nat) : option (list s2o_point) :=
  (* NOTE: winding is assumed to be CW *)
  fix_edges_from fuel thresholded tw th num_pts num_pts O pts.

(* ================================================================== *)
(** * External collaborators *)

(** A decoded input image: RGBA8, [img_w * img_h * 4] bytes. *)
Record image : Type := mk_image { img_w : Z; img_h : Z; img_pixels : list Z }.

(** The triangulated point set returned by the Delaunay primitive:
    [num_points] is the length of [del_points], [num_triangles] a third of
    the length of [del_tris]. *)
Record tri_delaunay2d : Type :=
  mk_tri_delaunay2d { del_points : list sx_ivec2; del_tris : list Z }.

Definition del_num_points (t : tri_delaunay2d) : Z :=
  Z.of_nat (length (del_points t)).

Definition del_num_triangles (t : tri_delaunay2d) : Z :=
  Z.of_nat (length (del_tris t)) / 3.

(** The functions of sx, stb, sproutline, delaunay and sjson that atlasc.c
    calls and that touch files or implement the external primitives.  Buffers
    are passed and returned by value; [stbrp_pack_rects] stands for
    [stbrp_init_target] followed by [stbrp_pack_rects] and returns the
    all-packed flag with the position written into each rect.  The three
    path functions are given without the buffer they write to;
    [sx_file_write_text] says, for the path of an open writer, whether the
    whole text got written. *)
Record externals : Type := mk_externals {
  sx_os_path_isfile : string -> bool;
  stbi_load : string -> option image;
  s2o_rgba_to_alpha : list Z -> Z -> Z -> mask;
  s2o_alpha_to_thresholded : mask -> Z -> Z -> Z -> mask;
  s2o_dilate_thresholded : mask -> Z -> Z -> mask;
  s2o_thresholded_to_outlined : mask -> Z -> Z -> mask;
  s2o_extract_outline_path : mask -> Z -> Z -> list s2o_point;
  s2o_distance_based_path_simplification :
    list s2o_point -> F32.float -> list s2o_point;
  tri_delaunay2d_from : list s2o_point -> tri_delaunay2d;
  stbrp_pack_rects : Z -> Z -> list (Z * Z) -> bool * list (Z * Z);
  stbi_write_png : string -> Z -> Z -> bool;
  sx_file_open_writer : string -> bool;
  sx_os_path_splitext : string -> string * string;
  sx_os_path_basename : string -> string;
  sx_os_path_unixpath : string -> string;
  sx_file_write_text : string -> bool
}.

(* ================================================================== *)
(** * The records of atlasc.c *)

(** [atlasc_args]; [num_inputs] is the length of [in_filepaths], and the
    unused [dist_threshold] is left out.  [out_filepath] is a pointer that
    is NULL until -o is seen. *)
Record atlasc_args : Type := mk_atlasc_args {
  alpha_threshold : Z;
  in_filepaths : list string;
  out_filepath : option string;
  max_width : Z;
  max_height : Z;
  border : Z;
  pot : Z;
  padding : Z;
  mesh : Z;
  max_verts_per_mesh : Z
}.

(** [atlasc__sprite]; the three mesh arrays are NULL ([None]) until set. *)
Record atlasc__sprite : Type := mk_sprite {
  src_image : list Z;
  src_size : sx_ivec2;
  sprite_rect : sx_irect;
  sheet_rect : sx_irect;
  num_tris : Z;
  num_points : Z;
  pts : option (list sx_ivec2);
  uvs : option (list sx_ivec2);
  tris : option (list Z)
}.

(** A sprite after [sx_memset (sprites, 0x0, ...)]. *)
Definition zero_sprite : atlasc__sprite :=
  mk_sprite [] (sx_ivec2i 0 0) (sx_irecti 0 0 0 0) (sx_irecti 0 0 0 0)
            0 0 None None None.

Definition set_sprite_rect (spr : atlasc__sprite) (rc : sx_irect) : atlasc__sprite :=
  mk_sprite (src_image spr) (src_size spr) rc (sheet_rect spr)
            (num_tris spr) (num_points spr) (pts spr) (uvs spr) (tris spr).

Definition set_sheet_rect (spr : atlasc__sprite) (rc : sx_irect) : atlasc__sprite :=
  mk_sprite (src_image spr) (src_size spr) (sprite_rect spr) rc
            (num_tris spr) (num_points spr) (pts spr) (uvs spr) (tris spr).

Definition set_uvs (spr : atlasc__sprite) (u : list sx_ivec2) : atlasc__sprite :=
  mk_sprite (src_image spr) (src_size spr) (sprite_rect spr) (sheet_rect spr)
            (num_tris spr) (num_points spr) (pts spr) (Some u) (tris spr).

Definition set_mesh (spr : atlasc__sprite) (t : list Z) (p : list sx_ivec2)
           (nt np : Z) : atlasc__sprite :=
  mk_sprite (src_image spr) (src_size spr) (sprite_rect spr) (sheet_rect spr)
            nt np (Some p) (uvs spr) (Some t).

(* ================================================================== *)
(** * atlasc__make_mesh (lines 231-293) *)

Definition delta : F32.float := F32.half.
Definition threshold_start : F32.float := F32.half.

(** The [do ... while (num_verts > max_verts)] loop.  Every pass copies the
    original outline [pts] and simplifies the copy; the state that survives
    a pass is the simplified copy and [threshold]. *)
Fixpoint simplify_loop (E : externals) (fuel : nat) (pts : list s2o_point)
         (max_verts : Z) (threshold : F32.float)
  : option (list s2o_point * F32.float) :=
  match fuel with
  | O => None
  | S fuel' =>
      let temp_pts := s2o_distance_based_path_simplification E pts threshold in
      let num_verts := Z.of_nat (length temp_pts) in
      let threshold := F32.add threshold delta in
      if num_verts >? max_verts
      then simplify_loop E fuel' pts max_verts threshold
      else Some (temp_pts, threshold)
  end.

Definition uint16 (z : Z) : Z := z mod 65536.

(** The counts of the three allocations are lengths, so the requests do not
    fail ([sx_malloc]) and the [sx_out_of_memory] exits are left out.  The
    conversion of the points to [double] and back is exact. *)
Definition atlasc__make_mesh (E : externals) (fuel : nat) (spr : atlasc__sprite)
           (pts : list s2o_point) (max_verts : Z)
           (thresholded : mask) (width height : Z) : option atlasc__sprite :=
  match simplify_loop E fuel pts max_verts threshold_start with
  | None => None
  | Some (temp_pts, _) =>
      (* fix any collisions with the actual image *)
      match atlasc__fix_outline_pts fuel thresholded width height
                                    temp_pts (length temp_pts) with
      | None => None
      | Some temp_pts =>
          (* triangulate *)
          let tris := tri_delaunay2d_from E temp_pts in
          Some (set_mesh spr
                  (map uint16 (firstn (Z.to_nat (del_num_triangles tris * 3))
                                      (del_tris tris)))
                  (del_points tris)
                  (uint16 (del_num_triangles tris))
                  (del_num_points tris))
      end
  end.

(* ================================================================== *)
(** * atlasc__blit (lines 119-132) *)

(** [sx_memcpy (dst + d, src + s, n)]: the [memcpy] of the C library on two
    byte buffers, at the offsets [d] and [s].  [None] stands for a copy that
    leaves one of the buffers, or whose count is negative before its
    conversion to [size_t]: the C program has no defined behaviour there. *)
Definition sx_memcpy (dst : list Z) (d : Z) (src : list Z) (s n : Z)
  : option (list Z) :=
  if (0 <=? n) && (0 <=? d) && (d + n <=? Z.of_nat (length dst))
     && (0 <=? s) && (s + n <=? Z.of_nat (length src))
  then Some (firstn (Z.to_nat d) dst
             ++ firstn (Z.to_nat n) (skipn (Z.to_nat s) src)
             ++ skipn (Z.to_nat (d + n)) dst)
  else None.

(** The [for] loop over the rows, with [rows] rows still to copy; the two
    pointers are offsets into their buffers and [n] is the byte count of a
    row. *)
Fixpoint blit_rows (rows : nat) (dst : list Z) (dst_ptr dst_pitch : Z)
         (src : list Z) (src_ptr src_pitch n : Z) : option (list Z) :=
  match rows with
  | O => Some dst
  | S rows' =>
      match sx_memcpy dst dst_ptr src src_ptr n with
      | None => None
      | Some dst' =>
          blit_rows rows' dst' (dst_ptr + dst_pitch) dst_pitch
                    src (src_ptr + src_pitch) src_pitch n
      end
  end.

(** The products are [int] products; the sums that follow are pointer
    arithmetic.  [y] runs from [src_y] up to [src_y + src_h], an [int] sum. *)
Definition atlasc__blit (dst : list Z) (dst_x dst_y dst_pitch : Z)
           (src : list Z) (src_x src_y src_w src_h src_pitch bpp : Z)
  : option (list Z) :=
  let pixel_sz := Z.quot bpp 8 in
  let src_ptr := Int32.mul src_y src_pitch + Int32.mul src_x pixel_sz in
  let dst_ptr := Int32.mul dst_y dst_pitch + Int32.mul dst_x pixel_sz in
  blit_rows (Z.to_nat (Int32.add src_y src_h - src_y))
            dst dst_ptr dst_pitch src src_ptr src_pitch
            (Int32.mul src_w pixel_sz).

(* ================================================================== *)
(** * atlasc__save (lines 295-374) *)

(** The manifest, as the tree handed to the JSON encoder. *)
Record manifest_mesh : Type := mk_manifest_mesh {
  mm_num_tris : Z;
  mm_num_vertices : Z;
  mm_indices : list Z;
  mm_positions : list sx_ivec2;
  mm_uvs : list sx_ivec2
}.

Record manifest_sprite : Type := mk_manifest_sprite {
  ms_name : string;
  ms_size : sx_ivec2;
  ms_sprite_rect : sx_irect;
  ms_sheet_rect : sx_irect;
  ms_mesh : option manifest_mesh
}.

Record manifest : Type := mk_manifest {
  m_image : string;
  m_image_width : Z;
  m_image_height : Z;
  m_sprites : list manifest_sprite
}.

(** A file left by the build: the sheet image with its pixels, the manifest
    with the tree that was encoded, or a manifest file that was opened (and so
    created or emptied) without the whole text reaching it. *)
Inductive output_file : Type :=
| PngFile (path : string) (w h : Z) (pixels : list Z)
| JsonFile (path : string) (content : manifest)
| CutFile (path : string).

Definition array_of (o : option (list sx_ivec2)) (n : Z) : list sx_ivec2 :=
  match o with
  | Some l => firstn (Z.to_nat n) l
  | None => []
  end.

(** The entry of one sprite; its name goes through the array [name[256]]. *)
Definition manifest_of_sprite (E : externals) (path : string)
           (spr : atlasc__sprite) : manifest_sprite :=
  mk_manifest_sprite
    (fit 256 (sx_os_path_unixpath E path)) (src_size spr)
    (sprite_rect spr) (sheet_rect spr)
    (if num_tris spr =? 0 then None
     else Some (mk_manifest_mesh
                  (num_tris spr) (num_points spr)
                  (match tris spr with
                   | Some t => firstn (Z.to_nat (num_tris spr * 3)) t
                   | None => []
                   end)
                  (array_of (pts spr) (num_points spr))
                  (array_of (uvs spr) (num_points spr)))).

Fixpoint manifest_sprites (E : externals) (paths : list string)
         (sprites : list atlasc__sprite) : list manifest_sprite :=
  match sprites with
  | [] => []
  | spr :: rest =>
      manifest_of_sprite E (hd EmptyString paths) spr
        :: manifest_sprites E (tl paths) rest
  end.

(** What [atlasc__save] leaves behind: its return value, the files written
    and the lines printed. *)
Record save_outcome : Type := mk_save_outcome {
  sv_result : bool;
  sv_files : list output_file;
  sv_printed : list string
}.

(** [main] refuses to start a build without -o, so [out_filepath] is not
    NULL here; that branch only makes the function total.  The JSON context
    and the encoder are taken to succeed (allocation).  [basename],
    [image_filepath] and [image_filename] are arrays of 256 bytes; the value
    that [sx_file_write_text] returns is not looked at. *)
Definition atlasc__save (E : externals) (args : atlasc_args)
           (sprites : list atlasc__sprite) (dst : list Z) (dst_w dst_h : Z)
  : save_outcome :=
  match out_filepath args with
  | None => mk_save_outcome false [] []
  | Some out =>
      let '(file_ext, basename) := sx_os_path_splitext E out in
      let basename := fit 256 basename in
      let image_filepath := sx_strcpy 256 basename in
      let image_filepath := sx_strcat 256 image_filepath ".png" in
      let png_ok := stbi_write_png E image_filepath dst_w dst_h in
      let files :=
        if png_ok then [PngFile image_filepath dst_w dst_h dst] else [] in
      let printed :=
        if png_ok then []
        else [("could not write image: " ++ image_filepath)%string] in
      let image_filename := fit 256 (sx_os_path_basename E image_filepath) in
      (* write atlas description into json file *)
      let jroot := mk_manifest image_filename dst_w dst_h
                               (manifest_sprites E (in_filepaths args) sprites) in
      if negb (sx_file_open_writer E out) then
        mk_save_outcome false files
          (printed ++ [("could not open file for writing: " ++ out)%string])
      else
        let written :=
          if sx_file_write_text E out then JsonFile out jroot else CutFile out in
        mk_save_outcome true (files ++ [written]) printed
  end.

(* ================================================================== *)
(** * atlasc_make (lines 376-538) *)

Definition empty_rect : sx_irect :=
  sx_irecti Int32.INT_MAX Int32.INT_MAX Int32.INT_MIN Int32.INT_MIN.

(** The body of the first loop, for one input path: [inl msg] is the early
    [return false] with [msg] left in [g_error_str], an array of 512
    bytes. *)
Definition load_sprite (E : externals) (fuel : nat) (args : atlasc_args)
           (path : string) : option (string + atlasc__sprite) :=
  if negb (sx_os_path_isfile E path) then
    Some (inl (sx_snprintf 512 ("input image not found: " ++ path)))
  else
    match stbi_load E path with
    | None => Some (inl (sx_snprintf 512 ("invalid image format: " ++ path)))
    | Some pixels =>
        let spr :=
          mk_sprite (img_pixels pixels) (sx_ivec2i (img_w pixels) (img_h pixels))
                    (sprite_rect zero_sprite) (sheet_rect zero_sprite)
                    0 0 None None None in
        let w := vx (src_size spr) in
        let h := vy (src_size spr) in
        let alpha := s2o_rgba_to_alpha E (src_image spr) w h in
        let thresholded :=
          s2o_alpha_to_thresholded E alpha w h (alpha_threshold args) in
        let dialate_thres := s2o_dilate_thresholded E thresholded w h in
        let outlined := s2o_thresholded_to_outlined E dialate_thres w h in
        let pts := s2o_extract_outline_path E outlined w h in
        (* calculate cropped rectangle *)
        let sprite_rect := fold_left sx_irect_add_point pts empty_rect in
        (* generate mesh if set in arguments *)
        let meshed :=
          if mesh args =? 0 then Some spr
          else atlasc__make_mesh E fuel spr pts (max_verts_per_mesh args)
                                 thresholded w h in
        match meshed with
        | None => None
        | Some spr => Some (inr (set_sprite_rect spr sprite_rect))
        end
    end.

Fixpoint load_sprites (E : externals) (fuel : nat) (args : atlasc_args)
         (paths : list string) : option (string + list atlasc__sprite) :=
  match paths with
  | [] => Some (inr [])
  | path :: rest =>
      match load_sprite E fuel args path with
      | None => None
      | Some (inl msg) => Some (inl msg)
      | Some (inr spr) =>
          match load_sprites E fuel args rest with
          | None => None
          | Some (inl msg) => Some (inl msg)
          | Some (inr sprs) => Some (inr (spr :: sprs))
          end
      end
  end.

(** The size handed to the packer for one sprite (lines 454-459); the
    coordinate type of the packer is taken to hold it. *)
Definition rp_rect_size (args : atlasc_args) (spr : atlasc__sprite) : Z * Z :=
  let rc := sprite_rect spr in
  let rc_resize := Int32.mul (Int32.add (border args) (padding args)) 2 in
  (Int32.add (Int32.sub (xmax rc) (xmin rc)) rc_resize,
   Int32.add (Int32.sub (ymax rc) (ymin rc)) rc_resize).

(** The loop run when the packer reports success (lines 463-474); a rect
    the packer left untouched keeps the position 0,0 of the memset. *)
Fixpoint place_sprites (args : atlasc_args) (sprites : list atlasc__sprite)
         (placed : list (Z * Z)) (final_rect : sx_irect)
  : sx_irect * list atlasc__sprite :=
  match sprites with
  | [] => (final_rect, [])
  | spr :: rest =>
      let '(x, y) := hd (0, 0) placed in
      let '(w, h) := rp_rect_size args spr in
      let sheet_rect := sx_irectwh x y w h in
      (* calculate the total size of output image *)
      let final_rect := sx_irect_add_point final_rect (vmin sheet_rect) in
      let final_rect := sx_irect_add_point final_rect (vmax sheet_rect) in
      (* shrink back rect and set the real sheet_rect for the sprite *)
      let spr :=
        set_sheet_rect spr
          (sx_irect_expand sheet_rect
             (sx_ivec2i (Int32.neg (border args)) (Int32.neg (border args)))) in
      let '(final_rect, rest) := place_sprites args rest (tl placed) final_rect in
      (final_rect, spr :: rest)
  end.

(** UVs of one sprite (lines 498-513). *)
Definition sprite_uvs (args : atlasc_args) (spr : atlasc__sprite) : atlasc__sprite :=
  match pts spr with
  | Some p =>
      if num_points spr =? 0 then spr
      else
        let padding := padding args in
        let offset := vmin (sprite_rect spr) in
        let sheet_pos :=
          sx_ivec2i (Int32.add (xmin (sheet_rect spr)) padding)
                    (Int32.add (ymin (sheet_rect spr)) padding) in
        set_uvs spr
          (map (fun pt => sx_ivec2_add (sx_ivec2_sub pt offset) sheet_pos)
               (firstn (Z.to_nat (num_points spr)) p))
  | None => spr
  end.

(** *** The sheet image (lines 488-493 and 517-528) *)

(** The body of the last loop of [atlasc_make] for one sprite: remove the
    padding and blit from [src_image] to [dst]. *)
Definition blit_sprite (args : atlasc_args) (dst_w : Z) (dst : list Z)
           (spr : atlasc__sprite) : option (list Z) :=
  let dstrc :=
    sx_irect_expand (sheet_rect spr)
      (sx_ivec2i (Int32.neg (padding args)) (Int32.neg (padding args))) in
  let srcrc := sprite_rect spr in
  atlasc__blit dst (xmin dstrc) (ymin dstrc) (Int32.mul dst_w 4)
               (src_image spr) (xmin srcrc) (ymin srcrc)
               (Int32.sub (xmax srcrc) (xmin srcrc))
               (Int32.sub (ymax srcrc) (ymin srcrc))
               (Int32.mul (vx (src_size spr)) 4) 32.

Fixpoint blit_sprites (args : atlasc_args) (dst_w : Z) (dst : list Z)
         (sprites : list atlasc__sprite) : option (list Z) :=
  match sprites with
  | [] => Some dst
  | spr :: rest =>
      match blit_sprite args dst_w dst spr with
      | None => None
      | Some dst' => blit_sprites args dst_w dst' rest
      end
  end.

(** [dst] as handed to [atlasc__save], once the request for it has
    succeeded: [dst_w * dst_h * 4] bytes, cleared by [sx_memset], then the
    sprites blitted one after the other. *)
Definition sheet_pixels (args : atlasc_args) (sprites : list atlasc__sprite)
           (dst_w dst_h : Z) : option (list Z) :=
  let dst := repeat 0 (Z.to_nat (Int32.mul (Int32.mul dst_w dst_h) 4)) in
  blit_sprites args dst_w dst sprites.

(** *** The function *)

(** What one call of [atlasc_make] leaves behind. *)
Record make_outcome : Type := mk_make_outcome {
  mk_result : bool;
  mk_error_str : string;
  mk_packed : bool;
  mk_sprites : list atlasc__sprite;
  mk_dst_w : Z;
  mk_dst_h : Z;
  mk_files : list output_file;
  mk_printed : list string
}.

(** An early [return false], with [msg] in [g_error_str]. *)
Definition failed (msg : string) : make_outcome :=
  mk_make_outcome false msg false [] 0 0 [] [].

(** [g_error_str] starts out empty, and [sx_out_of_memory] (sx, not under
    src/) is taken to return, as the [return false] after it supposes.  The
    arrays [sprites] and [rp_rects] have the number of the inputs for their
    count, so the requests for them do not fail; [rp_nodes] has the [int] sum
    [max_width + max_height].  [sx_memset] clears [dst] before [dst] is
    compared with NULL: after a request that failed it writes through the
    null pointer, unless the size is zero. *)
Definition atlasc_make (E : externals) (fuel : nat) (args : atlasc_args)
  : option make_outcome :=
  match load_sprites E fuel args (in_filepaths args) with
  | None => None
  | Some (inl msg) => Some (failed msg)
  | Some (inr sprites) =>
      (* pack sprites into a sheet *)
      let max_width := max_width args in
      let max_height := max_height args in
      let num_rp_nodes := Int32.add max_width max_height in
      if negb (sx_malloc (size_t (size_t num_rp_nodes * sizeof_stbrp_node)))
      then Some (failed EmptyString)
      else
        let rp_rects := map (rp_rect_size args) sprites in
        let '(packed, placed) :=
          stbrp_pack_rects E max_width max_height rp_rects in
        let '(final_rect, sprites) :=
          if packed then place_sprites args sprites placed empty_rect
          else (empty_rect, sprites) in
        let dst_w := Int32.sub (xmax final_rect) (xmin final_rect) in
        let dst_h := Int32.sub (ymax final_rect) (ymin final_rect) in
        let '(dst_w, dst_h) := canvas_size (pot args) (dst_w, dst_h) in
        let size := size_t (Int32.mul (Int32.mul dst_w dst_h) 4) in
        if negb (sx_malloc size) then
          if size =? 0 then Some (failed EmptyString) else None
        else
          (* calculate UVs for sprite meshes *)
          let sprites :=
            if mesh args =? 0 then sprites
            else map (sprite_uvs args) sprites in
          match sheet_pixels args sprites dst_w dst_h with
          | None => None
          | Some dst =>
              let r := atlasc__save E args sprites dst dst_w dst_h in
              Some (mk_make_outcome (sv_result r) EmptyString packed sprites
                                    dst_w dst_h (sv_files r) (sv_printed r))
          end
  end.

(* ================================================================== *)
(** * main (lines 544-641), after the option loop *)

(** The value returned by [main] once the options are read into [args] and
    [version]. *)
Definition main (E : externals) (fuel : nat) (version : Z) (args : atlasc_args)
  : option Z :=
  if negb (version =? 0) then Some 0
  else
    match in_filepaths args with
    | [] => Some (-1)
    | _ :: _ =>
        match out_filepath args with
        | None => Some (-1)
        | Some _ =>
            if negb (forallb (sx_os_path_isfile E) (in_filepaths args))
            then Some (-1)
            else
              match atlasc_make E fuel args with
              | None => None
              | Some out => Some (if mk_result out then 0 else -1)
              end
        end
    end.

(** The exit status the parent process sees for a value returned by [main]. *)
Definition exit_status (ret : Z) : Z := ret mod 256.

(* ================================================================== *)
(** * A reference instance of the collaborators

    Small executable stand-ins for the external primitives, used to run the
    model on concrete inputs.  They follow the contracts of the primitives;
    the outline extractor is exact for silhouettes whose dilated mask is a
    rectangle. *)

Module Ref.

Fixpoint every_fourth (l : list Z) : list Z :=
  match l with
  | _ :: _ :: _ :: a :: rest => a :: every_fourth rest
  | _ => []
  end.

Definition rgba_to_alpha (data : list Z) (w h : Z) : mask := every_fourth data.

Definition alpha_to_thresholded (data : mask) (w h threshold : Z) : mask :=
  map (fun a => if a >=? threshold then 255 else 0) data.

Definition is_set (data : mask) (w h x y : Z) : bool :=
  (0 <=? x) && (x <? w) && (0 <=? y) && (y <? h)
  && negb (byte_at data (y * w + x) =? 0).

Definition offsets3 : list Z := [-1; 0; 1].

Definition indices (w h : Z) : list Z := map Z.of_nat (seq 0 (Z.to_nat (w * h))).

Definition dilate_thresholded (data : mask) (w h : Z) : mask :=
  map (fun i =>
         let x := i mod w in
         let y := i / w in
         if existsb (fun dy => existsb (fun dx => is_set data w h (x + dx) (y + dy))
                                       offsets3) offsets3
         then 255 else 0)
      (indices w h).

Definition thresholded_to_outlined (data : mask) (w h : Z) : mask :=
  map (fun i =>
         let x := i mod w in
         let y := i / w in
         if is_set data w h x y
            && negb (is_set data w h (x - 1) y && is_set data w h (x + 1) y
                     && is_set data w h x (y - 1) && is_set data w h x (y + 1))
         then 255 else 0)
      (indices w h).

Definition set_pixels (data : mask) (w h : Z) : list sx_ivec2 :=
  map (fun i => sx_ivec2i (i mod w) (i / w))
      (filter (fun i => negb (byte_at data i =? 0)) (indices w h)).

Definition range (a b : Z) : list Z := map (fun k => a + Z.of_nat k) (seq 0 (Z.to_nat (b - a + 1))).

(** The pixels on the border of a rectangle, clockwise from its top left
    corner. *)
Definition perimeter (rc : sx_irect) : list s2o_point :=
  map (fun x => sx_ivec2i x (ymin rc)) (range (xmin rc) (xmax rc))
  ++ map (fun y => sx_ivec2i (xmax rc) y) (range (ymin rc + 1) (ymax rc))
  ++ map (fun x => sx_ivec2i x (ymax rc)) (rev (range (xmin rc) (xmax rc - 1)))
  ++ map (fun y => sx_ivec2i (xmin rc) y) (rev (range (ymin rc + 1) (ymax rc - 1))).

Definition in_image (w h : Z) (p : s2o_point) : bool :=
  (0 <=? vx p) && (vx p <? w) && (0 <=? vy p) && (vy p <? h).

Definition extract_outline_path (data : mask) (w h : Z) : list s2o_point :=
  match set_pixels data w h with
  | [] => []
  | p :: rest =>
      filter (in_image w h)
             (perimeter (fold_left sx_irect_add_point (p :: rest)
                                   (sx_irecti (vx p) (vy p) (vx p) (vy p))))
  end.

Definition dist2 (a b : s2o_point) : Z :=
  (vx a - vx b) * (vx a - vx b) + (vy a - vy b) * (vy a - vy b).

(** Radial-distance simplification: a point is dropped when it lies within
    the threshold of the last point kept. *)
Fixpoint simplify_from (last : s2o_point) (pts : list s2o_point)
         (threshold : F32.float) : list s2o_point :=
  match pts with
  | [] => []
  | p :: rest =>
      if F32.leb (F32.of_int (dist2 last p)) (F32.mul threshold threshold)
      then simplify_from last rest threshold
      else p :: simplify_from p rest threshold
  end.

Definition path_simplification (pts : list s2o_point) (threshold : F32.float)
  : list s2o_point :=
  match pts with
  | [] => []
  | p :: rest => p :: simplify_from p rest threshold
  end.

(** A triangle fan over the points given. *)
Definition fan (pts : list s2o_point) : tri_delaunay2d :=
  mk_tri_delaunay2d pts
    (flat_map (fun k => [0; Z.of_nat k; Z.of_nat k + 1])
              (seq 1 (length pts - 2))).

(** A packer that lines the rects up in one row. *)
Fixpoint row_pack (max_width max_height x : Z) (rects : list (Z * Z))
  : bool * list (Z * Z) :=
  match rects with
  | [] => (true, [])
  | (w, h) :: rest =>
      if (x + w <=? max_width) && (h <=? max_height) then
        let '(ok, placed) := row_pack max_width max_height (x + w) rest in
        (ok, (x, 0) :: placed)
      else
        let '(_, placed) := row_pack max_width max_height x rest in
        (false, (65535, 65535) :: placed)
  end.

Definition pack_rects (max_width max_height : Z) (rects : list (Z * Z))
  : bool * list (Z * Z) := row_pack max_width max_height 0 rects.

Fixpoint has_char (c : Ascii.ascii) (s : string) : bool :=
  match s with
  | EmptyString => false
  | String d rest => Ascii.eqb c d || has_char c rest
  end.

Fixpoint before_last (c : Ascii.ascii) (s : string) : string :=
  match s with
  | EmptyString => EmptyString
  | String d rest =>
      if Ascii.eqb c d && negb (has_char c rest) then EmptyString
      else String d (before_last c rest)
  end.

Fixpoint after_last (c : Ascii.ascii) (s : string) : string :=
  match s with
  | EmptyString => EmptyString
  | String d rest => if has_char c rest then after_last c rest
                     else if Ascii.eqb c d then rest else s
  end.

Definition path_splitext (path : string) : string * string :=
  (after_last "."%char path, before_last "."%char path).

Definition path_basename (path : string) : string := after_last "/"%char path.

Fixpoint lookup (fs : list (string * image)) (path : string) : option image :=
  match fs with
  | [] => None
  | (name, img) :: rest => if String.eqb name path then Some img else lookup rest path
  end.

(** The collaborators over a directory [fs] of decodable images; [png_ok]
    says whether the sheet image can be written, [json_ok] whether the
    manifest can be opened for writing and [text_ok] whether its text then
    gets written. *)
Definition ext_io (fs : list (string * image)) (png_ok json_ok text_ok : bool)
  : externals :=
  mk_externals
    (fun path => match lookup fs path with Some _ => true | None => false end)
    (lookup fs)
    rgba_to_alpha alpha_to_thresholded dilate_thresholded
    thresholded_to_outlined extract_outline_path
    path_simplification fan pack_rects
    (fun _ _ _ => png_ok) (fun _ => json_ok)
    path_splitext path_basename (fun path => path)
    (fun _ => text_ok).

Definition ext (fs : list (string * image)) (png_ok json_ok : bool) : externals :=
  ext_io fs png_ok json_ok true.

(** The defaults of [main]. *)
Definition default_args (inputs : list string) (out : string) (mesh : Z)
  : atlasc_args :=
  mk_atlasc_args 20 inputs (Some out) 2048 2048 2 0 1 mesh 25.

(** A fully opaque image. *)
Definition opaque (w h : Z) : image :=
  mk_image w h (repeat 255 (Z.to_nat (w * h * 4))).

(** A transparent image with an opaque block on the pixels from
    [(x0, y0)] to [(x1, y1)], both included. *)
Definition block (w h x0 y0 x1 y1 : Z) : image :=
  mk_image w h
    (flat_map (fun i =>
                 let x := i mod w in
                 let y := i / w in
                 [255; 255; 255;
                  if (x0 <=? x) && (x <=? x1) && (y0 <=? y) && (y <=? y1)
                  then 255 else 0])
              (indices w h)).

End Ref.

(* ================================================================== *)
(** * The offset step in the words of the spec (section 4.4)

    These definitions follow the specification, not the code; they are
    compared with [atlasc__offset_pt] in the properties below. *)

Module OffsetSpec.

(** The neighbours of vertex [i], wrapping cyclically. *)
Definition prev_vertex (pts : list s2o_point) (i : nat) : s2o_point :=
  pt_at pts ((i + length pts - 1) mod length pts)%nat.

Definition next_vertex (pts : list s2o_point) (i : nat) : s2o_point :=
  pt_at pts ((i + 1) mod length pts)%nat.

(** The unit edge vector from [v] toward [u]. *)
Definition unit_edge (v u : s2o_point) : sx_vec2 :=
  sx_vec2_norm (sx_vec2_sub (atlasc__itof2 u) (atlasc__itof2 v)).

(** The z-component of the cross product of two vectors of the plane. *)
Definition cross_z (a b : sx_vec2) : F32.float :=
  F32.sub (F32.mul (fx a) (fy b)) (F32.mul (fy a) (fx b)).

Definition perpendicular (v : sx_vec2) : sx_vec2 :=
  sx_vec2f (F32.opp (fy v)) (fx v).

(** [a . v] for a scalar [a]. *)
Definition scale (a : F32.float) (v : sx_vec2) : sx_vec2 := sx_vec2_mulf v a.

Definition collinear (z : F32.float) : bool := F32.ltb (F32.abs z) F32.eps_1e5.

Definition minus_one : F32.float := F32.opp F32.one.

(** [n] is an offset vector the spec allows for the edge vectors [e1], [e2]
    and the amount [a]. *)
Definition offset_vector (a : F32.float) (e1 e2 n : sx_vec2) : Prop :=
  let z := cross_z e1 e2 in
  (collinear z = true -> n = scale a (perpendicular e1))
  /\ (collinear z = false -> F32.ltb z F32.zero = true ->
      n = scale (F32.mul minus_one a) (sx_vec2_norm (sx_vec2_add e1 e2)))
  /\ (collinear z = false -> F32.ltb F32.zero z = true ->
      n = scale (F32.mul F32.one a) (sx_vec2_norm (sx_vec2_add e1 e2))).

(** The displaced point, floored to integer and clamped to the grid. *)
Definition displaced (v : s2o_point) (n : sx_vec2) (w h : Z) : s2o_point :=
  let p := sx_vec2_add (atlasc__itof2 v) n in
  sx_ivec2i (sx_clamp (F32.floor_to_int (fx p)) 0 w)
            (sx_clamp (F32.floor_to_int (fy p)) 0 h).

Definition same_point (a b : s2o_point) : bool :=
  (vx a =? vx b) && (vy a =? vy b).

End OffsetSpec.

(* ================================================================== *)
(** * The line test and the correction loop in the words of the spec
      (section 4.4)

    These definitions follow the specification, not the code; they are
    compared with [atlasc__test_line] and [atlasc__fix_outline_pts] in the
    properties below. *)

Module LineSpec.

(** The spec has "standard Bresenham with inclusive endpoints".  The
    rasterised line from [p0] to [p1] has one pixel for each step along
    the axis on which the end points lie further apart, both ends included;
    the other coordinate is that of the ideal line, rounded to the nearest
    pixel (a tie goes the way of travel).  [pixel p0 p1 k] is the pixel after
    [k] steps. *)
Definition steps (p0 p1 : s2o_point) : Z :=
  Z.max (Z.abs (vx p1 - vx p0)) (Z.abs (vy p1 - vy p0)).

Definition pixel (p0 p1 : s2o_point) (k : Z) : s2o_point :=
  let a := Z.abs (vx p1 - vx p0) in
  let b := Z.abs (vy p1 - vy p0) in
  if b <=? a
  then sx_ivec2i (vx p0 + Z.sgn (vx p1 - vx p0) * k)
                 (vy p0 + Z.sgn (vy p1 - vy p0) * ((2 * b * k + a) / (2 * a)))
  else sx_ivec2i (vx p0 + Z.sgn (vx p1 - vx p0) * ((2 * a * k + b) / (2 * b)))
                 (vy p0 + Z.sgn (vy p1 - vy p0) * k).

Definition rasterised (p0 p1 : s2o_point) : list s2o_point :=
  map (fun k => pixel p0 p1 (Z.of_nat k)) (seq 0 (S (Z.to_nat (steps p0 p1)))).

(** The pixel lies inside the [w] x [h] image and the mask is set there. *)
Definition opaque_at (m : mask) (w h : Z) (p : s2o_point) : bool :=
  (0 <=? vx p) && (vx p <? w) && (0 <=? vy p) && (vy p <? h)
  && negb (byte_at m (vy p * w + vx p) =? 0).

(** The rasterised line touches an opaque pixel of the mask. *)
Definition touches (m : mask) (w h : Z) (p0 p1 : s2o_point) : bool :=
  existsb (opaque_at m w h) (rasterised p0 p1).

End LineSpec.

Module CorrectorSpec.

(** The correction loop of one edge [(i, next)], as the spec words it.
    While the rasterised line between the two end points touches an opaque
    pixel of the mask, one offset step is applied to [pts[i]]; if it did not
    move, the edge is left as it is; otherwise one offset step is applied to
    [pts[next]] and the line is tested again.  [edge_loop m tw th n i pts
    pts'] relates the polygon before the loop of edge [i] to the polygon
    after it. *)
Inductive edge_loop (m : mask) (tw th : Z) (num_pts i : nat)
  : list s2o_point -> list s2o_point -> Prop :=
| edge_clear : forall pts,
    LineSpec.touches m tw th (pt_at pts i) (pt_at pts (next_index i num_pts))
    = false ->
    edge_loop m tw th num_pts i pts pts
| edge_stuck : forall pts pts1,
    LineSpec.touches m tw th (pt_at pts i) (pt_at pts (next_index i num_pts))
    = true ->
    atlasc__offset_pt pts num_pts i offset_amount tw th = (false, pts1) ->
    edge_loop m tw th num_pts i pts pts1
| edge_pushed : forall pts pts1 moved pts2 pts',
    LineSpec.touches m tw th (pt_at pts i) (pt_at pts (next_index i num_pts))
    = true ->
    atlasc__offset_pt pts num_pts i offset_amount tw th = (true, pts1) ->
    atlasc__offset_pt pts1 num_pts (next_index i num_pts) offset_amount tw th
    = (moved, pts2) ->
    edge_loop m tw th num_pts i pts2 pts' ->
    edge_loop m tw th num_pts i pts pts'.

(** A single sweep over the edges [i], [i + 1], ... ([todo] of them), each
    through its loop. *)
Inductive sweep (m : mask) (tw th : Z) (num_pts : nat)
  : nat -> nat -> list s2o_point -> list s2o_point -> Prop :=
| sweep_done : forall i pts, sweep m tw th num_pts i O pts pts
| sweep_edge : forall i todo pts pts1 pts2,
    edge_loop m tw th num_pts i pts pts1 ->
    sweep m tw th num_pts (S i) todo pts1 pts2 ->
    sweep m tw th num_pts i (S todo) pts pts2.

End CorrectorSpec.

(* ================================================================== *)
(** * Named inputs *)

(** The threshold of pass [k] of the simplification loop, counted from 0:
    0.5 at the start and one [delta] more after every pass. *)
Definition threshold_at (k : nat) : F32.float :=
  Nat.iter k (fun threshold => F32.add threshold delta) threshold_start.

Module Stuck.

(** A 5 x 4 mask with the two opaque pixels (3,1) and (3,2). *)
Definition thresholded : mask :=
  [0; 0; 0; 0; 0;
   0; 0; 0; 255; 0;
   0; 0; 0; 255; 0;
   0; 0; 0; 0; 0].

(** Four points of the clockwise outline of the dilated mask. *)
Definition pts : list s2o_point :=
  [sx_ivec2i 2 0; sx_ivec2i 4 3; sx_ivec2i 2 3; sx_ivec2i 2 1].

(** The two states between which the first edge goes back and forth. *)
Definition pts_a : list s2o_point :=
  [sx_ivec2i 1 0; sx_ivec2i 5 3; sx_ivec2i 2 3; sx_ivec2i 2 1].

Definition pts_b : list s2o_point :=
  [sx_ivec2i 0 0; sx_ivec2i 5 3; sx_ivec2i 2 3; sx_ivec2i 2 1].

End Stuck.

(* ================================================================== *)
(** * What the manifest shows of a sprite, and the claims about it *)

(** The [positions] and [uvs] arrays as [atlasc__save] emits them. *)
Definition positions (spr : atlasc__sprite) : list sx_ivec2 :=
  array_of (pts spr) (num_points spr).

Definition uv_coords (spr : atlasc__sprite) : list sx_ivec2 :=
  array_of (uvs spr) (num_points spr).

(** [sheet_rect.min + (padding, padding)]. *)
Definition sheet_pos (args : atlasc_args) (spr : atlasc__sprite) : sx_ivec2 :=
  sx_ivec2i (Int32.add (xmin (sheet_rect spr)) (padding args))
            (Int32.add (ymin (sheet_rect spr)) (padding args)).

(** [(p - sprite_rect.min) + (sheet_rect.min + (padding, padding))]. *)
Definition uv_of (args : atlasc_args) (spr : atlasc__sprite) (p : sx_ivec2)
  : sx_ivec2 :=
  sx_ivec2_add (sx_ivec2_sub p (vmin (sprite_rect spr))) (sheet_pos args spr).

Definition rect_width (rc : sx_irect) : Z := Int32.sub (xmax rc) (xmin rc).
Definition rect_height (rc : sx_irect) : Z := Int32.sub (ymax rc) (ymin rc).

(** The point lies within the rectangle, borders included. *)
Definition within_rect (rc : sx_irect) (p : sx_ivec2) : Prop :=
  xmin rc <= vx p <= xmax rc /\ ymin rc <= vy p <= ymax rc.

(** [sheet_rect] contracted inward by [padding] on all sides. *)
Definition contracted_sheet_rect (args : atlasc_args) (spr : atlasc__sprite)
  : sx_irect :=
  sx_irect_expand (sheet_rect spr)
                  (sx_ivec2i (Int32.neg (padding args)) (Int32.neg (padding args))).

(** The point lies within the source image, [0,w] x [0,h]. *)
Definition within_image (size : sx_ivec2) (p : sx_ivec2) : Prop :=
  0 <= vx p <= vx size /\ 0 <= vy p <= vy size.

(* ================================================================== *)
(** * The masks of one sprite *)

(** The thresholded mask of a decoded image, before dilation. *)
Definition thresholded_of (E : externals) (args : atlasc_args) (pixels : image)
  : mask :=
  s2o_alpha_to_thresholded E
    (s2o_rgba_to_alpha E (img_pixels pixels) (img_w pixels) (img_h pixels))
    (img_w pixels) (img_h pixels) (alpha_threshold args).

(** The outline extracted from the dilated mask. *)
Definition outline_of (E : externals) (args : atlasc_args) (pixels : image)
  : list s2o_point :=
  s2o_extract_outline_path E
    (s2o_thresholded_to_outlined E
       (s2o_dilate_thresholded E (thresholded_of E args pixels)
                               (img_w pixels) (img_h pixels))
       (img_w pixels) (img_h pixels))
    (img_w pixels) (img_h pixels).

(** The collaborators [E] with another dilation primitive. *)
Definition with_dilate (E : externals) (dilate : mask -> Z -> Z -> mask)
  : externals :=
  mk_externals
    (sx_os_path_isfile E) (stbi_load E)
    (s2o_rgba_to_alpha E) (s2o_alpha_to_thresholded E) dilate
    (s2o_thresholded_to_outlined E) (s2o_extract_outline_path E)
    (s2o_distance_based_path_simplification E) (tri_delaunay2d_from E)
    (stbrp_pack_rects E) (stbi_write_png E) (sx_file_open_writer E)
    (sx_os_path_splitext E) (sx_os_path_basename E) (sx_os_path_unixpath E)
    (sx_file_write_text E).

(** Two sprite records show the same mesh and the same trim. *)
Definition same_mesh (a b : atlasc__sprite) : Prop :=
  pts a = pts b /\ num_points a = num_points b /\ num_tris a = num_tris b
  /\ src_size a = src_size b /\ sprite_rect a = sprite_rect b.

(* ================================================================== *)
(** * A sample build

    [atlasc -i a.png -o atlas.json --mesh --max-verts 6] on an 8 x 8 image
    whose pixels (2,2) to (5,5) are opaque, with the reference
    collaborators. *)

Module Sample.

Definition fs : list (string * image) := [("a.png"%string, Ref.block 8 8 2 2 5 5)].

Definition E : externals := Ref.ext fs true true.

Definition args : atlasc_args :=
  mk_atlasc_args 20 ["a.png"%string] (Some "atlas.json"%string)
                 2048 2048 2 0 1 1 6.

Definition no_outcome : make_outcome :=
  mk_make_outcome false EmptyString false [] 0 0 [] [].

Definition out : make_outcome :=
  match atlasc_make E 50 args with
  | Some o => o
  | None => no_outcome
  end.

Definition sprite : atlasc__sprite := hd zero_sprite (mk_sprites out).

(** The sprite as the loading loop leaves it. *)
Definition loaded : atlasc__sprite :=
  match load_sprite E 50 args "a.png" with
  | Some (inr spr) => spr
  | _ => zero_sprite
  end.

End Sample.

(** [atlasc -i a.png -o atlas.json --mesh --max-verts 3] on the same image:
    the least vertex budget that the spec allows.  The outline of the
    dilated mask has four corners, so whatever the simplification keeps
    within this budget leaves a corner out. *)
Module Trio.

Definition args : atlasc_args :=
  mk_atlasc_args 20 ["a.png"%string] (Some "atlas.json"%string)
                 2048 2048 2 0 1 1 3.

Definition out : make_outcome :=
  match atlasc_make Sample.E 50 args with
  | Some o => o
  | None => Sample.no_outcome
  end.

Definition sprite : atlasc__sprite := hd zero_sprite (mk_sprites out).

Definition image : image := Ref.block 8 8 2 2 5 5.

Definition thresholded : mask := thresholded_of Sample.E args image.

Definition outline : list s2o_point := outline_of Sample.E args image.

(** The pairs and the triples of points of a list, in the order of the
    list: the polygons of three vertices that a simplification can keep of
    an outline. *)
Fixpoint pairs (l : list s2o_point) : list (s2o_point * s2o_point) :=
  match l with
  | [] => []
  | b :: rest => map (fun c => (b, c)) rest ++ pairs rest
  end.

Fixpoint triples (l : list s2o_point) : list (list s2o_point) :=
  match l with
  | [] => []
  | a :: rest => map (fun bc => [a; fst bc; snd bc]) (pairs rest) ++ triples rest
  end.

(** The rasterised line of some edge of the triangle touches the thresholded
    mask. *)
Definition crosses (t : list s2o_point) : bool :=
  existsb (fun i => LineSpec.touches thresholded 8 8 (pt_at t i)
                                      (pt_at t (next_index i 3)))
          [0; 1; 2]%nat.

Definition inside (rc : sx_irect) (p : s2o_point) : bool :=
  (xmin rc <=? vx p) && (vx p <=? xmax rc)
  && (ymin rc <=? vy p) && (vy p <=? ymax rc).

(** The corrector returns on the triangle, with a vertex outside [rc]. *)
Definition pushed_out (fuel : nat) (m : mask) (rc : sx_irect)
           (t : list s2o_point) : bool :=
  match atlasc__fix_outline_pts fuel m 8 8 t 3 with
  | Some corrected => negb (forallb (inside rc) corrected)
  | None => false
  end.

End Trio.

(* ================================================================== *)
(** * Two more builds *)

(** [atlasc -i tile.png -o atlas.json -W 4 -H 4] on a fully opaque 3 x 3
    image: its sprite_rect is (0,0,2,2) and its padded rect, 8 x 8, cannot be
    placed in a 4 x 4 sheet. *)
Module Unfit.

Definition fs : list (string * image) := [("tile.png"%string, Ref.opaque 3 3)].

Definition E : externals := Ref.ext fs true true.

Definition args : atlasc_args :=
  mk_atlasc_args 20 ["tile.png"%string] (Some "atlas.json"%string)
                 4 4 2 0 1 0 25.

Definition loaded : list atlasc__sprite :=
  match load_sprites E 50 args (in_filepaths args) with
  | Some (inr sprs) => sprs
  | _ => []
  end.

Definition tile : atlasc__sprite := hd zero_sprite loaded.

End Unfit.

(** The sample build in a directory where atlas.png cannot be written,
    atlas.json can be opened and its text does not get written (a full
    disk). *)
Module NoPng.

Definition E : externals := Ref.ext_io Sample.fs false true false.

Definition loaded : list atlasc__sprite :=
  match load_sprites E 50 Sample.args (in_filepaths Sample.args) with
  | Some (inr sprs) => sprs
  | _ => []
  end.

(** The sheet image of the sample build, as it is written where the PNG can
    be written. *)
Definition sheet : list Z :=
  match atlasc_make Sample.E 50 Sample.args with
  | Some out =>
      match mk_files out with
      | PngFile _ _ _ pixels :: _ => pixels
      | _ => []
      end
  | None => []
  end.

End NoPng.

(** [atlasc -i a.png -i a.png -o atlas.json]: the sample image twice, without
    the mesh. *)
Module Pair.

Definition args : atlasc_args :=
  mk_atlasc_args 20 ["a.png"%string; "a.png"%string] (Some "atlas.json"%string)
                 2048 2048 2 0 1 0 25.

Definition out : make_outcome :=
  match atlasc_make Sample.E 0 args with
  | Some o => o
  | None => Sample.no_outcome
  end.

Definition first : atlasc__sprite := nth 0 (mk_sprites out) zero_sprite.
Definition second : atlasc__sprite := nth 1 (mk_sprites out) zero_sprite.

End Pair.

(* ================================================================== *)
(** * Notions used in the proofs *)

(** [Reach r n0 n]: a set bit of [n0] shows in [n] at every position up to
    [r - 1] places below it. *)
Definition Reach (r n0 n : Z) : Prop :=
  forall i k, 0 <= i <= k -> k < i + r ->
              Z.testbit n0 k = true -> Z.testbit n i = true.

(** [Above b n]: [n] has no bit set from position [b] upward. *)
Definition Above (b n : Z) : Prop :=
  forall i, b <= i -> Z.testbit n i = false.

(** One coordinate of [canvas_size]. *)
Definition canvas_extent (pot x : Z) : Z :=
  if pot =? 0 then sx_align_mask x 3 else sx_nearest_pow2 (sx_align_mask x 3).

(** The invariant of the loop of [atlasc__test_line]: [rx] and [ry] are the
    steps still to go along each axis; the error term is determined by
    them. *)
Definition line_inv (x1 y1 dx sx dy sy : Z) (s : line_state) (rx ry : Z)
  : Prop :=
  0 <= rx <= dx /\ 0 <= ry <= - dy
  /\ ls_x0 s = x1 - rx * sx /\ ls_y0 s = y1 - ry * sy
  /\ ls_err s = dx + dy - rx * dy - ry * dx.

(** The walk of [atlasc__test_line] after [k] turns, for a line that spans
    [a] pixels along x and [b] along y: the steps taken along each axis, and
    the state of the loop. *)
Definition turns_x (a b k : Z) : Z :=
  if b <=? a then k else (2 * a * k + b) / (2 * b).

Definition turns_y (a b k : Z) : Z :=
  if b <=? a then (2 * b * k + a) / (2 * a) else k.

Definition walk_state (x0 y0 a b sx sy k : Z) : line_state :=
  mk_line_state (x0 + sx * turns_x a b k) (y0 + sy * turns_y a b k)
                (a - b - turns_x a b k * b + turns_y a b k * a).

Definition state_pixel (s : line_state) : s2o_point :=
  sx_ivec2i (ls_x0 s) (ls_y0 s).

(** The outcome of pass [k] of the simplification loop on [pts]. *)
Definition simplified_at (E : externals) (pts : list s2o_point) (k : nat)
  : list s2o_point :=
  s2o_distance_based_path_simplification E pts (threshold_at k).

(** The sprites as the packing stage leaves them. *)
Definition placed_sprites (E : externals) (args : atlasc_args)
           (loaded : list atlasc__sprite) : list atlasc__sprite :=
  let '(packed, placed) :=
    stbrp_pack_rects E (max_width args) (max_height args)
                     (map (rp_rect_size args) loaded) in
  if packed then snd (place_sprites args loaded placed empty_rect) else loaded.

(** The all-packed flag of the packer on the loaded sprites. *)
Definition pack_ok (E : externals) (args : atlasc_args)
           (loaded : list atlasc__sprite) : bool :=
  fst (stbrp_pack_rects E (max_width args) (max_height args)
                        (map (rp_rect_size args) loaded)).

(** The sprites as the UV pass leaves them. *)
Definition final_sprites (E : externals) (args : atlasc_args)
           (loaded : list atlasc__sprite) : list atlasc__sprite :=
  if mesh args =? 0 then placed_sprites E args loaded
  else map (sprite_uvs args) (placed_sprites E args loaded).

(** [dst_w] and [dst_h] of the build. *)
Definition sheet_size (E : externals) (args : atlasc_args)
           (loaded : list atlasc__sprite) : Z * Z :=
  let '(packed, placed) :=
    stbrp_pack_rects E (max_width args) (max_height args)
                     (map (rp_rect_size args) loaded) in
  let final_rect :=
    if packed then fst (place_sprites args loaded placed empty_rect)
    else empty_rect in
  canvas_size (pot args)
              (Int32.sub (xmax final_rect) (xmin final_rect),
               Int32.sub (ymax final_rect) (ymin final_rect)).

(** The sheet image of the build: [None] when the request for it fails or a
    blit leaves a buffer. *)
Definition sheet_of (E : externals) (args : atlasc_args)
           (loaded : list atlasc__sprite) : option (list Z) :=
  let '(dst_w, dst_h) := sheet_size E args loaded in
  if 0 <=? Int32.mul (Int32.mul dst_w dst_h) 4
  then sheet_pixels args (final_sprites E args loaded) dst_w dst_h
  else None.

(** What [atlasc_make] returns once the sheet image [dst] is made. *)
Definition built (E : externals) (args : atlasc_args)
           (loaded : list atlasc__sprite) (dst : list Z) : make_outcome :=
  let '(dst_w, dst_h) := sheet_size E args loaded in
  let r := atlasc__save E args (final_sprites E args loaded) dst dst_w dst_h in
  mk_make_outcome (sv_result r) EmptyString (pack_ok E args loaded)
                  (final_sprites E args loaded) dst_w dst_h
                  (sv_files r) (sv_printed r).

(** The path of the sheet image for the manifest path [out]: the base name
    cut to [basename[256]], copied to [image_filepath[256]], with ".png"
    appended as far as it fits. *)
Definition image_path (E : externals) (out : string) : string :=
  sx_strcat 256 (sx_strcpy 256 (fit 256 (snd (sx_os_path_splitext E out)))) ".png".

(** The tree that [atlasc__save] encodes for the manifest path [out]. *)
Definition manifest_for (E : externals) (args : atlasc_args)
           (sprites : list atlasc__sprite) (dst_w dst_h : Z) (out : string)
  : manifest :=
  mk_manifest (fit 256 (sx_os_path_basename E (image_path E out))) dst_w dst_h
              (manifest_sprites E (in_filepaths args) sprites).

(** The sheet_rect exceeds the sprite_rect by the padding on every side. *)
Definition sheet_fits (args : atlasc_args) (spr : atlasc__sprite) : Prop :=
  rect_width (sheet_rect spr)
  = Int32.add (rect_width (sprite_rect spr)) (Int32.mul 2 (padding args))
  /\ rect_height (sheet_rect spr)
     = Int32.add (rect_height (sprite_rect spr)) (Int32.mul 2 (padding args)).

(* ================================================================== *)
(** * print_version, print_help (lines 86-96) and main (lines 544-641) *)

Definition VERSION : Z := 1000.

(** [printf] of an [int] with the conversion %d. *)
Definition dec (z : Z) : string := NilZero.string_of_int (Z.to_int z).

(** The lines written by [print_version], for a value of the macro VERSION. *)
Definition version_lines (version : Z) : list string :=
  [("atlasc v" ++ dec (Z.quot version 1000) ++ "."
    ++ dec (Z.quot (Z.rem version 1000) 10) ++ "."
    ++ dec (Z.rem version 10))%string;
   "http://www.github.com/septag/atlasc"%string].

Definition print_version : list string := version_lines VERSION.

(** [help] is the text that [sx_cmdline_create_help_string] makes. *)
Definition print_help (help : string) : list string :=
  print_version ++ [EmptyString; help].

(** What one call of [sx_cmdline_next] that does not return -1 does, seen
    from [main]: it returns the character of the option met and leaves its
    argument in [arg]; for an option whose table entry has the type FLAG_SET
    (version, pot, mesh) it stores the value of the entry, 1, through the
    flag pointer of the entry and returns a value that the [switch] has no
    case for. *)
Inductive cmdline_step : Type :=
| returned (opt : ascii) (arg : string)
| flag_set_version
| flag_set_pot
| flag_set_mesh.

(** The locals [version] and [args] of [main], and the lines printed. *)
Record main_state : Type := mk_main_state {
  st_version : Z;
  st_args : atlasc_args;
  st_printed : list string
}.

(** [args] as [main] initializes it; the members left out are zero. *)
Definition initial_args : atlasc_args :=
  mk_atlasc_args 20 [] None 2048 2048 2 0 1 0 25.

Definition initial_state : main_state := mk_main_state 0 initial_args [].

Definition with_args (st : main_state) (a : atlasc_args) : main_state :=
  mk_main_state (st_version st) a (st_printed st).

Definition printf (st : main_state) (line : string) : main_state :=
  mk_main_state (st_version st) (st_args st) (st_printed st ++ [line]).

(** One turn of the option loop with its [switch]: [inl] leaves [main] with
    the status given ([exit (-1)] or [return 0]), [inr] goes round again. *)
Definition option_case (sx_toint : string -> Z) (help : string)
           (st : main_state) (step : cmdline_step)
  : (Z * list string) + main_state :=
  let a := st_args st in
  match step with
  | returned opt arg =>
      match opt with
      | "+"%char => inr (printf st ("Argument without flag: " ++ arg)%string)
      | "?"%char =>
          inl (-1, st_printed st ++ [("Unknown argument: " ++ arg)%string])
      | "h"%char => inl (0, st_printed st ++ print_help help)
      | "!"%char =>
          inl (-1, st_printed st ++ [("Invalid use of argument: " ++ arg)%string])
      | "i"%char =>
          inr (with_args st
                 (mk_atlasc_args (alpha_threshold a) (in_filepaths a ++ [arg])
                    (out_filepath a) (max_width a) (max_height a) (border a)
                    (pot a) (padding a) (mesh a) (max_verts_per_mesh a)))
      | "o"%char =>
          inr (with_args st
                 (mk_atlasc_args (alpha_threshold a) (in_filepaths a)
                    (Some arg) (max_width a) (max_height a) (border a)
                    (pot a) (padding a) (mesh a) (max_verts_per_mesh a)))
      | "A"%char =>
          inr (with_args st
                 (mk_atlasc_args (sx_toint arg) (in_filepaths a)
                    (out_filepath a) (max_width a) (max_height a) (border a)
                    (pot a) (padding a) (mesh a) (max_verts_per_mesh a)))
      | "W"%char =>
          inr (with_args st
                 (mk_atlasc_args (alpha_threshold a) (in_filepaths a)
                    (out_filepath a) (sx_toint arg) (max_height a) (border a)
                    (pot a) (padding a) (mesh a) (max_verts_per_mesh a)))
      | "H"%char =>
          inr (with_args st
                 (mk_atlasc_args (alpha_threshold a) (in_filepaths a)
                    (out_filepath a) (max_width a) (sx_toint arg) (border a)
                    (pot a) (padding a) (mesh a) (max_verts_per_mesh a)))
      | "B"%char =>
          inr (with_args st
                 (mk_atlasc_args (alpha_threshold a) (in_filepaths a)
                    (out_filepath a) (max_width a) (max_height a) (sx_toint arg)
                    (pot a) (padding a) (mesh a) (max_verts_per_mesh a)))
      | "P"%char =>
          inr (with_args st
                 (mk_atlasc_args (alpha_threshold a) (in_filepaths a)
                    (out_filepath a) (max_width a) (max_height a) (border a)
                    (pot a) (sx_toint arg) (mesh a) (max_verts_per_mesh a)))
      | "M"%char =>
          inr (with_args st
                 (mk_atlasc_args (alpha_threshold a) (in_filepaths a)
                    (out_filepath a) (max_width a) (max_height a) (border a)
                    (pot a) (padding a) (mesh a) (sx_toint arg)))
      | _ => inr st
      end
  | flag_set_version => inr (mk_main_state 1 a (st_printed st))
  | flag_set_pot =>
      inr (with_args st
             (mk_atlasc_args (alpha_threshold a) (in_filepaths a)
                (out_filepath a) (max_width a) (max_height a) (border a)
                1 (padding a) (mesh a) (max_verts_per_mesh a)))
  | flag_set_mesh =>
      inr (with_args st
             (mk_atlasc_args (alpha_threshold a) (in_filepaths a)
                (out_filepath a) (max_width a) (max_height a) (border a)
                (pot a) (padding a) 1 (max_verts_per_mesh a)))
  end.

(** The [while] loop; the list ends where [sx_cmdline_next] returns -1. *)
Fixpoint option_loop (sx_toint : string -> Z) (help : string)
         (steps : list cmdline_step) (st : main_state)
  : (Z * list string) + main_state :=
  match steps with
  | [] => inr st
  | step :: rest =>
      match option_case sx_toint help st step with
      | inl r => inl r
      | inr st' => option_loop sx_toint help rest st'
      end
  end.

(** [main] from its first line: the value it returns (or hands to [exit])
    and the lines on the standard output. *)
Definition atlasc_main (E : externals) (sx_toint : string -> Z) (help : string)
           (fuel : nat) (steps : list cmdline_step) : option (Z * list string) :=
  match option_loop sx_toint help steps initial_state with
  | inl r => Some r
  | inr st =>
      let args := st_args st in
      if negb (st_version st =? 0) then Some (0, st_printed st ++ print_version)
      else
        match in_filepaths args with
        | [] =>
            Some (-1, st_printed st
                      ++ ["must set at least one input file (-i)"%string])
        | _ :: _ =>
            match out_filepath args with
            | None =>
                Some (-1, st_printed st ++ ["must set output file (-o)"%string])
            | Some _ =>
                match find (fun path => negb (sx_os_path_isfile E path))
                           (in_filepaths args) with
                | Some path =>
                    Some (-1, st_printed st
                              ++ [("Invalid file path: " ++ path)%string])
                | None =>
                    match atlasc_make E fuel args with
                    | None => None
                    | Some out =>
                        Some (if mk_result out then 0 else -1,
                              st_printed st ++ mk_printed out)
                    end
                end
            end
        end
  end.

(** A directory in which every path is a file and only a.png decodes, and
    the run [atlasc -i a.png -i notes.txt -o atlas.json] in it. *)
Module Garbled.

Definition E : externals :=
  mk_externals
    (fun _ => true) (stbi_load Sample.E)
    (s2o_rgba_to_alpha Sample.E) (s2o_alpha_to_thresholded Sample.E)
    (s2o_dilate_thresholded Sample.E) (s2o_thresholded_to_outlined Sample.E)
    (s2o_extract_outline_path Sample.E)
    (s2o_distance_based_path_simplification Sample.E)
    (tri_delaunay2d_from Sample.E) (stbrp_pack_rects Sample.E)
    (stbi_write_png Sample.E) (sx_file_open_writer Sample.E)
    (sx_os_path_splitext Sample.E) (sx_os_path_basename Sample.E)
    (sx_os_path_unixpath Sample.E) (sx_file_write_text Sample.E).

Definition steps : list cmdline_step :=
  [returned "i" "a.png"; returned "i" "notes.txt"; returned "o" "atlas.json"].

Definition args : atlasc_args :=
  mk_atlasc_args 20 ["a.png"%string; "notes.txt"%string]
                 (Some "atlas.json"%string) 2048 2048 2 0 1 0 25.

(** [args] of [main] after [-i a.png] alone. *)
Definition one_input : atlasc_args :=
  mk_atlasc_args 20 ["a.png"%string] None 2048 2048 2 0 1 0 25.

End Garbled.

(* ================================================================== *)
(** * Notions used in the further properties *)

(** An input that the loading loop accepts: a file that the decoder
    accepts. *)
Definition loadable (E : externals) (path : string) : Prop :=
  sx_os_path_isfile E path = true /\ stbi_load E path <> None.

(** Byte [b] of the pixel [(x, y)] in a buffer of rows of [w] pixels, with
    [ps] bytes to the pixel. *)
Definition pixel_byte (buf : list Z) (w ps x y b : Z) : Z :=
  byte_at buf ((y * w + x) * ps + b).

(** The buffer holds [w] x [h] pixels of [ps] bytes, and the byte offsets
    into it fit an [int]. *)
Definition image_sized (buf : list Z) (w h ps : Z) : Prop :=
  0 <= w /\ 0 <= h /\ h <= Int32.INT_MAX
  /\ w * ps <= Int32.INT_MAX /\ w * h * ps <= Int32.INT_MAX
  /\ Z.of_nat (length buf) = w * h * ps.

(** The pixel [(x, y)] of the sheet lies in the rectangle that the last loop
    of [atlasc_make] blits the sprite to: the extent of its sprite_rect, put
    at the corner of its sheet_rect with the padding removed. *)
Definition covers (args : atlasc_args) (spr : atlasc__sprite) (x y : Z) : Prop :=
  let dstrc := contracted_sheet_rect args spr in
  xmin dstrc <= x < xmin dstrc + rect_width (sprite_rect spr)
  /\ ymin dstrc <= y < ymin dstrc + rect_height (sprite_rect spr).

(** Byte [b] of the pixel of the source image that the blit of the sprite
    brings to the pixel [(x, y)] of the sheet. *)
Definition source_byte (args : atlasc_args) (spr : atlasc__sprite) (x y b : Z) : Z :=
  let dstrc := contracted_sheet_rect args spr in
  pixel_byte (src_image spr) (vx (src_size spr)) 4
             (x - xmin dstrc + xmin (sprite_rect spr))
             (y - ymin dstrc + ymin (sprite_rect spr)) b.

(** The blit of the sprite reads inside its source image and writes inside
    a sheet of [dst_w] x [dst_h] pixels. *)
Definition blit_fits (args : atlasc_args) (dst_w dst_h : Z) (spr : atlasc__sprite)
  : Prop :=
  let dstrc := contracted_sheet_rect args spr in
  let srcrc := sprite_rect spr in
  image_sized (src_image spr) (vx (src_size spr)) (vy (src_size spr)) 4
  /\ 0 <= xmin srcrc /\ 0 <= ymin srcrc
  /\ 0 <= rect_width srcrc /\ 0 <= rect_height srcrc
  /\ xmin srcrc + rect_width srcrc <= vx (src_size spr)
  /\ ymin srcrc + rect_height srcrc <= vy (src_size spr)
  /\ 0 <= xmin dstrc /\ 0 <= ymin dstrc
  /\ xmin dstrc + rect_width srcrc <= dst_w
  /\ ymin dstrc + rect_height srcrc <= dst_h.

(** The sprite_rect is a rectangle of non-negative coordinates, and the size
    handed to the packer for it fits an [int]. *)
Definition trim_sized (args : atlasc_args) (spr : atlasc__sprite) : Prop :=
  let rc := sprite_rect spr in
  0 <= xmin rc <= xmax rc /\ 0 <= ymin rc <= ymax rc
  /\ xmax rc - xmin rc + 2 * (border args + padding args) <= Int32.INT_MAX
  /\ ymax rc - ymin rc + 2 * (border args + padding args) <= Int32.INT_MAX.

(** The position that the packer gave the rect of a sprite keeps the rect
    inside the bin of [max_width] x [max_height]. *)
Definition packed_inside (args : atlasc_args) (spr : atlasc__sprite)
           (pos : Z * Z) : Prop :=
  0 <= fst pos /\ 0 <= snd pos
  /\ fst pos + fst (rp_rect_size args spr) <= max_width args
  /\ snd pos + snd (rp_rect_size args spr) <= max_height args.

(** The source image of the sprite has the size recorded for it, and its
    sprite_rect does not reach beyond the image. *)
Definition crop_inside (spr : atlasc__sprite) : Prop :=
  image_sized (src_image spr) (vx (src_size spr)) (vy (src_size spr)) 4
  /\ xmax (sprite_rect spr) <= vx (src_size spr)
  /\ ymax (sprite_rect spr) <= vy (src_size spr).

(** The rectangles that two sprites are blitted to have no pixel in
    common. *)
Definition disjoint_targets (args : atlasc_args) (a b : atlasc__sprite) : Prop :=
  forall x y, covers args a x y -> ~ covers args b x y.

(** The step makes [main] leave its option loop: an option that the parser
    does not know ('?') or finds misused ('!'), or the help option. *)
Definition leaves_main (step : cmdline_step) : bool :=
  match step with
  | returned opt _ =>
      Ascii.eqb opt "?" || Ascii.eqb opt "!" || Ascii.eqb opt "h"
  | _ => false
  end.

(** The arguments of the -i options among the steps, in their order, and
    the argument of the last -o option, if there is one. *)
Definition inputs_of (steps : list cmdline_step) : list string :=
  flat_map (fun step =>
              match step with
              | returned opt arg => if Ascii.eqb opt "i" then [arg] else []
              | _ => []
              end) steps.

Definition output_of (steps : list cmdline_step) (start : option string)
  : option string :=
  fold_left (fun o step =>
               match step with
               | returned opt arg => if Ascii.eqb opt "o" then Some arg else o
               | _ => o
               end) steps start.

(** The mesh members of the sprite are those that [atlasc__make_mesh] takes
    from the triangulation of some polygon. *)
Definition mesh_from (triangulate : list s2o_point -> tri_delaunay2d)
           (spr : atlasc__sprite) : Prop :=
  exists polygon,
    tris spr
    = Some (map uint16
              (firstn (Z.to_nat (del_num_triangles (triangulate polygon) * 3))
                      (del_tris (triangulate polygon))))
    /\ pts spr = Some (del_points (triangulate polygon))
    /\ num_tris spr = uint16 (del_num_triangles (triangulate polygon))
    /\ num_points spr = del_num_points (triangulate polygon).

(* ################################################################## *)
(** * Properties *)

(* ================================================================== *)
(** ** Facts on 32-bit arithmetic *)

Module Int32Facts.
Import Int32.

Lemma wrap_range z : in_range (wrap z).
Proof.
  unfold in_range, wrap, INT_MIN, INT_MAX.
  pose proof (Z.mod_pos_bound (z + 2147483648) 4294967296 ltac:(lia)). lia.
Qed.

Lemma wrap_id z : in_range z -> wrap z = z.
Proof.
  unfold in_range, wrap, INT_MIN, INT_MAX. intros H.
  rewrite Z.mod_small by lia. lia.
Qed.

Lemma wrap_eqm a b : (a - b) mod 4294967296 = 0 -> wrap a = wrap b.
Proof.
  intros H. unfold wrap. f_equal.
  apply Z.mod_divide in H; [|lia]. destruct H as [k Hk].
  replace (a + 2147483648) with (b + 2147483648 + k * 4294967296) by lia.
  apply Z.mod_add. lia.
Qed.

Lemma wrap_diff a : exists k, wrap a = a + k * 4294967296.
Proof.
  unfold wrap. exists (- ((a + 2147483648) / 4294967296)).
  rewrite (Z.mod_eq (a + 2147483648) 4294967296) by lia. lia.
Qed.

Lemma wrap_add_l a b : wrap (wrap a + b) = wrap (a + b).
Proof.
  apply wrap_eqm. destruct (wrap_diff a) as [k ->].
  replace (a + k * 4294967296 + b - (a + b)) with (k * 4294967296) by lia.
  apply Z.mod_mul. lia.
Qed.

Lemma wrap_add_r a b : wrap (a + wrap b) = wrap (a + b).
Proof. rewrite Z.add_comm, wrap_add_l. f_equal. lia. Qed.

Lemma wrap_sub_l a b : wrap (wrap a - b) = wrap (a - b).
Proof. unfold Z.sub. apply wrap_add_l. Qed.

Lemma wrap_sub_r a b : wrap (a - wrap b) = wrap (a - b).
Proof.
  apply wrap_eqm. destruct (wrap_diff b) as [k ->].
  replace (a - (b + k * 4294967296) - (a - b)) with ((- k) * 4294967296) by lia.
  apply Z.mod_mul. lia.
Qed.

Lemma wrap_opp a : wrap (- wrap a) = wrap (- a).
Proof.
  apply wrap_eqm. destruct (wrap_diff a) as [k ->].
  replace (- (a + k * 4294967296) - - a) with ((- k) * 4294967296) by lia.
  apply Z.mod_mul. lia.
Qed.

Lemma wrap_mul_l a b : wrap (wrap a * b) = wrap (a * b).
Proof.
  apply wrap_eqm. destruct (wrap_diff a) as [k ->].
  replace ((a + k * 4294967296) * b - a * b) with ((k * b) * 4294967296) by lia.
  apply Z.mod_mul. lia.
Qed.

Lemma wrap_wrap a : wrap (wrap a) = wrap a.
Proof. apply wrap_id, wrap_range. Qed.

Lemma eqm_refl a : eqm a a.
Proof. exists 0. lia. Qed.

Lemma eqm_wrap a b : eqm a b -> eqm (wrap a) b.
Proof.
  intros [k ->]. destruct (wrap_diff (b + k * 4294967296)) as [j ->].
  exists (k + j). lia.
Qed.

Lemma eqm_add a a' b b' : eqm a a' -> eqm b b' -> eqm (a + b) (a' + b').
Proof. intros [k ->] [j ->]. exists (k + j). lia. Qed.

Lemma eqm_sub a a' b b' : eqm a a' -> eqm b b' -> eqm (a - b) (a' - b').
Proof. intros [k ->] [j ->]. exists (k - j). lia. Qed.

Lemma eqm_opp a a' : eqm a a' -> eqm (- a) (- a').
Proof. intros [k ->]. exists (- k). lia. Qed.

Lemma eqm_mul a a' b b' : eqm a a' -> eqm b b' -> eqm (a * b) (a' * b').
Proof.
  intros [k ->] [j ->].
  exists (a' * j + k * b' + k * j * 4294967296). lia.
Qed.

Lemma wrap_eq_by a b a0 b0 :
  eqm a a0 -> eqm b b0 -> a0 = b0 -> wrap a = wrap b.
Proof.
  intros [k ->] [j ->] ->. apply wrap_eqm.
  replace (b0 + k * 4294967296 - (b0 + j * 4294967296))
    with ((k - j) * 4294967296) by lia.
  apply Z.mod_mul. lia.
Qed.

Ltac strip_wraps :=
  lazymatch goal with
  | |- eqm (wrap _) _ => apply eqm_wrap; strip_wraps
  | |- eqm (_ + _) _ => apply eqm_add; strip_wraps
  | |- eqm (_ - _) _ => apply eqm_sub; strip_wraps
  | |- eqm (_ * _) _ => apply eqm_mul; strip_wraps
  | |- eqm (- _) _ => apply eqm_opp; strip_wraps
  | |- eqm _ _ => apply eqm_refl
  end.

(** Proves [wrap a = wrap b] when [a] and [b] agree as polynomials once
    every inner wrap is dropped. *)
Ltac int32_ring :=
  unfold add, sub, mul, neg;
  eapply wrap_eq_by; [strip_wraps | strip_wraps | ring].

End Int32Facts.

(* ================================================================== *)
(** ** Canvas sizing *)

Section BitCascade.

Lemma or_shift_bit s n i :
  0 <= s -> 0 <= i ->
  Z.testbit (or_shift s n) i = Z.testbit n i || Z.testbit n (i + s).
Proof.
  intros Hs Hi. unfold or_shift.
  rewrite Z.lor_spec, Z.shiftr_spec by lia. reflexivity.
Qed.

Lemma Reach_or_shift r s n0 n :
  0 < s <= r -> Reach r n0 n -> Reach (r + s) n0 (or_shift s n).
Proof.
  intros Hs HR i k Hik Hk Hbit.
  rewrite or_shift_bit by lia.
  destruct (Z_lt_dec k (i + r)) as [Hlt | Hge].
  - rewrite (HR i k) by (lia || assumption). reflexivity.
  - rewrite (HR (i + s) k) by (lia || assumption). apply orb_true_r.
Qed.

Lemma Above_or_shift b s n :
  0 <= s -> 0 <= b -> Above b n -> Above b (or_shift s n).
Proof.
  intros Hs Hb HA i Hi. rewrite or_shift_bit by lia.
  rewrite !HA by lia. reflexivity.
Qed.

Lemma Reach_smear n : Reach 32 n (smear n).
Proof.
  unfold smear.
  change 32 with (16 + 16). apply Reach_or_shift; [lia|].
  change 16 with (8 + 8). apply Reach_or_shift; [lia|].
  change 8 with (4 + 4). apply Reach_or_shift; [lia|].
  change 4 with (2 + 2). apply Reach_or_shift; [lia|].
  change 2 with (1 + 1). apply Reach_or_shift; [lia|].
  intros i k Hik Hk Hbit. replace i with k by lia. exact Hbit.
Qed.

Lemma Above_smear b n : 0 <= b -> Above b n -> Above b (smear n).
Proof.
  intros Hb HA. unfold smear.
  repeat (apply Above_or_shift; [lia | lia | ]). exact HA.
Qed.

(** On a positive 31-bit number the cascade sets every bit below the top
    one. *)
Lemma smear_ones m :
  0 < m < 2 ^ 31 -> smear m = Z.ones (Z.log2 m + 1).
Proof.
  intros Hm.
  assert (HL : 0 <= Z.log2 m < 31).
  { split; [apply Z.log2_nonneg|]. apply Z.log2_lt_pow2; lia. }
  apply Z.bits_inj'. intros i Hi.
  destruct (Z_lt_dec i (Z.log2 m + 1)) as [Hlow | Hhigh].
  - rewrite Z.ones_spec_low by lia.
    apply (Reach_smear m i (Z.log2 m)); [lia | lia |].
    apply Z.bit_log2. lia.
  - rewrite Z.ones_spec_high by lia.
    apply (Above_smear (Z.log2 m + 1)); [lia | | lia].
    intros j Hj. apply Z.bits_above_log2; lia.
Qed.

Lemma smear_0 : smear 0 = 0.
Proof. reflexivity. Qed.

Lemma smear_m1 : smear (-1) = -1.
Proof. reflexivity. Qed.

End BitCascade.

Section CanvasSizing.
Import Int32 Int32Facts.

Lemma sx_align_mask_3 x : sx_align_mask x 3 = 4 * (wrap (x + 3) / 4).
Proof.
  unfold sx_align_mask, add.
  rewrite <- Z.ldiff_land. change 3 with (Z.ones 2).
  rewrite Z.ldiff_ones_r by lia.
  rewrite Z.shiftl_mul_pow2, Z.shiftr_div_pow2 by lia.
  change (2 ^ 2) with 4. lia.
Qed.

(** The aligned value is a multiple of four that fits an [int]. *)
Lemma sx_align_mask_3_range x :
  exists q, sx_align_mask x 3 = 4 * q /\ -536870912 <= q <= 536870911.
Proof.
  rewrite sx_align_mask_3. exists (wrap (x + 3) / 4). split; [reflexivity|].
  pose proof (wrap_range (x + 3)) as H. unfold in_range, INT_MIN, INT_MAX in H.
  pose proof (Z.div_mod (wrap (x + 3)) 4 ltac:(lia)).
  pose proof (Z.mod_pos_bound (wrap (x + 3)) 4 ltac:(lia)). lia.
Qed.

Lemma sx_align_mask_3_fixed q :
  -536870912 <= q <= 536870911 -> sx_align_mask (4 * q) 3 = 4 * q.
Proof.
  intros Hq. rewrite sx_align_mask_3.
  rewrite wrap_id by (unfold in_range, INT_MIN, INT_MAX; lia).
  replace (4 * q + 3) with (3 + q * 4) by lia.
  rewrite Z.div_add by lia. change (3 / 4) with 0. lia.
Qed.

Lemma sx_align_mask_3_idem x :
  sx_align_mask (sx_align_mask x 3) 3 = sx_align_mask x 3.
Proof.
  destruct (sx_align_mask_3_range x) as [q [-> Hq]].
  apply sx_align_mask_3_fixed, Hq.
Qed.

Lemma sx_align_mask_3_nonneg x :
  0 <= x <= INT_MAX ->
  (exists q, sx_align_mask x 3 = 4 * q /\ 0 <= q <= 536870911)
  \/ sx_align_mask x 3 = INT_MIN.
Proof.
  unfold INT_MAX, INT_MIN. intros Hx.
  destruct (Z_le_dec x 2147483644) as [Hs | Hb].
  - left. rewrite sx_align_mask_3.
    rewrite wrap_id by (unfold in_range, INT_MIN, INT_MAX; lia).
    exists ((x + 3) / 4). split; [reflexivity|].
    pose proof (Z.div_mod (x + 3) 4 ltac:(lia)).
    pose proof (Z.mod_pos_bound (x + 3) 4 ltac:(lia)). lia.
  - right. rewrite sx_align_mask_3.
    assert (Hw : wrap (x + 3) = x + 3 - 4294967296).
    { unfold wrap.
      replace (x + 3 + 2147483648) with (x + 3 - 2147483648 + 1 * 4294967296) by lia.
      rewrite Z.mod_add by lia. rewrite Z.mod_small by lia. lia. }
    rewrite Hw.
    assert (Hd : (x + 3 - 4294967296) / 4 = -536870912).
    { symmetry. apply (Z.div_unique _ 4 _ (x - 2147483645)); lia. }
    rewrite Hd. reflexivity.
Qed.

(** [sx_nearest_pow2] on the values that reach it. *)
Lemma sx_nearest_pow2_0 : sx_nearest_pow2 0 = 0.
Proof. reflexivity. Qed.

Lemma sx_nearest_pow2_INT_MIN : sx_nearest_pow2 INT_MIN = INT_MIN.
Proof. reflexivity. Qed.

Lemma sx_nearest_pow2_above_1 n :
  1 < n <= INT_MAX ->
  sx_nearest_pow2 n = wrap (2 ^ (Z.log2 (n - 1) + 1)).
Proof.
  unfold INT_MAX. intros Hn. unfold sx_nearest_pow2, sub, add.
  rewrite (wrap_id (n - 1)) by (unfold in_range, INT_MIN, INT_MAX; lia).
  rewrite smear_ones by (change (2 ^ 31) with 2147483648; lia).
  rewrite Z.ones_equiv. f_equal. lia.
Qed.

Lemma sx_nearest_pow2_pow2 k :
  0 <= k <= 30 -> sx_nearest_pow2 (2 ^ k) = 2 ^ k.
Proof.
  intros Hk.
  destruct (Z.eq_dec k 0) as [-> | Hk0]; [reflexivity|].
  assert (H2 : 2 ^ 1 <= 2 ^ k <= 2 ^ 30)
    by (split; apply Z.pow_le_mono_r; lia).
  change (2 ^ 1) with 2 in H2. change (2 ^ 30) with 1073741824 in H2.
  rewrite sx_nearest_pow2_above_1 by (unfold INT_MAX; lia).
  replace (2 ^ k - 1) with (Z.pred (2 ^ k)) by lia.
  rewrite Z.log2_pred_pow2 by lia.
  replace (Z.pred k + 1) with k by lia.
  apply wrap_id. unfold in_range, INT_MIN, INT_MAX. lia.
Qed.

(** The spec's words: for a size that has a power of two above it in the
    range of [int], the result is the least power of two that is not
    smaller. *)
Lemma sx_nearest_pow2_rounds_up n :
  1 <= n <= 1073741824 ->
  sx_nearest_pow2 n = 2 ^ Z.log2_up n
  /\ n <= 2 ^ Z.log2_up n
  /\ (forall k, 0 <= k -> n <= 2 ^ k -> 2 ^ Z.log2_up n <= 2 ^ k).
Proof.
  intros Hn. split; [|split].
  - destruct (Z.eq_dec n 1) as [-> | Hn1]; [reflexivity|].
    rewrite sx_nearest_pow2_above_1 by (unfold INT_MAX; lia).
    assert (HL : Z.log2_up n = Z.log2 (n - 1) + 1).
    { rewrite Z.log2_up_eqn by lia. unfold Z.pred, Z.succ. reflexivity. }
    rewrite <- HL. apply wrap_id.
    assert (Hup : Z.log2_up n <= 30).
    { change 30 with (Z.log2_up (2 ^ 30)).
      apply Z.log2_up_le_mono. change (2 ^ 30) with 1073741824. lia. }
    assert (Hlo : 0 <= Z.log2_up n) by apply Z.log2_up_nonneg.
    assert (H2 : 0 < 2 ^ Z.log2_up n <= 2 ^ 30).
    { split; [apply Z.pow_pos_nonneg; lia | apply Z.pow_le_mono_r; lia]. }
    change (2 ^ 30) with 1073741824 in H2.
    unfold in_range, INT_MIN, INT_MAX. lia.
  - destruct (Z.eq_dec n 1) as [-> | Hn1]; [cbn; lia|].
    apply Z.log2_up_spec. lia.
  - intros k Hk Hle. apply Z.pow_le_mono_r; [lia|].
    apply Z.log2_up_le_pow2; lia.
Qed.

(** The result of [sx_nearest_pow2] on an aligned non-negative size is 0, a
    power of two that is a multiple of four, or INT_MIN after the wrap. *)
Lemma sx_nearest_pow2_aligned q :
  0 <= q <= 536870911 ->
  sx_nearest_pow2 (4 * q) = 0
  \/ sx_nearest_pow2 (4 * q) = INT_MIN
  \/ exists k, 2 <= k <= 30 /\ sx_nearest_pow2 (4 * q) = 2 ^ k.
Proof.
  intros Hq.
  destruct (Z.eq_dec q 0) as [-> | Hq0]; [left; reflexivity|].
  right.
  rewrite sx_nearest_pow2_above_1 by (unfold INT_MAX; lia).
  set (L := Z.log2 (4 * q - 1)).
  assert (HL : 1 <= L < 31).
  { unfold L. split.
    - apply (Z.le_trans _ (Z.log2 3)); [cbn; lia | apply Z.log2_le_mono; lia].
    - apply Z.log2_lt_pow2; [lia|]. change (2 ^ 31) with 2147483648. lia. }
  destruct (Z.eq_dec L 30) as [-> | HL30].
  - left. reflexivity.
  - right. exists (L + 1). split; [lia|].
    apply wrap_id.
    assert (H2 : 0 < 2 ^ (L + 1) <= 2 ^ 30).
    { split; [apply Z.pow_pos_nonneg; lia | apply Z.pow_le_mono_r; lia]. }
    change (2 ^ 30) with 1073741824 in H2.
    unfold in_range, INT_MIN, INT_MAX. lia.
Qed.

Lemma pow2_multiple_of_4 k :
  2 <= k <= 30 -> exists q, 2 ^ k = 4 * q /\ 0 <= q <= 536870911.
Proof.
  intros Hk. exists (2 ^ (k - 2)). split.
  - replace k with (2 + (k - 2)) at 1 by lia.
    rewrite Z.pow_add_r by lia. reflexivity.
  - assert (H2 : 0 < 2 ^ (k - 2) <= 2 ^ 28).
    { split; [apply Z.pow_pos_nonneg; lia | apply Z.pow_le_mono_r; lia]. }
    change (2 ^ 28) with 268435456 in H2. lia.
Qed.

Lemma canvas_size_extents pot w h :
  canvas_size pot (w, h) = (canvas_extent pot w, canvas_extent pot h).
Proof. unfold canvas_size, canvas_extent. cbn. destruct (pot =? 0); reflexivity. Qed.

Lemma canvas_extent_idem pot x :
  0 <= x <= INT_MAX ->
  canvas_extent pot (canvas_extent pot x) = canvas_extent pot x.
Proof.
  intros Hx. unfold canvas_extent.
  destruct (pot =? 0); [apply sx_align_mask_3_idem|].
  destruct (sx_align_mask_3_nonneg x Hx) as [[q [-> Hq]] | ->].
  - destruct (sx_nearest_pow2_aligned q Hq) as [-> | [-> | [k [Hk ->]]]].
    + reflexivity.
    + reflexivity.
    + destruct (pow2_multiple_of_4 k Hk) as [q' [Hq' Hr]].
      rewrite Hq' at 1. rewrite sx_align_mask_3_fixed by lia.
      rewrite <- Hq'. apply sx_nearest_pow2_pow2. lia.
  - reflexivity.
Qed.

(** C8. Canvas sizing is idempotent: for every extent pair of non-negative
    [int] values and either setting of the pot flag, sizing the sized canvas
    again (align each extent to a multiple of four with [(x + 3) & ~3], then
    round each up to a power of two when pot is set) gives the same width
    and height as sizing once. *)
Theorem C8_canvas_size_idempotent (pot w h : Z) :
  0 <= w <= Int32.INT_MAX -> 0 <= h <= Int32.INT_MAX ->
  canvas_size pot (canvas_size pot (w, h)) = canvas_size pot (w, h).
Proof.
  intros Hw Hh.
  rewrite !canvas_size_extents.
  rewrite !canvas_extent_idem by assumption. reflexivity.
Qed.

Lemma C8_canvas_size_idempotent_witness :
  canvas_size 1 (canvas_size 1 (37, 2147483647)) = canvas_size 1 (37, 2147483647).
Proof.
  apply (C8_canvas_size_idempotent 1 37 2147483647);
    unfold Int32.INT_MAX; lia.
Defined.

End CanvasSizing.

(* ================================================================== *)
(** ** The line test always returns *)

Section Bresenham.

Variables (buffer : mask) (w h x1 y1 dx sx dy sy : Z).
Hypothesis Hdx : 0 <= dx.
Hypothesis Hdy : dy <= 0.
Hypothesis Hsx : sx = 1 \/ sx = -1.
Hypothesis Hsy : sy = 1 \/ sy = -1.

Local Abbreviation inv := (line_inv x1 y1 dx sx dy sy).

Lemma test_line_body_progress s rx ry :
  inv s rx ry ->
  (exists b, test_line_body buffer w h x1 y1 dx sx dy sy s = inl b)
  \/ (exists s' rx' ry',
         test_line_body buffer w h x1 y1 dx sx dy sy s = inr s'
         /\ inv s' rx' ry' /\ rx' + ry' < rx + ry).
Proof.
  intros (Hrx & Hry & Hx & Hy & He).
  unfold test_line_body.
  destruct ((ls_x0 s >? -1) && (ls_y0 s >? -1) && (ls_x0 s <? w)
            && (ls_y0 s <? h)
            && negb (byte_at buffer (ls_y0 s * w + ls_x0 s) =? 0));
    [left; eexists; reflexivity|].
  destruct ((ls_x0 s =? x1) && (ls_y0 s =? y1)) eqn:Hend;
    [left; eexists; reflexivity|].
  right.
  assert (Hgo : 1 <= rx + ry).
  { apply andb_false_iff in Hend.
    destruct Hend as [H | H]; apply Z.eqb_neq in H; nia. }
  destruct (2 * ls_err s >=? dy) eqn:Hcx;
    destruct (2 * ls_err s <=? dx) eqn:Hcy; cbn.
  - assert (1 <= rx) by nia. assert (1 <= ry) by nia.
    exists (mk_line_state (ls_x0 s + sx) (ls_y0 s + sy) (ls_err s + dy + dx)),
           (rx - 1), (ry - 1).
    split; [reflexivity|]. unfold line_inv; cbn. repeat split; nia.
  - assert (1 <= rx) by nia.
    exists (mk_line_state (ls_x0 s + sx) (ls_y0 s) (ls_err s + dy)), (rx - 1), ry.
    split; [reflexivity|]. unfold line_inv; cbn. repeat split; nia.
  - assert (1 <= ry) by nia.
    exists (mk_line_state (ls_x0 s) (ls_y0 s + sy) (ls_err s + dx)), rx, (ry - 1).
    split; [reflexivity|]. unfold line_inv; cbn. repeat split; nia.
  - exfalso. lia.
Qed.

Lemma test_line_loop_returns fuel s rx ry :
  inv s rx ry -> rx + ry < Z.of_nat fuel ->
  exists b, test_line_loop fuel buffer w h x1 y1 dx sx dy sy s = Some b.
Proof.
  revert s rx ry. induction fuel as [|fuel IH]; intros s rx ry Hinv Hfuel.
  - destruct Hinv as (Hrx & Hry & _). lia.
  - cbn [test_line_loop].
    destruct (test_line_body_progress s rx ry Hinv)
      as [[b ->] | (s' & rx' & ry' & -> & Hinv' & Hlt)].
    + exists b. reflexivity.
    + apply (IH s' rx' ry' Hinv'). lia.
Qed.

End Bresenham.

(** The [while (1)] loop of [atlasc__test_line] leaves within
    [test_line_fuel] turns, whatever the mask and the end points. *)
Lemma test_line_terminates buffer w h p0 p1 :
  exists b, atlasc__test_line_run buffer w h p0 p1 = Some b.
Proof.
  unfold atlasc__test_line_run.
  apply test_line_loop_returns
    with (rx := Z.abs (vx p1 - vx p0)) (ry := Z.abs (vy p1 - vy p0)).
  - lia.
  - lia.
  - destruct (vx p0 <? vx p1); auto.
  - destruct (vy p0 <? vy p1); auto.
  - unfold line_inv; cbn.
    destruct (Z.ltb_spec (vx p0) (vx p1)); destruct (Z.ltb_spec (vy p0) (vy p1));
      repeat split; lia.
  - unfold test_line_fuel. lia.
Qed.

Lemma test_line_run_eq buffer w h p0 p1 :
  atlasc__test_line_run buffer w h p0 p1
  = Some (atlasc__test_line buffer w h p0 p1).
Proof.
  unfold atlasc__test_line.
  destruct (test_line_terminates buffer w h p0 p1) as [b ->]. reflexivity.
Qed.

(* ================================================================== *)
(** ** The line test is the rasterised line of the spec *)

Section Rasterised.

Variables (buffer : mask) (w h x0 y0 a b sx sy : Z).
Hypothesis Ha : 0 <= a.
Hypothesis Hb : 0 <= b.
Hypothesis Hsx : sx = 1 \/ sx = -1.
Hypothesis Hsy : sy = 1 \/ sy = -1.

Local Abbreviation x1 := (x0 + sx * a).
Local Abbreviation y1 := (y0 + sy * b).
Local Abbreviation state := (walk_state x0 y0 a b sx sy).
Local Abbreviation body := (test_line_body buffer w h x1 y1 a sx (- b) sy).

Lemma body_opaque s :
  LineSpec.opaque_at buffer w h (state_pixel s) = true ->
  test_line_body buffer w h x1 y1 a sx (- b) sy s = inl true.
Proof.
  unfold LineSpec.opaque_at, test_line_body, state_pixel. cbn [vx vy].
  intros H.
  replace (ls_x0 s >? -1) with (0 <=? ls_x0 s)
    by (destruct (Z.leb_spec 0 (ls_x0 s)); destruct (Z.gtb_spec (ls_x0 s) (-1)); lia).
  replace (ls_y0 s >? -1) with (0 <=? ls_y0 s)
    by (destruct (Z.leb_spec 0 (ls_y0 s)); destruct (Z.gtb_spec (ls_y0 s) (-1)); lia).
  replace ((0 <=? ls_x0 s) && (0 <=? ls_y0 s) && (ls_x0 s <? w) && (ls_y0 s <? h))
    with ((0 <=? ls_x0 s) && (ls_x0 s <? w) && (0 <=? ls_y0 s) && (ls_y0 s <? h))
    by (destruct (0 <=? ls_x0 s), (ls_x0 s <? w), (0 <=? ls_y0 s), (ls_y0 s <? h); reflexivity).
  rewrite H. reflexivity.
Qed.

Lemma body_clear s :
  LineSpec.opaque_at buffer w h (state_pixel s) = false ->
  test_line_body buffer w h x1 y1 a sx (- b) sy s
  = if (ls_x0 s =? x1) && (ls_y0 s =? y1) then inl false
    else
      let e2 := 2 * ls_err s in
      let '(err, x) := if e2 >=? - b then (ls_err s - b, ls_x0 s + sx)
                       else (ls_err s, ls_x0 s) in
      let '(err, y) := if e2 <=? a then (err + a, ls_y0 s + sy)
                       else (err, ls_y0 s) in
      inr (mk_line_state x y err).
Proof.
  unfold LineSpec.opaque_at, test_line_body, state_pixel. cbn [vx vy].
  intros H.
  replace (ls_x0 s >? -1) with (0 <=? ls_x0 s)
    by (destruct (Z.leb_spec 0 (ls_x0 s)); destruct (Z.gtb_spec (ls_x0 s) (-1)); lia).
  replace (ls_y0 s >? -1) with (0 <=? ls_y0 s)
    by (destruct (Z.leb_spec 0 (ls_y0 s)); destruct (Z.gtb_spec (ls_y0 s) (-1)); lia).
  replace ((0 <=? ls_x0 s) && (0 <=? ls_y0 s) && (ls_x0 s <? w) && (ls_y0 s <? h))
    with ((0 <=? ls_x0 s) && (ls_x0 s <? w) && (0 <=? ls_y0 s) && (ls_y0 s <? h))
    by (destruct (0 <=? ls_x0 s), (ls_x0 s <? w), (0 <=? ls_y0 s), (ls_y0 s <? h); reflexivity).
  rewrite H. reflexivity.
Qed.

(** Rounding [(2 * m * (k + 1) + n) / (2 * n)] from its value at [k]. *)
Lemma half_up_next m n k :
  0 <= m <= n -> 0 < n -> 0 <= k ->
  let q := (2 * m * k + n) / (2 * n) in
  let r := (2 * m * k + n) mod (2 * n) in
  (2 * m * (k + 1) + n) / (2 * n) = (if 2 * n <=? r + 2 * m then q + 1 else q)
  /\ 2 * m * k + n = 2 * n * q + r /\ 0 <= r < 2 * n.
Proof.
  intros Hm Hn Hk q r.
  assert (Hdm : 2 * m * k + n = 2 * n * q + r) by (apply Z.div_mod; lia).
  assert (Hr : 0 <= r < 2 * n) by (apply Z.mod_pos_bound; lia).
  split; [|split; assumption].
  destruct (Z.leb_spec (2 * n) (r + 2 * m)).
  - symmetry. apply (Z.div_unique _ _ _ (r + 2 * m - 2 * n)); lia.
  - symmetry. apply (Z.div_unique _ _ _ (r + 2 * m)); lia.
Qed.

Lemma walk_turn k :
  0 <= k < Z.max a b ->
  LineSpec.opaque_at buffer w h (state_pixel (state k)) = false ->
  body (state k) = inr (state (k + 1)).
Proof.
  intros Hk Hclear. rewrite (body_clear _ Hclear).
  unfold walk_state, turns_x, turns_y. cbn [ls_x0 ls_y0 ls_err].
  destruct (Z.leb_spec b a) as [Hba | Hab].
  - (* the walk goes along x *)
    assert (Hapos : 0 < a) by lia.
    destruct (half_up_next b a k ltac:(lia) Hapos ltac:(lia)) as (Hnext & Hdm & Hr).
    cbv zeta in Hnext. rewrite Hnext.
    set (q := (2 * b * k + a) / (2 * a)) in *.
    set (r := (2 * b * k + a) mod (2 * a)) in *.
    assert (Hend : (x0 + sx * k =? x0 + sx * a) = false).
    { apply Z.eqb_neq. destruct Hsx as [-> | ->]; lia. }
    rewrite Hend. cbn [andb]. cbv zeta.
    assert (Hx : (2 * (a - b - k * b + q * a) >=? - b) = true).
    { apply Z.geb_le. lia. }
    rewrite Hx.
    destruct (Z.leb_spec (2 * a) (r + 2 * b)) as [Hup | Hstay].
    + assert (Hy : (2 * (a - b - k * b + q * a) <=? a) = true)
        by (apply Z.leb_le; lia).
      rewrite Hy. f_equal. f_equal; lia.
    + assert (Hy : (2 * (a - b - k * b + q * a) <=? a) = false)
        by (apply Z.leb_gt; lia).
      rewrite Hy. f_equal. f_equal; lia.
  - (* the walk goes along y *)
    assert (Hbpos : 0 < b) by lia.
    destruct (half_up_next a b k ltac:(lia) Hbpos ltac:(lia)) as (Hnext & Hdm & Hr).
    cbv zeta in Hnext. rewrite Hnext.
    set (q := (2 * a * k + b) / (2 * b)) in *.
    set (r := (2 * a * k + b) mod (2 * b)) in *.
    assert (Hend : (y0 + sy * k =? y0 + sy * b) = false).
    { apply Z.eqb_neq. destruct Hsy as [-> | ->]; lia. }
    rewrite Hend, andb_false_r. cbv zeta.
    assert (Hy : forall e, e = a - b - q * b + k * a -> (2 * e <=? a) = true).
    { intros e ->. apply Z.leb_le. lia. }
    destruct (Z.leb_spec (2 * b) (r + 2 * a)) as [Hup | Hstay].
    + assert (Hx : (2 * (a - b - q * b + k * a) >=? - b) = true)
        by (apply Z.geb_le; lia).
      rewrite Hx.
      assert (Hy' : (2 * (a - b - q * b + k * a) <=? a) = true)
        by (apply Z.leb_le; lia).
      rewrite Hy'. f_equal. f_equal; lia.
    + assert (Hx : (2 * (a - b - q * b + k * a) >=? - b) = false).
      { destruct (Z.geb_spec (2 * (a - b - q * b + k * a)) (- b)); [lia | reflexivity]. }
      rewrite Hx.
      assert (Hy' : (2 * (a - b - q * b + k * a) <=? a) = true)
        by (apply Z.leb_le; lia).
      rewrite Hy'. f_equal. f_equal; lia.
Qed.

Lemma walk_end :
  LineSpec.opaque_at buffer w h (state_pixel (state (Z.max a b))) = false ->
  body (state (Z.max a b)) = inl false.
Proof.
  intros Hclear. rewrite (body_clear _ Hclear).
  unfold walk_state, turns_x, turns_y. cbn [ls_x0 ls_y0 ls_err].
  assert (Hends : (if b <=? a then Z.max a b else (2 * a * Z.max a b + b) / (2 * b)) = a
                  /\ (if b <=? a then (2 * b * Z.max a b + a) / (2 * a) else Z.max a b) = b).
  { destruct (Z.leb_spec b a) as [Hba | Hab].
    - rewrite Z.max_l by lia. split; [reflexivity|].
      destruct (Z.eq_dec a 0) as [H0 | H0].
      + assert (b = 0) by lia. subst. reflexivity.
      + symmetry. apply (Z.div_unique _ _ _ a); lia.
    - rewrite Z.max_r by lia. split; [|reflexivity].
      symmetry. apply (Z.div_unique _ _ _ b); lia. }
  destruct Hends as [-> ->]. rewrite !Z.eqb_refl. reflexivity.
Qed.

Lemma walk_loop n : forall k fuel,
  (k + n = Z.to_nat (Z.max a b))%nat -> (n < fuel)%nat ->
  test_line_loop fuel buffer w h x1 y1 a sx (- b) sy (state (Z.of_nat k))
  = Some (existsb (fun j => LineSpec.opaque_at buffer w h
                              (state_pixel (state (Z.of_nat j))))
                  (seq k (S n))).
Proof.
  induction n as [|n IH]; intros k fuel Hn Hfuel;
    (destruct fuel as [|fuel]; [lia|]); cbn [test_line_loop seq existsb].
  - rewrite orb_false_r.
    destruct (LineSpec.opaque_at buffer w h (state_pixel (state (Z.of_nat k))))
      eqn:Hop.
    + rewrite (body_opaque _ Hop). reflexivity.
    + replace (Z.of_nat k) with (Z.max a b) in * by lia.
      rewrite (walk_end Hop). reflexivity.
  - destruct (LineSpec.opaque_at buffer w h (state_pixel (state (Z.of_nat k))))
      eqn:Hop.
    + rewrite (body_opaque _ Hop). reflexivity.
    + rewrite (walk_turn (Z.of_nat k) ltac:(lia) Hop). cbn [orb].
      replace (Z.of_nat k + 1) with (Z.of_nat (S k)) by lia.
      apply IH; lia.
Qed.

End Rasterised.

Lemma walk_pixel x0 y0 x1 y1 k :
  0 <= k <= Z.max (Z.abs (x1 - x0)) (Z.abs (y1 - y0)) ->
  state_pixel (walk_state x0 y0 (Z.abs (x1 - x0)) (Z.abs (y1 - y0))
                          (if x0 <? x1 then 1 else -1)
                          (if y0 <? y1 then 1 else -1) k)
  = LineSpec.pixel (sx_ivec2i x0 y0) (sx_ivec2i x1 y1) k.
Proof.
  intros Hk. unfold LineSpec.pixel, walk_state, state_pixel, turns_x, turns_y.
  cbn [vx vy ls_x0 ls_y0].
  set (a := Z.abs (x1 - x0)) in *. set (b := Z.abs (y1 - y0)) in *.
  assert (Hx : forall t, (a = 0 -> t = 0) ->
                 (if x0 <? x1 then 1 else -1) * t = Z.sgn (x1 - x0) * t).
  { intros t Ht. destruct (Z.ltb_spec x0 x1).
    - rewrite Z.sgn_pos by lia. reflexivity.
    - destruct (Z.eq_dec x0 x1) as [-> | Hne].
      + rewrite Ht by (subst a; lia). lia.
      + rewrite Z.sgn_neg by lia. reflexivity. }
  assert (Hy : forall t, (b = 0 -> t = 0) ->
                 (if y0 <? y1 then 1 else -1) * t = Z.sgn (y1 - y0) * t).
  { intros t Ht. destruct (Z.ltb_spec y0 y1).
    - rewrite Z.sgn_pos by lia. reflexivity.
    - destruct (Z.eq_dec y0 y1) as [-> | Hne].
      + rewrite Ht by (subst b; lia). lia.
      + rewrite Z.sgn_neg by lia. reflexivity. }
  destruct (Z.leb_spec b a) as [Hba | Hab].
  - rewrite Hx, Hy; [reflexivity | | ].
    + intros ->. rewrite Z.mul_0_r, Z.mul_0_l, Z.add_0_l.
      destruct (Z.eq_dec a 0) as [-> | Ha]; [reflexivity|].
      apply Z.div_small. lia.
    + intros Ha0. lia.
  - rewrite Hx, Hy; [reflexivity | | ].
    + intros Hb0. lia.
    + intros ->. rewrite Z.mul_0_r, Z.mul_0_l, Z.add_0_l.
      apply Z.div_small. lia.
Qed.

(** The line test of the code is the test of the rasterised line of the
    spec. *)
Lemma test_line_rasterised buffer w h p0 p1 :
  atlasc__test_line buffer w h p0 p1 = LineSpec.touches buffer w h p0 p1.
Proof.
  destruct p0 as [x0 y0], p1 as [x1 y1].
  unfold atlasc__test_line, atlasc__test_line_run, LineSpec.touches,
    LineSpec.rasterised, LineSpec.steps, test_line_fuel.
  cbn [vx vy].
  set (a := Z.abs (x1 - x0)). set (b := Z.abs (y1 - y0)).
  set (sx := if x0 <? x1 then 1 else -1). set (sy := if y0 <? y1 then 1 else -1).
  assert (Ha : 0 <= a) by (subst a; lia).
  assert (Hb : 0 <= b) by (subst b; lia).
  assert (Hsx : sx = 1 \/ sx = -1) by (subst sx; destruct (x0 <? x1); auto).
  assert (Hsy : sy = 1 \/ sy = -1) by (subst sy; destruct (y0 <? y1); auto).
  assert (Hx1 : x1 = x0 + sx * a)
    by (subst sx a; destruct (Z.ltb_spec x0 x1); lia).
  assert (Hy1 : y1 = y0 + sy * b)
    by (subst sy b; destruct (Z.ltb_spec y0 y1); lia).
  assert (Hstart : mk_line_state x0 y0 (a + - b) = walk_state x0 y0 a b sx sy 0).
  { unfold walk_state, turns_x, turns_y.
    destruct (Z.leb_spec b a).
    - replace (2 * b * 0 + a) with a by lia.
      assert (Hq : a / (2 * a) = 0).
      { destruct (Z.eq_dec a 0) as [-> | Hne]; [reflexivity | apply Z.div_small; lia]. }
      rewrite Hq. f_equal; lia.
    - replace (2 * a * 0 + b) with b by lia.
      assert (Hq : b / (2 * b) = 0) by (apply Z.div_small; lia).
      rewrite Hq. f_equal; lia. }
  rewrite Hstart. rewrite Hx1 at 1. rewrite Hy1 at 1.
  rewrite (walk_loop buffer w h x0 y0 a b sx sy Ha Hb Hsx Hsy
             (Z.to_nat (Z.max a b)) O); [| lia | lia].
  f_equal.
  assert (Hall : forall l,
    Forall (fun j => (j <= Z.to_nat (Z.max a b))%nat) l ->
    existsb (fun j => LineSpec.opaque_at buffer w h
                        (state_pixel (walk_state x0 y0 a b sx sy (Z.of_nat j)))) l
    = existsb (LineSpec.opaque_at buffer w h)
        (map (fun k => LineSpec.pixel (sx_ivec2i x0 y0) (sx_ivec2i x1 y1) (Z.of_nat k)) l)).
  { induction l as [|j l IH]; intros Hl; [reflexivity|].
    apply Forall_cons_iff in Hl. destruct Hl as [Hj Hrest]. cbn [map existsb].
    rewrite (IH Hrest). f_equal. f_equal.
    pose proof (walk_pixel x0 y0 x1 y1 (Z.of_nat j)) as Hp.
    fold a b sx sy in Hp. apply Hp. lia. }
  apply Hall. apply Forall_forall. intros j Hj. apply in_seq in Hj. lia.
Qed.

(* ================================================================== *)
(** ** The offset step *)

Section OffsetStep.
Import OffsetSpec.

Lemma F32_sub_zero z : F32.sub z F32.zero = z.
Proof. destruct z as [[|] | [|] | | s m e]; reflexivity. Qed.

Lemma F32_gt_not_lt z : F32.ltb F32.zero z = true -> F32.ltb z F32.zero = false.
Proof. destruct z as [[|] | [|] | | [|] m e]; cbn; congruence. Qed.

Lemma trunc_neg_le m e : - Z.shiftl (Zpos m) e <= 0.
Proof.
  assert (0 <= Z.shiftl (Zpos m) e) by (apply Z.shiftl_nonneg; lia). lia.
Qed.

Lemma floor_neg_le m e : Z.shiftl (Zneg m) e <= 0.
Proof.
  destruct (Z_le_dec (Z.shiftl (Zneg m) e) 0) as [H | H]; [exact H|].
  assert (H0 : 0 <= Z.shiftl (Zneg m) e) by lia.
  apply Z.shiftl_nonneg in H0. lia.
Qed.

Lemma int_or_indefinite_nonpos v :
  v <= 0 -> F32.int_or_indefinite (Some v) <= 0.
Proof.
  intros Hv. unfold F32.int_or_indefinite.
  destruct ((Int32.INT_MIN <=? v) && (v <=? Int32.INT_MAX));
    [exact Hv | unfold Int32.INT_MIN; lia].
Qed.

Lemma sx_clamp_nonpos v hi : v <= 0 -> sx_clamp v 0 hi = 0.
Proof. unfold sx_clamp. lia. Qed.

(** After the clamp to a grid that starts at 0, the truncation of the C
    conversion and the rounding down of the spec agree. *)
Lemma clamp_to_int_floor f hi :
  sx_clamp (F32.to_int f) 0 hi = sx_clamp (F32.floor_to_int f) 0 hi.
Proof.
  unfold F32.to_int, F32.floor_to_int.
  destruct f as [s | s | | [|] m e]; try reflexivity.
  cbn [F32.trunc F32.floor].
  rewrite !sx_clamp_nonpos; [reflexivity | |];
    apply int_or_indefinite_nonpos; [apply floor_neg_le | apply trunc_neg_le].
Qed.

Lemma prev_vertex_eq pts idx :
  (idx < length pts)%nat ->
  prev_vertex pts idx
  = if (0 <? idx)%nat then pt_at pts (idx - 1) else pt_at pts (length pts - 1).
Proof.
  intros Hidx. unfold prev_vertex.
  destruct (Nat.ltb_spec 0 idx) as [Hpos | Hzero].
  - f_equal.
    replace (idx + length pts - 1)%nat with ((idx - 1) + 1 * length pts)%nat by lia.
    rewrite Nat.Div0.mod_add. apply Nat.mod_small. lia.
  - f_equal. replace idx with O by lia. cbn [Nat.add].
    apply Nat.mod_small. lia.
Qed.

Lemma next_vertex_eq pts idx :
  (idx < length pts)%nat ->
  next_vertex pts idx
  = if (idx + 1 <? length pts)%nat then pt_at pts (idx + 1) else pt_at pts 0.
Proof.
  intros Hidx. unfold next_vertex.
  destruct (Nat.ltb_spec (idx + 1) (length pts)) as [Hin | Hwrap].
  - f_equal. apply Nat.mod_small. lia.
  - f_equal. replace (idx + 1)%nat with (length pts) by lia.
    apply Nat.Div0.mod_same.
Qed.



End OffsetStep.

(* ================================================================== *)
(** ** The correction loop of one edge *)

Section FixEdge.

Variables (thresholded : mask) (tw th : Z) (num_pts i next_i : nat).

(** One turn of the [while] loop that moves both end points. *)
Lemma fix_edge_loop_turn fuel pts pts1 pts2 moved :
  atlasc__test_line thresholded tw th (pt_at pts i) (pt_at pts next_i) = true ->
  atlasc__offset_pt pts num_pts i offset_amount tw th = (true, pts1) ->
  atlasc__offset_pt pts1 num_pts next_i offset_amount tw th = (moved, pts2) ->
  fix_edge_loop (S fuel) thresholded tw th pts num_pts i next_i
  = fix_edge_loop fuel thresholded tw th pts2 num_pts i next_i.
Proof.
  intros Hhit Hfirst Hsecond. cbn [fix_edge_loop].
  rewrite Hhit, Hfirst, Hsecond. reflexivity.
Qed.

End FixEdge.

Lemma stuck_turn_a fuel :
  fix_edge_loop (S fuel) Stuck.thresholded 5 4 Stuck.pts_a 4 0 1
  = fix_edge_loop fuel Stuck.thresholded 5 4 Stuck.pts_b 4 0 1.
Proof.
  apply fix_edge_loop_turn with (pts1 := Stuck.pts_b) (moved := false);
    vm_compute; reflexivity.
Qed.

Lemma stuck_turn_b fuel :
  fix_edge_loop (S fuel) Stuck.thresholded 5 4 Stuck.pts_b 4 0 1
  = fix_edge_loop fuel Stuck.thresholded 5 4 Stuck.pts_a 4 0 1.
Proof.
  apply fix_edge_loop_turn with (pts1 := Stuck.pts_a) (moved := false);
    vm_compute; reflexivity.
Qed.

Lemma stuck_turn_0 fuel :
  fix_edge_loop (S fuel) Stuck.thresholded 5 4 Stuck.pts 4 0 1
  = fix_edge_loop fuel Stuck.thresholded 5 4 Stuck.pts_a 4 0 1.
Proof.
  apply fix_edge_loop_turn
    with (pts1 := [sx_ivec2i 1 0; sx_ivec2i 4 3; sx_ivec2i 2 3; sx_ivec2i 2 1])
         (moved := true);
    vm_compute; reflexivity.
Qed.

Lemma stuck_cycle fuel :
  fix_edge_loop fuel Stuck.thresholded 5 4 Stuck.pts_a 4 0 1 = None
  /\ fix_edge_loop fuel Stuck.thresholded 5 4 Stuck.pts_b 4 0 1 = None.
Proof.
  induction fuel as [|fuel [IHa IHb]]; [split; reflexivity|].
  rewrite stuck_turn_a, stuck_turn_b. split; assumption.
Qed.

(** C10, at the failing input.  On the mask [Stuck.thresholded] and the
    polygon [Stuck.pts] the inner loop of the first edge never leaves: every
    turn finds an opaque pixel on the line and moves [pts[0]], which goes
    from (1,0) to (0,0) and back for ever.  No amount of fuel lets
    [atlasc__fix_outline_pts] return. *)
Theorem C10_fix_outline_pts_never_returns :
  forall fuel,
    atlasc__fix_outline_pts fuel Stuck.thresholded 5 4 Stuck.pts 4 = None.
Proof.
  intros fuel. unfold atlasc__fix_outline_pts. cbn [fix_edges_from].
  change (next_index 0 4) with 1%nat.
  destruct fuel as [|fuel]; [reflexivity|].
  rewrite stuck_turn_0. destruct (stuck_cycle fuel) as [-> _]. reflexivity.
Qed.

(* ================================================================== *)
(** ** The structure of a build *)

Section Build.
Import Int32Facts.

Variable E : externals.
Variable fuel : nat.
Variable args : atlasc_args.

(** A request for [count] records of [sz] bytes fails exactly when the
    [int] count is negative. *)
Lemma sx_malloc_count count sz :
  Int32.in_range count -> 0 < sz <= 2147483648 ->
  sx_malloc (size_t (size_t count * sz)) = (0 <=? count).
Proof.
  unfold Int32.in_range, Int32.INT_MIN, Int32.INT_MAX, sx_malloc, size_t,
    PTRDIFF_MAX.
  intros Hc Hsz.
  destruct (Z.leb_spec 0 count) as [Hpos | Hneg].
  - rewrite (Z.mod_small count) by lia.
    assert (0 <= count * sz <= 2147483647 * 2147483648).
    { split; [apply Z.mul_nonneg_nonneg; lia|].
      apply Z.mul_le_mono_nonneg; lia. }
    rewrite Z.mod_small by lia. apply Z.leb_le. lia.
  - assert (Hm : count mod 18446744073709551616 = count + 18446744073709551616).
    { symmetry. apply (Z.mod_unique _ _ (-1)); lia. }
    rewrite Hm.
    assert (Hp : -2147483648 * 2147483648 <= count * sz < 0).
    { split.
      - replace (-2147483648 * 2147483648) with (- (2147483648 * 2147483648)) by lia.
        replace (count * sz) with (- ((- count) * sz)) by lia.
        apply -> Z.opp_le_mono. apply Z.mul_le_mono_nonneg; lia.
      - apply Z.mul_neg_pos; lia. }
    assert (Hq : ((count + 18446744073709551616) * sz) mod 18446744073709551616
                 = count * sz + 18446744073709551616).
    { symmetry. apply (Z.mod_unique _ _ (sz - 1)); lia. }
    rewrite Hq. apply Z.leb_gt. lia.
Qed.

Lemma sx_malloc_int size :
  Int32.in_range size -> sx_malloc (size_t size) = (0 <=? size).
Proof.
  intros H. rewrite <- (sx_malloc_count size 1 H ltac:(lia)).
  unfold size_t. rewrite Z.mul_1_r, Z.mod_mod by lia. reflexivity.
Qed.

Lemma rp_nodes_request :
  sx_malloc (size_t (size_t (Int32.add (max_width args) (max_height args))
                     * sizeof_stbrp_node))
  = (0 <=? Int32.add (max_width args) (max_height args)).
Proof.
  apply sx_malloc_count; [apply wrap_range | unfold sizeof_stbrp_node; lia].
Qed.

Lemma size_t_zero size :
  Int32.in_range size -> (size_t size =? 0) = (size =? 0).
Proof.
  unfold Int32.in_range, Int32.INT_MIN, Int32.INT_MAX, size_t. intros H.
  destruct (Z.eqb_spec size 0) as [-> | Hne]; [reflexivity|].
  apply Z.eqb_neq.
  destruct (Z_le_dec 0 size).
  - rewrite Z.mod_small by lia. exact Hne.
  - assert (Hm : size mod 18446744073709551616 = size + 18446744073709551616).
    { symmetry. apply (Z.mod_unique _ _ (-1)); lia. }
    lia.
Qed.

(** A build that gets past the loading loop, whose packer nodes can be
    allocated and whose sheet image is made, returns what [atlasc__save]
    returns, on the sprites placed and given their UVs. *)
Lemma atlasc_make_built loaded dst :
  load_sprites E fuel args (in_filepaths args) = Some (inr loaded) ->
  0 <= Int32.add (max_width args) (max_height args) ->
  sheet_of E args loaded = Some dst ->
  atlasc_make E fuel args = Some (built E args loaded dst).
Proof.
  intros Hload Hnodes. unfold atlasc_make. rewrite Hload, rp_nodes_request.
  apply Z.leb_le in Hnodes. rewrite Hnodes. cbn [negb].
  unfold sheet_of, built, sheet_size, final_sprites, placed_sprites, pack_ok.
  destruct (stbrp_pack_rects E (max_width args) (max_height args)
                             (map (rp_rect_size args) loaded)) as [packed placed].
  cbn [fst].
  assert (Hgo : forall final_rect sprs,
    (let '(dst_w, dst_h) :=
       canvas_size (pot args)
         (Int32.sub (xmax final_rect) (xmin final_rect),
          Int32.sub (ymax final_rect) (ymin final_rect)) in
     if 0 <=? Int32.mul (Int32.mul dst_w dst_h) 4
     then sheet_pixels args
            (if mesh args =? 0 then sprs else map (sprite_uvs args) sprs)
            dst_w dst_h
     else None) = Some dst ->
    (let '(dst_w, dst_h) :=
       canvas_size (pot args)
         (Int32.sub (xmax final_rect) (xmin final_rect),
          Int32.sub (ymax final_rect) (ymin final_rect)) in
     let size := size_t (Int32.mul (Int32.mul dst_w dst_h) 4) in
     if negb (sx_malloc size)
     then if size =? 0 then Some (failed EmptyString) else None
     else
       match sheet_pixels args
               (if mesh args =? 0 then sprs else map (sprite_uvs args) sprs)
               dst_w dst_h with
       | Some dst0 =>
           Some (mk_make_outcome
                   (sv_result (atlasc__save E args
                      (if mesh args =? 0 then sprs else map (sprite_uvs args) sprs)
                      dst0 dst_w dst_h))
                   EmptyString packed
                   (if mesh args =? 0 then sprs else map (sprite_uvs args) sprs)
                   dst_w dst_h
                   (sv_files (atlasc__save E args
                      (if mesh args =? 0 then sprs else map (sprite_uvs args) sprs)
                      dst0 dst_w dst_h))
                   (sv_printed (atlasc__save E args
                      (if mesh args =? 0 then sprs else map (sprite_uvs args) sprs)
                      dst0 dst_w dst_h)))
       | None => None
       end)
    = Some (let '(dst_w, dst_h) :=
              canvas_size (pot args)
                (Int32.sub (xmax final_rect) (xmin final_rect),
                 Int32.sub (ymax final_rect) (ymin final_rect)) in
            mk_make_outcome
              (sv_result (atlasc__save E args
                 (if mesh args =? 0 then sprs else map (sprite_uvs args) sprs)
                 dst dst_w dst_h))
              EmptyString packed
              (if mesh args =? 0 then sprs else map (sprite_uvs args) sprs)
              dst_w dst_h
              (sv_files (atlasc__save E args
                 (if mesh args =? 0 then sprs else map (sprite_uvs args) sprs)
                 dst dst_w dst_h))
              (sv_printed (atlasc__save E args
                 (if mesh args =? 0 then sprs else map (sprite_uvs args) sprs)
                 dst dst_w dst_h)))).
  { intros final_rect sprs.
    destruct (canvas_size (pot args) _) as [dst_w dst_h].
    cbv zeta. rewrite sx_malloc_int by apply wrap_range.
    destruct (0 <=? Int32.mul (Int32.mul dst_w dst_h) 4); [|discriminate].
    cbn [negb]. intros ->. reflexivity. }
  destruct packed.
  - destruct (place_sprites args loaded placed empty_rect) as [final_rect sprs].
    cbn [fst snd]. apply Hgo.
  - apply Hgo.
Qed.

(** What a build that returns has gone through. *)
(** A build that gets past the loading loop and the request for the packer
    nodes returns only once its sheet image is made. *)
Lemma atlasc_make_sheet loaded out :
  load_sprites E fuel args (in_filepaths args) = Some (inr loaded) ->
  0 <= Int32.add (max_width args) (max_height args) ->
  atlasc_make E fuel args = Some out ->
  exists dst, sheet_of E args loaded = Some dst /\ out = built E args loaded dst.
Proof.
  intros Hload Hnodes Hmake.
  destruct (sheet_of E args loaded) as [dst|] eqn:Hsheet.
  - exists dst.
    rewrite (atlasc_make_built loaded dst Hload Hnodes Hsheet) in Hmake.
    injection Hmake as <-. split; reflexivity.
  - exfalso. revert Hmake Hsheet.
    unfold atlasc_make. rewrite Hload, rp_nodes_request.
    apply Z.leb_le in Hnodes. rewrite Hnodes. cbn [negb].
    unfold sheet_of, sheet_size, final_sprites, placed_sprites.
    destruct (stbrp_pack_rects E (max_width args) (max_height args)
                (map (rp_rect_size args) loaded)) as [packed placed].
    assert (Hgo : forall final_rect sprs,
      (let '(dst_w, dst_h) :=
         canvas_size (pot args)
           (Int32.sub (xmax final_rect) (xmin final_rect),
            Int32.sub (ymax final_rect) (ymin final_rect)) in
       let size := size_t (Int32.mul (Int32.mul dst_w dst_h) 4) in
       if negb (sx_malloc size)
       then if size =? 0 then Some (failed EmptyString) else None
       else
         match sheet_pixels args
                 (if mesh args =? 0 then sprs else map (sprite_uvs args) sprs)
                 dst_w dst_h with
         | Some dst0 =>
             Some (mk_make_outcome
                     (sv_result (atlasc__save E args
                        (if mesh args =? 0 then sprs
                         else map (sprite_uvs args) sprs) dst0 dst_w dst_h))
                     EmptyString packed
                     (if mesh args =? 0 then sprs
                      else map (sprite_uvs args) sprs)
                     dst_w dst_h
                     (sv_files (atlasc__save E args
                        (if mesh args =? 0 then sprs
                         else map (sprite_uvs args) sprs) dst0 dst_w dst_h))
                     (sv_printed (atlasc__save E args
                        (if mesh args =? 0 then sprs
                         else map (sprite_uvs args) sprs) dst0 dst_w dst_h)))
         | None => None
         end) = Some out ->
      (let '(dst_w, dst_h) :=
         canvas_size (pot args)
           (Int32.sub (xmax final_rect) (xmin final_rect),
            Int32.sub (ymax final_rect) (ymin final_rect)) in
       if 0 <=? Int32.mul (Int32.mul dst_w dst_h) 4
       then sheet_pixels args
              (if mesh args =? 0 then sprs else map (sprite_uvs args) sprs)
              dst_w dst_h
       else None) = None -> False).
    { intros final_rect sprs.
      destruct (canvas_size (pot args) _) as [dst_w dst_h].
      cbv zeta. rewrite sx_malloc_int, size_t_zero by apply wrap_range.
      destruct (Z.leb_spec 0 (Int32.mul (Int32.mul dst_w dst_h) 4)) as [Hs | Hs];
        cbn [negb].
      - intros H1 H2. rewrite H2 in H1. discriminate.
      - destruct (Z.eqb_spec (Int32.mul (Int32.mul dst_w dst_h) 4) 0);
          [lia | discriminate]. }
    destruct packed.
    + destruct (place_sprites args loaded placed empty_rect)
         as [final_rect sprs]. cbn [fst snd]. apply Hgo.
    + apply Hgo.
Qed.

(** A request for the packer nodes that fails ends the build, with nothing
    in the error string. *)
Lemma atlasc_make_no_nodes loaded :
  load_sprites E fuel args (in_filepaths args) = Some (inr loaded) ->
  Int32.add (max_width args) (max_height args) < 0 ->
  atlasc_make E fuel args = Some (failed EmptyString).
Proof.
  intros Hload Hnodes. unfold atlasc_make.
  rewrite Hload, rp_nodes_request.
  assert (Hno : (0 <=? Int32.add (max_width args) (max_height args)) = false)
    by (apply Z.leb_gt; lia).
  rewrite Hno. reflexivity.
Qed.

Lemma atlasc_make_cases out :
  atlasc_make E fuel args = Some out ->
  (exists msg, out = failed msg)
  \/ (exists loaded dst,
         load_sprites E fuel args (in_filepaths args) = Some (inr loaded)
         /\ 0 <= Int32.add (max_width args) (max_height args)
         /\ sheet_of E args loaded = Some dst
         /\ out = built E args loaded dst).
Proof.
  intros Hmake.
  destruct (load_sprites E fuel args (in_filepaths args))
    as [[msg | loaded]|] eqn:Hload.
  - left. exists msg. unfold atlasc_make in Hmake. rewrite Hload in Hmake.
    congruence.
  - destruct (Z_le_dec 0 (Int32.add (max_width args) (max_height args)))
      as [Hnodes | Hnodes].
    + destruct (atlasc_make_sheet loaded out Hload Hnodes Hmake)
        as (dst & Hsheet & ->).
      right. exists loaded, dst. repeat split; auto.
    + left. exists EmptyString.
      rewrite (atlasc_make_no_nodes loaded Hload ltac:(lia)) in Hmake.
      congruence.
  - unfold atlasc_make in Hmake. rewrite Hload in Hmake. discriminate.
Qed.

(** The members of the outcome of a build that made its sheet. *)
Lemma built_members loaded dst :
  mk_packed (built E args loaded dst) = pack_ok E args loaded
  /\ mk_error_str (built E args loaded dst) = EmptyString
  /\ mk_sprites (built E args loaded dst) = final_sprites E args loaded
  /\ (mk_dst_w (built E args loaded dst), mk_dst_h (built E args loaded dst))
     = sheet_size E args loaded
  /\ mk_result (built E args loaded dst)
     = sv_result (atlasc__save E args (final_sprites E args loaded) dst
                               (fst (sheet_size E args loaded))
                               (snd (sheet_size E args loaded)))
  /\ mk_files (built E args loaded dst)
     = sv_files (atlasc__save E args (final_sprites E args loaded) dst
                              (fst (sheet_size E args loaded))
                              (snd (sheet_size E args loaded)))
  /\ mk_printed (built E args loaded dst)
     = sv_printed (atlasc__save E args (final_sprites E args loaded) dst
                                (fst (sheet_size E args loaded))
                                (snd (sheet_size E args loaded))).
Proof.
  unfold built. destruct (sheet_size E args loaded) as [dst_w dst_h].
  cbn. repeat split.
Qed.

(** After a pack failure the sheet is 4 x 4 and the sprites are as loaded. *)
Lemma unpacked_build loaded :
  pack_ok E args loaded = false ->
  sheet_size E args loaded = (4, 4)
  /\ placed_sprites E args loaded = loaded.
Proof.
  unfold pack_ok, sheet_size, placed_sprites.
  destruct (stbrp_pack_rects E (max_width args) (max_height args)
                             (map (rp_rect_size args) loaded)) as [packed placed].
  cbn [fst]. intros ->. split; [|reflexivity].
  unfold canvas_size. destruct (pot args =? 0); reflexivity.
Qed.

Lemma failed_members msg :
  mk_result (failed msg) = false /\ mk_sprites (failed msg) = []
  /\ mk_dst_w (failed msg) = 0 /\ mk_dst_h (failed msg) = 0
  /\ mk_files (failed msg) = [] /\ mk_printed (failed msg) = [].
Proof. repeat split. Qed.

(** *** Rectangles *)

Lemma place_sprites_fits sprs : forall placed final_rect,
  Forall (sheet_fits args) (snd (place_sprites args sprs placed final_rect)).
Proof.
  induction sprs as [|spr rest IH]; intros placed final_rect; cbn [place_sprites].
  - constructor.
  - destruct (hd (0, 0) placed) as [x y].
    unfold rp_rect_size at 1.
    specialize (IH (tl placed)
      (sx_irect_add_point
         (sx_irect_add_point final_rect
            (vmin (sx_irectwh x y
               (Int32.add (Int32.sub (xmax (sprite_rect spr)) (xmin (sprite_rect spr)))
                          (Int32.mul (Int32.add (border args) (padding args)) 2))
               (Int32.add (Int32.sub (ymax (sprite_rect spr)) (ymin (sprite_rect spr)))
                          (Int32.mul (Int32.add (border args) (padding args)) 2)))))
         (vmax (sx_irectwh x y
               (Int32.add (Int32.sub (xmax (sprite_rect spr)) (xmin (sprite_rect spr)))
                          (Int32.mul (Int32.add (border args) (padding args)) 2))
               (Int32.add (Int32.sub (ymax (sprite_rect spr)) (ymin (sprite_rect spr)))
                          (Int32.mul (Int32.add (border args) (padding args)) 2)))))).
    destruct (place_sprites args rest (tl placed) _) as [fr rest'].
    cbn [snd] in *. constructor; [|exact IH].
    unfold sheet_fits, rect_width, rect_height, set_sheet_rect,
      sx_irect_expand, sx_irectwh.
    cbn [sheet_rect sprite_rect xmin xmax ymin ymax vx vy].
    split; int32_ring.
Qed.

Lemma sprite_uvs_rects spr :
  sprite_rect (sprite_uvs args spr) = sprite_rect spr
  /\ sheet_rect (sprite_uvs args spr) = sheet_rect spr
  /\ pts (sprite_uvs args spr) = pts spr
  /\ num_points (sprite_uvs args spr) = num_points spr
  /\ num_tris (sprite_uvs args spr) = num_tris spr
  /\ src_size (sprite_uvs args spr) = src_size spr.
Proof.
  unfold sprite_uvs. destruct (pts spr) as [p|] eqn:Hp.
  - destruct (num_points spr =? 0); cbn; rewrite ?Hp; repeat split.
  - rewrite Hp. repeat split.
Qed.

Lemma sheet_fits_uvs spr : sheet_fits args spr -> sheet_fits args (sprite_uvs args spr).
Proof.
  unfold sheet_fits.
  destruct (sprite_uvs_rects spr) as (-> & -> & _). tauto.
Qed.

End Build.




(* ================================================================== *)
(** ** What the loading loop establishes *)

Section Loading.

Variable E : externals.
Variable fuel : nat.
Variable args : atlasc_args.

Lemma simplify_loop_result n : forall pts max_verts threshold r threshold',
  simplify_loop E n pts max_verts threshold = Some (r, threshold') ->
  exists t, r = s2o_distance_based_path_simplification E pts t.
Proof.
  induction n as [|n IH]; intros pts max_verts threshold r threshold';
    cbn [simplify_loop]; [discriminate|].
  destruct (_ >? max_verts).
  - apply IH.
  - intros H. injection H as <- _. eexists. reflexivity.
Qed.

(** The body of the loading loop without the mesh: no mesh arrays. *)
Lemma load_sprite_plain path spr :
  mesh args = 0 ->
  load_sprite E fuel args path = Some (inr spr) ->
  pts spr = None /\ uvs spr = None /\ num_tris spr = 0.
Proof.
  intros Hmesh. unfold load_sprite.
  destruct (negb (sx_os_path_isfile E path)); [discriminate|].
  destruct (stbi_load E path) as [pixels|]; [|discriminate].
  rewrite Hmesh. cbn. intros H. injection H as <-. cbn. repeat split.
Qed.

(** The body of the loading loop with the mesh: the outline comes from the
    dilated mask, the corrector runs on the thresholded mask, and the mesh
    points are those of the triangulation of the corrected polygon. *)
Lemma load_sprite_meshed path spr :
  mesh args <> 0 ->
  load_sprite E fuel args path = Some (inr spr) ->
  exists pixels simplified threshold corrected,
    stbi_load E path = Some pixels
    /\ simplify_loop E fuel (outline_of E args pixels)
                     (max_verts_per_mesh args) threshold_start
       = Some (simplified, threshold)
    /\ atlasc__fix_outline_pts fuel (thresholded_of E args pixels)
                               (img_w pixels) (img_h pixels)
                               simplified (length simplified)
       = Some corrected
    /\ pts spr = Some (del_points (tri_delaunay2d_from E corrected))
    /\ uvs spr = None
    /\ src_size spr = sx_ivec2i (img_w pixels) (img_h pixels)
    /\ sprite_rect spr
       = fold_left sx_irect_add_point (outline_of E args pixels) empty_rect
    /\ num_points spr = del_num_points (tri_delaunay2d_from E corrected).
Proof.
  intros Hmesh. unfold load_sprite.
  destruct (negb (sx_os_path_isfile E path)); [discriminate|].
  destruct (stbi_load E path) as [pixels|]; [|discriminate].
  apply Z.eqb_neq in Hmesh. rewrite Hmesh.
  cbn [src_size src_image vx vy].
  fold (thresholded_of E args pixels). fold (outline_of E args pixels).
  unfold atlasc__make_mesh.
  destruct (simplify_loop E fuel (outline_of E args pixels)
                          (max_verts_per_mesh args) threshold_start)
    as [[simplified threshold]|] eqn:Hsimp; [|discriminate].
  destruct (atlasc__fix_outline_pts fuel (thresholded_of E args pixels)
              (img_w pixels) (img_h pixels) simplified (length simplified))
    as [corrected|] eqn:Hfix; [|discriminate].
  intros H. injection H as <-.
  exists pixels, simplified, threshold, corrected.
  split; [reflexivity|]. split; [exact Hsimp|]. split; [exact Hfix|].
  cbn. repeat split.
Qed.

Lemma load_sprites_each paths : forall loaded,
  load_sprites E fuel args paths = Some (inr loaded) ->
  Forall (fun spr => exists path,
              In path paths /\ load_sprite E fuel args path = Some (inr spr))
         loaded.
Proof.
  induction paths as [|path rest IH]; intros loaded; cbn [load_sprites].
  - intros H. injection H as <-. constructor.
  - destruct (load_sprite E fuel args path) as [[msg | spr]|] eqn:Hone;
      [discriminate | | discriminate].
    destruct (load_sprites E fuel args rest) as [[msg | sprs]|];
      [discriminate | | discriminate].
    intros H. injection H as <-. constructor.
    + exists path. split; [left; reflexivity | exact Hone].
    + specialize (IH sprs eq_refl). revert IH. apply Forall_impl.
      intros a (q & Hq & Hl). exists q. split; [right; exact Hq | exact Hl].
Qed.

(** Placing and the UV pass leave the mesh and the trim of a sprite alone. *)
Lemma place_sprites_same sprs : forall placed final_rect,
  Forall2 (fun a b => same_mesh a b /\ uvs a = uvs b)
          sprs (snd (place_sprites args sprs placed final_rect)).
Proof.
  induction sprs as [|spr rest IH]; intros placed final_rect; cbn [place_sprites].
  - constructor.
  - destruct (hd (0, 0) placed) as [x y].
    destruct (rp_rect_size args spr) as [w h].
    specialize (IH (tl placed)
      (sx_irect_add_point
         (sx_irect_add_point final_rect (vmin (sx_irectwh x y w h)))
         (vmax (sx_irectwh x y w h)))).
    destruct (place_sprites args rest (tl placed) _) as [fr rest'].
    cbn [snd] in *. constructor; [|exact IH].
    unfold same_mesh. cbn. repeat split.
Qed.

Lemma Forall2_refl_on {A} (R : A -> A -> Prop) (l : list A) :
  (forall a, R a a) -> Forall2 R l l.
Proof. intros HR. induction l; constructor; auto. Qed.

Lemma placed_sprites_same loaded :
  Forall2 (fun a b => same_mesh a b /\ uvs a = uvs b)
          loaded (placed_sprites E args loaded).
Proof.
  unfold placed_sprites.
  destruct (stbrp_pack_rects E (max_width args) (max_height args)
                             (map (rp_rect_size args) loaded)) as [[|] placed].
  - apply place_sprites_same.
  - apply Forall2_refl_on. intros a. unfold same_mesh. repeat split.
Qed.

Lemma Forall2_In_r {A B} (R : A -> B -> Prop) l l' b :
  Forall2 R l l' -> In b l' -> exists a, In a l /\ R a b.
Proof.
  induction 1 as [|x y l l' Hxy _ IH]; intros Hin; [destruct Hin|].
  destruct Hin as [<- | Hin].
  - exists x. split; [left; reflexivity | exact Hxy].
  - destruct (IH Hin) as (a & Ha & HR). exists a. split; [right; exact Ha | exact HR].
Qed.

Lemma load_sprites_aligned paths : forall loaded,
  load_sprites E fuel args paths = Some (inr loaded) ->
  Forall2 (fun path spr => load_sprite E fuel args path = Some (inr spr))
          paths loaded.
Proof.
  induction paths as [|path rest IH]; intros loaded; cbn [load_sprites].
  - intros H. injection H as <-. constructor.
  - destruct (load_sprite E fuel args path) as [[msg | spr]|] eqn:Hone;
      [discriminate | | discriminate].
    destruct (load_sprites E fuel args rest) as [[msg | sprs]|];
      [discriminate | | discriminate].
    intros H. injection H as <-. constructor; [exact Hone | apply IH; reflexivity].
Qed.

(** Placing leaves the triangles and the source image of a sprite alone. *)
Lemma place_sprites_arrays sprs : forall placed final_rect,
  Forall2 (fun a b => tris a = tris b /\ src_image a = src_image b)
          sprs (snd (place_sprites args sprs placed final_rect)).
Proof.
  induction sprs as [|spr rest IH]; intros placed final_rect; cbn [place_sprites].
  - constructor.
  - destruct (hd (0, 0) placed) as [x y].
    destruct (rp_rect_size args spr) as [w h].
    specialize (IH (tl placed)
      (sx_irect_add_point
         (sx_irect_add_point final_rect (vmin (sx_irectwh x y w h)))
         (vmax (sx_irectwh x y w h)))).
    destruct (place_sprites args rest (tl placed) _) as [fr rest'].
    cbn [snd] in *. constructor; [|exact IH]. cbn. split; reflexivity.
Qed.

Lemma placed_sprites_arrays loaded :
  Forall2 (fun a b => tris a = tris b /\ src_image a = src_image b)
          loaded (placed_sprites E args loaded).
Proof.
  unfold placed_sprites.
  destruct (stbrp_pack_rects E (max_width args) (max_height args)
                             (map (rp_rect_size args) loaded)) as [[|] placed].
  - apply place_sprites_arrays.
  - apply Forall2_refl_on. intros a. split; reflexivity.
Qed.

Lemma sprite_uvs_arrays spr :
  tris (sprite_uvs args spr) = tris spr
  /\ src_image (sprite_uvs args spr) = src_image spr.
Proof.
  unfold sprite_uvs. destruct (pts spr); [|split; reflexivity].
  destruct (num_points spr =? 0); split; reflexivity.
Qed.

Lemma Forall2_and {A B} (R S : A -> B -> Prop) l l' :
  Forall2 R l l' -> Forall2 S l l' -> Forall2 (fun a b => R a b /\ S a b) l l'.
Proof.
  intros HR. induction HR as [|a b l l' Hab _ IH]; intros HS;
    inversion HS; subst; constructor; auto.
Qed.

Lemma Forall2_map_r {A B C} (R : A -> C -> Prop) (f : B -> C) l l' :
  Forall2 (fun a b => R a (f b)) l l' -> Forall2 R l (map f l').
Proof. induction 1; cbn [map]; constructor; auto. Qed.

Lemma Forall2_chain {A B C} (R : A -> B -> Prop) (S : B -> C -> Prop) l1 l2 :
  Forall2 R l1 l2 -> forall l3, Forall2 S l2 l3 ->
  Forall2 (fun a c => exists b, R a b /\ S b c) l1 l3.
Proof.
  induction 1 as [|a b l1 l2 Hab _ IH]; intros l3 HS;
    inversion HS; subst; constructor; eauto.
Qed.

Lemma Forall2_nth_error_r {A B} (R : A -> B -> Prop) l l' :
  Forall2 R l l' -> forall i b, nth_error l' i = Some b ->
  exists a, nth_error l i = Some a /\ R a b.
Proof.
  induction 1 as [|a b l l' Hab _ IH]; intros i c Hi.
  - destruct i; discriminate.
  - destruct i as [|i]; cbn [nth_error] in *.
    + injection Hi as <-. exists a. split; [reflexivity | exact Hab].
    + apply IH. exact Hi.
Qed.

(** Sprite [i] of the sprites that the UV pass leaves is sprite [i] of the
    loading loop, placed, and (with the mesh) given its UVs. *)
Lemma final_sprites_aligned loaded :
  Forall2 (fun l spr =>
             exists q, same_mesh l q /\ uvs q = uvs l /\ tris q = tris l
                       /\ src_image q = src_image l
                       /\ spr = (if mesh args =? 0 then q else sprite_uvs args q))
          loaded (final_sprites E args loaded).
Proof.
  pose proof (Forall2_and _ _ _ _ (placed_sprites_same loaded)
                          (placed_sprites_arrays loaded)) as H.
  unfold final_sprites. destruct (mesh args =? 0).
  - revert H. apply Forall2_impl.
    intros l q ((Hsame & Hu) & Ht & Hi). exists q.
    split; [exact Hsame|]. repeat split; congruence.
  - apply Forall2_map_r. revert H. apply Forall2_impl.
    intros l q ((Hsame & Hu) & Ht & Hi). exists q.
    split; [exact Hsame|]. repeat split; congruence.
Qed.

(** Every sprite of the outcome is a loaded sprite, placed, and (with the
    mesh) given its UVs. *)
Lemma atlasc_make_sprite out spr :
  atlasc_make E fuel args = Some out ->
  In spr (mk_sprites out) ->
  exists path loaded_spr placed_spr,
    In path (in_filepaths args)
    /\ load_sprite E fuel args path = Some (inr loaded_spr)
    /\ same_mesh loaded_spr placed_spr
    /\ uvs placed_spr = uvs loaded_spr
    /\ spr = (if mesh args =? 0 then placed_spr else sprite_uvs args placed_spr).
Proof.
  intros Hmake Hin.
  destruct (atlasc_make_cases E fuel args out Hmake)
    as [[msg ->] | (loaded & dst & Hload & _ & _ & ->)]; [destruct Hin|].
  destruct (built_members E args loaded dst) as (_ & _ & Hsprs & _).
  rewrite Hsprs in Hin.
  apply In_nth_error in Hin. destruct Hin as [i Hi].
  destruct (Forall2_nth_error_r _ _ _ (final_sprites_aligned loaded) i spr Hi)
    as (l & Hl & q & Hsame & Hu & _ & _ & Hspr).
  destruct (Forall2_nth_error_r _ _ _ (load_sprites_aligned _ _ Hload) i l Hl)
    as (path & Hpath & Hone).
  exists path, l, q. split; [exact (nth_error_In _ _ Hpath)|].
  repeat split; auto.
  all: destruct Hsame as (? & ? & ? & ? & ?); auto.
Qed.

(** *** UVs *)

Lemma firstn_firstn_same {A} n (l : list A) : firstn n (firstn n l) = firstn n l.
Proof. rewrite firstn_firstn. rewrite Nat.min_id. reflexivity. Qed.

Lemma sprite_uvs_coords spr :
  uvs spr = None ->
  uv_coords (sprite_uvs args spr)
  = map (uv_of args (sprite_uvs args spr)) (positions (sprite_uvs args spr)).
Proof.
  intros Hnone. unfold sprite_uvs. destruct (pts spr) as [p|] eqn:Hp.
  - destruct (Z.eqb_spec (num_points spr) 0) as [Hz | Hnz].
    + unfold uv_coords, positions. rewrite Hnone, Hp, Hz. reflexivity.
    + unfold uv_coords, positions, array_of, set_uvs, uv_of, sheet_pos.
      cbn [uvs pts num_points sprite_rect sheet_rect]. rewrite Hp.
      rewrite firstn_map, firstn_firstn_same. reflexivity.
  - unfold uv_coords, positions. rewrite Hnone, Hp. reflexivity.
Qed.

Lemma build_uvs out spr :
  atlasc_make E fuel args = Some out ->
  In spr (mk_sprites out) ->
  uv_coords spr = map (uv_of args spr) (positions spr).
Proof.
  intros Hmake Hin.
  destruct (atlasc_make_sprite out spr Hmake Hin)
    as (path & l & q & _ & Hone & Hsame & Huv & ->).
  destruct (Z.eqb_spec (mesh args) 0) as [Hoff | Hon].
  - destruct (load_sprite_plain path l Hoff Hone) as (Hp & Hu & _).
    destruct Hsame as (Hpts & _).
    unfold uv_coords, positions. rewrite Huv, Hu, <- Hpts, Hp. reflexivity.
  - destruct (load_sprite_meshed path l Hon Hone)
      as (? & ? & ? & ? & _ & _ & _ & _ & Hu & _).
    apply sprite_uvs_coords. congruence.
Qed.

End Loading.

(** C9. For every sprite of a build, at its index [i] among the sprites.
    The UV pass keeps the mesh that the loading loop made for input [i]: the
    positions, the triangle count, the indices and sprite_rect are those of
    the sprite as loaded (with the mesh option, the positions are the points
    of the triangulation that [atlasc__make_mesh] had made), and the loading
    loop had left no uvs.  After the pass the uvs array is the positions
    array mapped point by point through
    [uv = (p - sprite_rect.min) + (sheet_rect.min + (padding, padding))]:
    each uv belongs to the position of the same index, the two arrays have
    the same length, and with no positions there are no uvs. *)
Theorem C9_uvs_from_positions
        (E : externals) (fuel : nat) (args : atlasc_args) (out : make_outcome)
        (i : nat) (spr : atlasc__sprite) :
  atlasc_make E fuel args = Some out ->
  nth_error (mk_sprites out) i = Some spr ->
  exists path loaded,
    nth_error (in_filepaths args) i = Some path
    /\ load_sprite E fuel args path = Some (inr loaded)
    /\ positions spr = positions loaded
    /\ num_tris spr = num_tris loaded
    /\ tris spr = tris loaded
    /\ sprite_rect spr = sprite_rect loaded
    /\ uv_coords loaded = []
    /\ (mesh args <> 0 ->
        exists polygon,
          positions spr = del_points (tri_delaunay2d_from E polygon))
    /\ uv_coords spr = map (uv_of args spr) (positions spr)
    /\ length (uv_coords spr) = length (positions spr)
    /\ (positions spr = [] -> uv_coords spr = []).
Proof.
  intros Hmake Hi.
  pose proof (build_uvs E fuel args out spr Hmake (nth_error_In _ _ Hi)) as Huv.
  destruct (atlasc_make_cases E fuel args out Hmake)
    as [[msg ->] | (loaded & dst & Hload & _ & _ & ->)].
  { destruct i; discriminate Hi. }
  destruct (built_members E args loaded dst) as (_ & _ & Hsprs & _).
  rewrite Hsprs in Hi.
  destruct (Forall2_nth_error_r _ _ _ (final_sprites_aligned E args loaded)
                                i spr Hi)
    as (l & Hl & q & (Hpts & Hnp & Hnt & _ & Hrect) & Hu & Htris & _ & Hspr).
  destruct (Forall2_nth_error_r _ _ _ (load_sprites_aligned E fuel args _ _ Hload)
                                i l Hl)
    as (path & Hpath & Hone).
  assert (Hkept : pts spr = pts l /\ num_points spr = num_points l
                  /\ num_tris spr = num_tris l /\ tris spr = tris l
                  /\ sprite_rect spr = sprite_rect l).
  { destruct (mesh args =? 0); subst spr.
    - repeat split; congruence.
    - destruct (sprite_uvs_rects args q) as (Hr & _ & Hp & Hn & Ht & _).
      destruct (sprite_uvs_arrays args q) as (Ha & _).
      repeat split; congruence. }
  destruct Hkept as (Kp & Kn & Kt & Ka & Kr).
  assert (Hpos : positions spr = positions l)
    by (unfold positions; rewrite Kp, Kn; reflexivity).
  assert (Hnone : uvs l = None).
  { destruct (Z.eqb_spec (mesh args) 0) as [Hoff | Hon].
    - exact (proj1 (proj2 (load_sprite_plain E fuel args path l Hoff Hone))).
    - destruct (load_sprite_meshed E fuel args path l Hon Hone)
        as (? & ? & ? & ? & _ & _ & _ & _ & Hnone & _). exact Hnone. }
  exists path, l.
  split; [exact Hpath|]. split; [exact Hone|]. split; [exact Hpos|].
  split; [exact Kt|]. split; [exact Ka|]. split; [exact Kr|].
  split; [unfold uv_coords; rewrite Hnone; reflexivity|].
  split.
  { intros Hon.
    destruct (load_sprite_meshed E fuel args path l Hon Hone)
      as (pixels & simplified & threshold & corrected
          & _ & _ & _ & Hmesh & _ & _ & _ & Hcount).
    exists corrected. rewrite Hpos. unfold positions, array_of.
    rewrite Hmesh, Hcount. unfold del_num_points.
    rewrite Nat2Z.id. apply firstn_all. }
  split; [exact Huv|]. split.
  - rewrite Huv. apply length_map.
  - intros Hnil. rewrite Huv, Hnil. reflexivity.
Qed.

Lemma C9_uvs_from_positions_witness :
  exists path loaded,
    nth_error (in_filepaths Sample.args) 0 = Some path
    /\ load_sprite Sample.E 50 Sample.args path = Some (inr loaded)
    /\ positions Sample.sprite = positions loaded
    /\ num_tris Sample.sprite = num_tris loaded
    /\ tris Sample.sprite = tris loaded
    /\ sprite_rect Sample.sprite = sprite_rect loaded
    /\ uv_coords loaded = []
    /\ (mesh Sample.args <> 0 ->
        exists polygon,
          positions Sample.sprite
          = del_points (tri_delaunay2d_from Sample.E polygon))
    /\ uv_coords Sample.sprite
       = map (uv_of Sample.args Sample.sprite) (positions Sample.sprite)
    /\ length (uv_coords Sample.sprite) = length (positions Sample.sprite)
    /\ (positions Sample.sprite = [] -> uv_coords Sample.sprite = []).
Proof.
  apply (C9_uvs_from_positions Sample.E 50 Sample.args Sample.out 0
                               Sample.sprite).
  - vm_compute. reflexivity.
  - vm_compute. reflexivity.
Defined.

(* ================================================================== *)
(** ** The corrector and the correction loop of the spec *)

Section Corrector.

Variables (m : mask) (tw th : Z).

Lemma pt_set_Forall (P : s2o_point -> Prop) pts : forall i p,
  Forall P pts -> P p -> Forall P (pt_set pts i p).
Proof.
  induction pts as [|q rest IH]; intros i p Hall Hp; cbn [pt_set].
  - constructor.
  - inversion Hall as [|? ? Hq Hrest]; subst.
    destruct i; constructor; auto.
Qed.

Lemma pt_set_same pts : forall i, pt_set pts i (pt_at pts i) = pts.
Proof.
  induction pts as [|q rest IH]; intros i; [reflexivity|].
  destruct i; cbn [pt_set]; [reflexivity|].
  f_equal. apply IH.
Qed.

Lemma sx_clamp_range v hi : 0 <= hi -> 0 <= sx_clamp v 0 hi <= hi.
Proof. unfold sx_clamp. lia. Qed.

(** The points stay on the grid [0,tw] x [0,th]. *)
Lemma offset_pt_within pts num_pts i amount :
  0 <= tw -> 0 <= th ->
  Forall (within_image (sx_ivec2i tw th)) pts ->
  Forall (within_image (sx_ivec2i tw th))
         (snd (atlasc__offset_pt pts num_pts i amount tw th)).
Proof.
  intros Hw Hh Hall. unfold atlasc__offset_pt. cbv zeta. cbn [snd].
  apply pt_set_Forall; [exact Hall|].
  unfold within_image. cbn [vx vy].
  split; apply sx_clamp_range; assumption.
Qed.

(** When the flag says "not changed", the buffer is the one passed in. *)
Lemma offset_pt_unchanged pts num_pts i amount :
  fst (atlasc__offset_pt pts num_pts i amount tw th) = false ->
  snd (atlasc__offset_pt pts num_pts i amount tw th) = pts.
Proof.
  unfold atlasc__offset_pt. cbv zeta. cbn [fst snd vx vy].
  intros Hsame. apply orb_false_iff in Hsame. destruct Hsame as [Hx Hy].
  apply negb_false_iff in Hx. apply negb_false_iff in Hy.
  apply Z.eqb_eq in Hx. apply Z.eqb_eq in Hy.
  rewrite <- Hx, <- Hy.
  replace (sx_ivec2i (vx (pt_at pts i)) (vy (pt_at pts i))) with (pt_at pts i)
    by (destruct (pt_at pts i); reflexivity).
  apply pt_set_same.
Qed.

Lemma fix_edge_loop_within fuel num_pts i next_i : forall pts pts',
  0 <= tw -> 0 <= th ->
  Forall (within_image (sx_ivec2i tw th)) pts ->
  fix_edge_loop fuel m tw th pts num_pts i next_i = Some pts' ->
  Forall (within_image (sx_ivec2i tw th)) pts'.
Proof.
  induction fuel as [|fuel IH]; intros pts pts' Hw Hh Hall;
    cbn [fix_edge_loop]; [discriminate|].
  destruct (atlasc__test_line m tw th (pt_at pts i) (pt_at pts next_i)).
  - pose proof (offset_pt_within pts num_pts i offset_amount Hw Hh Hall) as H1.
    destruct (atlasc__offset_pt pts num_pts i offset_amount tw th)
      as [changed pts1]. cbn [snd] in H1.
    destruct changed.
    + pose proof (offset_pt_within pts1 num_pts next_i offset_amount Hw Hh H1) as H2.
      destruct (atlasc__offset_pt pts1 num_pts next_i offset_amount tw th)
        as [moved pts2]. cbn [snd] in H2.
      apply IH; assumption.
    + intros H. injection H as <-. exact H1.
  - intros H. injection H as <-. exact Hall.
Qed.

(** The loop of an edge is the correction loop of the spec, on the mask it
    was given. *)
Lemma fix_edge_loop_spec fuel num_pts i : forall pts pts',
  fix_edge_loop fuel m tw th pts num_pts i (next_index i num_pts) = Some pts' ->
  CorrectorSpec.edge_loop m tw th num_pts i pts pts'.
Proof.
  induction fuel as [|fuel IH]; intros pts pts'; cbn [fix_edge_loop];
    [discriminate|].
  rewrite test_line_rasterised.
  destruct (LineSpec.touches m tw th (pt_at pts i)
                             (pt_at pts (next_index i num_pts))) eqn:Hhit.
  - destruct (atlasc__offset_pt pts num_pts i offset_amount tw th)
      as [changed pts1] eqn:Hoff.
    destruct changed.
    + destruct (atlasc__offset_pt pts1 num_pts (next_index i num_pts)
                                  offset_amount tw th) as [moved pts2] eqn:Hoff2.
      intros Hrest.
      exact (CorrectorSpec.edge_pushed m tw th num_pts i pts pts1 moved pts2 pts'
               Hhit Hoff Hoff2 (IH pts2 pts' Hrest)).
    + intros H. injection H as <-.
      exact (CorrectorSpec.edge_stuck m tw th num_pts i pts pts1 Hhit Hoff).
  - intros H. injection H as <-.
    exact (CorrectorSpec.edge_clear m tw th num_pts i pts Hhit).
Qed.

(** The correction loop of the spec has one outcome at most. *)
Lemma edge_loop_functional num_pts i pts pts1 :
  CorrectorSpec.edge_loop m tw th num_pts i pts pts1 ->
  forall pts2, CorrectorSpec.edge_loop m tw th num_pts i pts pts2 -> pts2 = pts1.
Proof.
  induction 1 as [pts Hclear | pts pts1 Hhit Hoff
                  | pts pts1 moved pts2 pts' Hhit Hoff Hoff2 _ IH];
    intros other Hother; inversion Hother; subst; try congruence.
  apply IH.
  match goal with
  | H1 : atlasc__offset_pt pts _ _ _ _ _ = (true, ?q),
    H2 : atlasc__offset_pt ?q _ _ _ _ _ = (_, ?r),
    H3 : CorrectorSpec.edge_loop _ _ _ _ _ ?r other |- _ =>
      rewrite Hoff in H1; injection H1 as <-;
      rewrite Hoff2 in H2; injection H2 as <- <-; exact H3
  end.
Qed.

Lemma fix_edges_from_within fuel num_pts todo : forall i pts pts',
  0 <= tw -> 0 <= th ->
  Forall (within_image (sx_ivec2i tw th)) pts ->
  fix_edges_from fuel m tw th num_pts todo i pts = Some pts' ->
  Forall (within_image (sx_ivec2i tw th)) pts'.
Proof.
  induction todo as [|todo IH]; intros i pts pts' Hw Hh Hall;
    cbn [fix_edges_from].
  - intros H. injection H as <-. exact Hall.
  - destruct (fix_edge_loop fuel m tw th pts num_pts i (next_index i num_pts))
      as [pts1|] eqn:Hedge; [|discriminate].
    apply IH; try assumption.
    apply (fix_edge_loop_within fuel num_pts i (next_index i num_pts) pts pts1);
      assumption.
Qed.

Lemma fix_edges_from_spec fuel num_pts todo : forall i pts pts',
  fix_edges_from fuel m tw th num_pts todo i pts = Some pts' ->
  CorrectorSpec.sweep m tw th num_pts i todo pts pts'.
Proof.
  induction todo as [|todo IH]; intros i pts pts'; cbn [fix_edges_from].
  - intros H. injection H as <-. constructor.
  - destruct (fix_edge_loop fuel m tw th pts num_pts i (next_index i num_pts))
      as [pts1|] eqn:Hedge; [|discriminate].
    intros Hrest. apply (CorrectorSpec.sweep_edge _ _ _ _ _ _ _ pts1).
    + apply (fix_edge_loop_spec fuel num_pts i pts pts1 Hedge).
    + apply IH. exact Hrest.
Qed.

Lemma sweep_functional num_pts i todo pts pts1 :
  CorrectorSpec.sweep m tw th num_pts i todo pts pts1 ->
  forall pts2, CorrectorSpec.sweep m tw th num_pts i todo pts pts2 -> pts2 = pts1.
Proof.
  induction 1 as [i pts | i todo pts mid pts1 Hedge _ IH];
    intros other Hother; inversion Hother; subst; [reflexivity|].
  apply IH.
  match goal with
  | H1 : CorrectorSpec.edge_loop _ _ _ _ _ pts ?q,
    H2 : CorrectorSpec.sweep _ _ _ _ _ _ ?q other |- _ =>
      rewrite (edge_loop_functional _ _ _ _ Hedge _ H1) in H2; exact H2
  end.
Qed.

End Corrector.

(** *** The dilated mask feeds the outline extraction only *)

Lemma simplify_loop_with_dilate E dilate fuel : forall pts max_verts threshold,
  simplify_loop (with_dilate E dilate) fuel pts max_verts threshold
  = simplify_loop E fuel pts max_verts threshold.
Proof.
  induction fuel as [|fuel IH]; intros pts max_verts threshold;
    cbn [simplify_loop]; [reflexivity|].
  cbn [with_dilate s2o_distance_based_path_simplification].
  destruct (_ >? max_verts); [apply IH | reflexivity].
Qed.

Lemma make_mesh_with_dilate E dilate fuel spr pts max_verts m w h :
  atlasc__make_mesh (with_dilate E dilate) fuel spr pts max_verts m w h
  = atlasc__make_mesh E fuel spr pts max_verts m w h.
Proof.
  unfold atlasc__make_mesh. rewrite simplify_loop_with_dilate. reflexivity.
Qed.

(** Whatever the dilation does, a sprite is loaded the same as long as the
    outline extracted is the same. *)
Lemma load_sprite_with_dilate E dilate fuel args path :
  (forall pixels, stbi_load E path = Some pixels ->
                  outline_of (with_dilate E dilate) args pixels
                  = outline_of E args pixels) ->
  load_sprite (with_dilate E dilate) fuel args path
  = load_sprite E fuel args path.
Proof.
  intros Hsame. unfold load_sprite.
  cbn [with_dilate sx_os_path_isfile stbi_load].
  destruct (negb (sx_os_path_isfile E path)); [reflexivity|].
  destruct (stbi_load E path) as [pixels|] eqn:Himg; [|reflexivity].
  specialize (Hsame pixels eq_refl).
  unfold outline_of, thresholded_of in Hsame.
  cbn [with_dilate s2o_rgba_to_alpha s2o_alpha_to_thresholded
       s2o_dilate_thresholded s2o_thresholded_to_outlined
       s2o_extract_outline_path] in *.
  cbn [src_size src_image vx vy].
  rewrite Hsame. rewrite make_mesh_with_dilate. reflexivity.
Qed.



(* ================================================================== *)
(** ** Mesh positions and the trim rectangle *)

Section MeshBounds.
Import Int32Facts.

Lemma In_firstn {A} n : forall (l : list A) a, In a (firstn n l) -> In a l.
Proof.
  induction n as [|n IH]; intros l a; [intros []|].
  destruct l as [|b l]; cbn [firstn]; [intros []|].
  intros [-> | H]; [left; reflexivity | right; apply IH; exact H].
Qed.

(** [sheet_rect.min + padding] is the min corner of the contracted
    sheet_rect. *)
Lemma sheet_pos_contracted args spr :
  sheet_pos args spr = vmin (contracted_sheet_rect args spr).
Proof.
  unfold sheet_pos, contracted_sheet_rect, sx_irect_expand, vmin.
  cbn [xmin ymin vx vy]. f_equal; int32_ring.
Qed.

End MeshBounds.

(** C3, as the code has it.  Given the contracts of the collaborators (a
    decoded image has a non-negative width and height, the outline points
    are pixels of the image, the simplification and the triangulation return
    only points that they were given), for every sprite with a mesh in a
    successful build every point of [positions] lies within the source image,
    [0,w] x [0,h] borders included (the corrector clamps to the image, not to
    sprite_rect), and every uv is offset from the min corner of the
    sheet_rect contracted by the padding exactly as its position is offset
    from the min corner of sprite_rect. *)
Theorem C3_mesh_within_image
        (E : externals) (fuel : nat) (args : atlasc_args) (out : make_outcome)
        (spr : atlasc__sprite) :
  (forall path pixels, stbi_load E path = Some pixels ->
                       0 <= img_w pixels /\ 0 <= img_h pixels) ->
  (forall data w h p, In p (s2o_extract_outline_path E data w h) ->
                      0 <= vx p < w /\ 0 <= vy p < h) ->
  (forall l t p, In p (s2o_distance_based_path_simplification E l t) -> In p l) ->
  (forall l p, In p (del_points (tri_delaunay2d_from E l)) -> In p l) ->
  atlasc_make E fuel args = Some out ->
  mk_result out = true ->
  In spr (mk_sprites out) ->
  num_tris spr <> 0 ->
  Forall (within_image (src_size spr)) (positions spr)
  /\ uv_coords spr
     = map (fun p => sx_ivec2_add (sx_ivec2_sub p (vmin (sprite_rect spr)))
                                  (vmin (contracted_sheet_rect args spr)))
           (positions spr).
Proof.
  intros Csize Coutline Csimplify Cdelaunay Hmake _ Hin _.
  split.
  - destruct (atlasc_make_sprite E fuel args out spr Hmake Hin)
      as (path & l & q & _ & Hone & Hsame & _ & Hspr).
    destruct Hsame as (Hpts & Hnp & _ & Hsize & _).
    destruct (Z.eqb_spec (mesh args) 0) as [Hoff | Hon].
    + destruct (load_sprite_plain E fuel args path l Hoff Hone) as (Hnone & _).
      subst spr. unfold positions. rewrite <- Hpts, Hnone. constructor.
    + destruct (load_sprite_meshed E fuel args path l Hon Hone)
        as (pixels & simplified & threshold & corrected
            & Himg & Hsimp & Hfix & Hmesh & _ & Hsz & _).
      destruct (sprite_uvs_rects args q) as (_ & _ & Hp' & Hn' & _ & Hs').
      subst spr. unfold positions. rewrite Hp', Hn', Hs', <- Hpts, <- Hsize.
      rewrite Hmesh, Hsz. cbn [array_of].
      destruct (Csize path pixels Himg) as [Hw Hh].
      destruct (simplify_loop_result E fuel _ _ _ _ _ Hsimp) as [t Ht].
      assert (Hgrid : Forall (within_image (sx_ivec2i (img_w pixels) (img_h pixels)))
                             corrected).
      { apply (fix_edges_from_within _ _ _ _ _ _ _ _ _ Hw Hh) with (2 := Hfix).
        apply Forall_forall. intros p Hp. rewrite Ht in Hp.
        apply Csimplify in Hp. apply Coutline in Hp.
        unfold within_image. cbn [vx vy]. lia. }
      rewrite Forall_forall in Hgrid. apply Forall_forall. intros p Hp.
      apply Hgrid, Cdelaunay. exact (In_firstn _ _ _ Hp).
  - rewrite (build_uvs E fuel args out spr Hmake Hin).
    apply map_ext. intros p. unfold uv_of.
    rewrite sheet_pos_contracted. reflexivity.
Qed.

(** The reference collaborators meet the contracts. *)
Lemma ref_outline_in_image data w h p :
  In p (Ref.extract_outline_path data w h) -> 0 <= vx p < w /\ 0 <= vy p < h.
Proof.
  unfold Ref.extract_outline_path.
  destruct (Ref.set_pixels data w h); [intros []|].
  intros Hin. apply filter_In in Hin. destruct Hin as [_ Hin].
  unfold Ref.in_image in Hin. lia.
Qed.

Lemma ref_simplify_from_subset t : forall l last p,
  In p (Ref.simplify_from last l t) -> In p l.
Proof.
  induction l as [|q l IH]; intros last p; cbn [Ref.simplify_from]; [intros []|].
  destruct (F32.leb _ _).
  - intros H. right. exact (IH _ _ H).
  - intros [-> | H]; [left; reflexivity | right; exact (IH _ _ H)].
Qed.

Lemma ref_simplify_subset l t p :
  In p (Ref.path_simplification l t) -> In p l.
Proof.
  destruct l as [|q l]; cbn [Ref.path_simplification]; [intros []|].
  intros [-> | H]; [left; reflexivity | right; exact (ref_simplify_from_subset _ _ _ _ H)].
Qed.

Lemma sample_image_size path pixels :
  Ref.lookup Sample.fs path = Some pixels -> 0 <= img_w pixels /\ 0 <= img_h pixels.
Proof.
  unfold Sample.fs. cbn [Ref.lookup].
  destruct (String.eqb _ path); [|discriminate].
  intros H. injection H as <-. cbn. lia.
Qed.

Lemma C3_mesh_within_image_witness :
  Forall (within_image (src_size Sample.sprite)) (positions Sample.sprite)
  /\ uv_coords Sample.sprite
     = map (fun p => sx_ivec2_add (sx_ivec2_sub p (vmin (sprite_rect Sample.sprite)))
                                  (vmin (contracted_sheet_rect Sample.args Sample.sprite)))
           (positions Sample.sprite).
Proof.
  apply (C3_mesh_within_image Sample.E 50 Sample.args Sample.out Sample.sprite).
  - exact sample_image_size.
  - exact ref_outline_in_image.
  - exact ref_simplify_subset.
  - intros l p H. exact H.
  - vm_compute. reflexivity.
  - vm_compute. reflexivity.
  - vm_compute. left. reflexivity.
  - vm_compute. discriminate.
Defined.

Lemma forallb_false_exists {A} (f : A -> bool) l :
  forallb f l = false -> exists a, In a l /\ f a = false.
Proof.
  induction l as [|a l IH]; cbn [forallb]; [discriminate|].
  destruct (f a) eqn:Hfa.
  - intros H. destruct (IH H) as (c & Hc & Hfc).
    exists c. split; [right; exact Hc | exact Hfc].
  - intros _. exists a. split; [left; reflexivity | exact Hfa].
Qed.

Lemma pushed_out_vertex fuel m rc t :
  Trio.pushed_out fuel m rc t = true ->
  exists corrected p,
    atlasc__fix_outline_pts fuel m 8 8 t 3 = Some corrected
    /\ In p corrected /\ ~ within_rect rc p.
Proof.
  unfold Trio.pushed_out.
  destruct (atlasc__fix_outline_pts fuel m 8 8 t 3) as [corrected|];
    [|discriminate].
  intros Hout. apply negb_true_iff in Hout.
  destruct (forallb_false_exists _ _ Hout) as (p & Hp & Hp').
  exists corrected, p. split; [reflexivity|]. split; [exact Hp|].
  unfold within_rect, Trio.inside in *.
  intros [[H1 H2] [H3 H4]].
  apply Z.leb_le in H1, H2, H3, H4. rewrite H1, H2, H3, H4 in Hp'.
  discriminate.
Qed.

(** C3, as the spec states it, fails on the sample image with the vertex
    budget 3: the build succeeds, its sprite has a mesh of one triangle,
    sprite_rect is (1,1,6,6), and the corrector has pushed the positions
    (0,0), (8,0) and (1,7) out of it; the uv (10,2) lies outside the
    contracted sheet_rect (3,3,8,8).  The failure does not hang on the points
    that the simplification keeps: whichever three points of the outline are
    kept, in their order, the corrector returns with a vertex outside
    sprite_rect as soon as the rasterised line of an edge of the triangle
    touches the silhouette. *)
Lemma C3_counterexample :
  atlasc_make Sample.E 50 Trio.args = Some Trio.out
  /\ mk_result Trio.out = true
  /\ In Trio.sprite (mk_sprites Trio.out)
  /\ num_tris Trio.sprite <> 0
  /\ ~ Forall (within_rect (sprite_rect Trio.sprite)) (positions Trio.sprite)
  /\ ~ Forall (within_rect (contracted_sheet_rect Trio.args Trio.sprite))
              (uv_coords Trio.sprite)
  /\ (forall triangle,
        In triangle (Trio.triples Trio.outline) ->
        Trio.crosses triangle = true ->
        exists corrected p,
          atlasc__fix_outline_pts 300 Trio.thresholded 8 8 triangle 3
          = Some corrected
          /\ In p corrected
          /\ ~ within_rect (sprite_rect Trio.sprite) p).
Proof.
  split; [vm_compute; reflexivity|].
  split; [vm_compute; reflexivity|].
  split; [vm_compute; left; reflexivity|].
  split; [vm_compute; discriminate|].
  split; [|split].
  - intros H. rewrite Forall_forall in H.
    assert (Hin : In (sx_ivec2i 0 0) (positions Trio.sprite))
      by (vm_compute; left; reflexivity).
    specialize (H _ Hin). vm_compute in H. destruct H as [[H _] _].
    apply H. reflexivity.
  - intros H. rewrite Forall_forall in H.
    assert (Hin : In (sx_ivec2i 10 2) (uv_coords Trio.sprite))
      by (vm_compute; right; left; reflexivity).
    specialize (H _ Hin). vm_compute in H. destruct H as [[_ H] _].
    apply H. reflexivity.
  - assert (Hall : forallb (fun t => implb (Trio.crosses t)
                                       (Trio.pushed_out 300 Trio.thresholded
                                                        (sx_irecti 1 1 6 6) t))
                           (Trio.triples Trio.outline) = true)
      by (vm_compute; reflexivity).
    rewrite forallb_forall in Hall.
    assert (Hrect : sprite_rect Trio.sprite = sx_irecti 1 1 6 6)
      by (vm_compute; reflexivity).
    rewrite Hrect.
    intros triangle Hin Hcross. specialize (Hall triangle Hin).
    rewrite Hcross in Hall. cbn [implb] in Hall.
    exact (pushed_out_vertex _ _ _ _ Hall).
Qed.

(* ================================================================== *)
(** ** The loading loop, input by input *)

Section Trim.

Variable E : externals.
Variable fuel : nat.
Variable args : atlasc_args.

(** What the loop body leaves in a sprite, with or without the mesh. *)
Lemma load_sprite_trim path spr :
  load_sprite E fuel args path = Some (inr spr) ->
  exists pixels,
    sx_os_path_isfile E path = true
    /\ stbi_load E path = Some pixels
    /\ src_image spr = img_pixels pixels
    /\ src_size spr = sx_ivec2i (img_w pixels) (img_h pixels)
    /\ sprite_rect spr
       = fold_left sx_irect_add_point (outline_of E args pixels) empty_rect
    /\ sheet_rect spr = sx_irecti 0 0 0 0.
Proof.
  unfold load_sprite.
  destruct (sx_os_path_isfile E path); [|discriminate]. cbn [negb].
  destruct (stbi_load E path) as [pixels|]; [|discriminate].
  cbn [src_size src_image vx vy].
  fold (thresholded_of E args pixels). fold (outline_of E args pixels).
  intros H. exists pixels. split; [reflexivity|]. split; [reflexivity|].
  destruct (mesh args =? 0).
  - injection H as <-. cbn. repeat split.
  - unfold atlasc__make_mesh in H.
    destruct (simplify_loop E fuel (outline_of E args pixels)
                            (max_verts_per_mesh args) threshold_start)
      as [[simplified threshold]|]; [|discriminate].
    destruct (atlasc__fix_outline_pts fuel (thresholded_of E args pixels)
                (img_w pixels) (img_h pixels) simplified (length simplified))
      as [corrected|]; [|discriminate].
    injection H as <-. cbn. repeat split.
Qed.

Lemma load_sprite_refused path msg :
  load_sprite E fuel args path = Some (inl msg) ->
  (sx_os_path_isfile E path = false
   /\ msg = sx_snprintf 512 ("input image not found: " ++ path))
  \/ (sx_os_path_isfile E path = true /\ stbi_load E path = None
      /\ msg = sx_snprintf 512 ("invalid image format: " ++ path)).
Proof.
  unfold load_sprite.
  destruct (sx_os_path_isfile E path); cbn [negb].
  - destruct (stbi_load E path) as [pixels|].
    + destruct (if mesh args =? 0 then _ else _); discriminate.
    + intros H. injection H as <-. right. repeat split.
  - intros H. injection H as <-. left. repeat split.
Qed.

(** Without the mesh the loop body has no unbounded loop to wait for. *)
Lemma load_sprite_plain_returns path :
  mesh args = 0 -> exists r, load_sprite E fuel args path = Some r.
Proof.
  intros Hmesh. unfold load_sprite. rewrite Hmesh. cbn [Z.eqb].
  destruct (negb (sx_os_path_isfile E path)); [eexists; reflexivity|].
  destruct (stbi_load E path); eexists; reflexivity.
Qed.

Lemma load_sprites_plain_returns paths :
  mesh args = 0 -> exists r, load_sprites E fuel args paths = Some r.
Proof.
  intros Hmesh. induction paths as [|path rest IH]; cbn [load_sprites].
  - eexists; reflexivity.
  - destruct (load_sprite_plain_returns path Hmesh) as [[msg | spr] ->].
    + eexists; reflexivity.
    + destruct IH as [[msg | sprs] ->]; eexists; reflexivity.
Qed.

Lemma load_sprites_length paths : forall loaded,
  load_sprites E fuel args paths = Some (inr loaded) ->
  length loaded = length paths.
Proof.
  induction paths as [|path rest IH]; intros loaded; cbn [load_sprites].
  - intros H. injection H as <-. reflexivity.
  - destruct (load_sprite E fuel args path) as [[msg | spr]|];
      [discriminate | | discriminate].
    destruct (load_sprites E fuel args rest) as [[msg | sprs]|];
      [discriminate | | discriminate].
    intros H. injection H as <-. cbn [length]. f_equal. apply IH. reflexivity.
Qed.

(** The loop stops at the first path that it cannot load. *)
Lemma load_sprites_first_refused good bad rest msg :
  Forall (fun p => exists spr, load_sprite E fuel args p = Some (inr spr)) good ->
  load_sprite E fuel args bad = Some (inl msg) ->
  load_sprites E fuel args (good ++ bad :: rest) = Some (inl msg).
Proof.
  intros Hgood Hbad. induction Hgood as [|p good [spr Hp] _ IH];
    cbn [app load_sprites].
  - rewrite Hbad. reflexivity.
  - rewrite Hp, IH. reflexivity.
Qed.

End Trim.

(* ================================================================== *)
(** ** The blit and the sheet image *)

Section Blit.

Lemma sx_memcpy_bytes dst d src s n :
  0 <= n -> 0 <= d -> d + n <= Z.of_nat (length dst) ->
  0 <= s -> s + n <= Z.of_nat (length src) ->
  exists dst',
    sx_memcpy dst d src s n = Some dst'
    /\ length dst' = length dst
    /\ forall o, 0 <= o ->
         byte_at dst' o
         = if (d <=? o) && (o <? d + n) then byte_at src (o - d + s)
           else byte_at dst o.
Proof.
  intros Hn Hd Hdn Hs Hsn. unfold sx_memcpy.
  assert (Hin : (0 <=? n) && (0 <=? d) && (d + n <=? Z.of_nat (length dst))
                && (0 <=? s) && (s + n <=? Z.of_nat (length src)) = true).
  { repeat (apply andb_true_iff; split); lia. }
  rewrite Hin. eexists. split; [reflexivity|].
  assert (Hl1 : length (firstn (Z.to_nat d) dst) = Z.to_nat d).
  { rewrite length_firstn. lia. }
  assert (Hl2 : length (firstn (Z.to_nat n) (skipn (Z.to_nat s) src)) = Z.to_nat n).
  { rewrite length_firstn, length_skipn. lia. }
  split.
  - rewrite !length_app, Hl1, Hl2, length_skipn. lia.
  - intros o Ho. unfold byte_at.
    destruct (Z.leb_spec d o) as [Hdo | Hdo]; cbn [andb].
    + rewrite app_nth2 by lia. rewrite Hl1.
      destruct (Z.ltb_spec o (d + n)) as [Hon | Hon].
      * rewrite app_nth1 by lia.
        rewrite nth_firstn.
        assert (Hlt : (Z.to_nat o - Z.to_nat d <? Z.to_nat n)%nat = true)
          by (apply Nat.ltb_lt; lia).
        rewrite Hlt, nth_skipn. f_equal. lia.
      * rewrite app_nth2 by lia. rewrite Hl2, nth_skipn. f_equal. lia.
    + rewrite app_nth1 by lia. rewrite nth_firstn.
      assert (Hlt : (Z.to_nat o <? Z.to_nat d)%nat = true)
        by (apply Nat.ltb_lt; lia).
      rewrite Hlt. reflexivity.
Qed.

(** The rows of a blit: every byte of a target row is the byte of the
    source row at the same place, and every byte outside the target rows
    is as before. *)
Lemma blit_rows_bytes src dst_pitch src_pitch n rows : forall dst dst_ptr src_ptr,
  0 <= n <= dst_pitch -> n <= src_pitch -> 0 <= dst_ptr -> 0 <= src_ptr ->
  dst_ptr + Z.of_nat rows * dst_pitch <= Z.of_nat (length dst) + (dst_pitch - n) ->
  src_ptr + Z.of_nat rows * src_pitch <= Z.of_nat (length src) + (src_pitch - n) ->
  exists dst',
    blit_rows rows dst dst_ptr dst_pitch src src_ptr src_pitch n = Some dst'
    /\ length dst' = length dst
    /\ (forall j i, 0 <= j < Z.of_nat rows -> 0 <= i < n ->
          byte_at dst' (dst_ptr + j * dst_pitch + i)
          = byte_at src (src_ptr + j * src_pitch + i))
    /\ (forall o, 0 <= o ->
          (forall j, 0 <= j < Z.of_nat rows ->
                     ~ (dst_ptr + j * dst_pitch <= o < dst_ptr + j * dst_pitch + n)) ->
          byte_at dst' o = byte_at dst o).
Proof.
  induction rows as [|rows IH]; intros dst dst_ptr src_ptr Hn Hsp Hd Hs Hdl Hsl.
  - cbn [blit_rows]. eexists. split; [reflexivity|]. split; [reflexivity|].
    split; [intros; lia | reflexivity].
  - cbn [blit_rows].
    destruct (sx_memcpy_bytes dst dst_ptr src src_ptr n)
      as (dst1 & -> & Hlen1 & Hb1); try nia.
    destruct (IH dst1 (dst_ptr + dst_pitch) (src_ptr + src_pitch))
      as (dst2 & -> & Hlen2 & Hin2 & Hout2); try lia.
    exists dst2. split; [reflexivity|]. split; [congruence|]. split.
    + intros j i Hj Hi.
      destruct (Z.eq_dec j 0) as [-> | Hj0].
      * rewrite Hout2 by (try lia; intros j' Hj'; nia).
        rewrite Hb1 by lia.
        assert (Hc : (dst_ptr <=? dst_ptr + 0 * dst_pitch + i)
                     && (dst_ptr + 0 * dst_pitch + i <? dst_ptr + n) = true).
        { apply andb_true_iff. split; lia. }
        rewrite Hc. f_equal. lia.
      * replace (dst_ptr + j * dst_pitch + i)
          with (dst_ptr + dst_pitch + (j - 1) * dst_pitch + i) by lia.
        replace (src_ptr + j * src_pitch + i)
          with (src_ptr + src_pitch + (j - 1) * src_pitch + i) by lia.
        apply Hin2; lia.
    + intros o Ho Hfree.
      rewrite Hout2.
      * rewrite Hb1 by lia.
        assert (Hc : (dst_ptr <=? o) && (o <? dst_ptr + n) = false).
        { specialize (Hfree 0 ltac:(lia)). apply andb_false_iff. lia. }
        rewrite Hc. reflexivity.
      * exact Ho.
      * intros j Hj. specialize (Hfree (j + 1) ltac:(lia)). lia.
Qed.

End Blit.

(** The pixels of the destination after a blit. *)
Lemma blit_pixels
        (dst : list Z) (dw dh : Z) (src : list Z) (sw sh : Z) (bpp ps : Z)
        (dst_x dst_y src_x src_y src_w src_h : Z) :
  Z.quot bpp 8 = ps -> 0 < ps ->
  image_sized dst dw dh ps -> image_sized src sw sh ps ->
  0 <= src_x -> 0 <= src_y -> 0 <= src_w -> 0 <= src_h ->
  src_x + src_w <= sw -> src_y + src_h <= sh ->
  0 <= dst_x -> 0 <= dst_y -> dst_x + src_w <= dw -> dst_y + src_h <= dh ->
  exists dst',
    atlasc__blit dst dst_x dst_y (dw * ps) src src_x src_y src_w src_h
                 (sw * ps) bpp = Some dst'
    /\ length dst' = length dst
    /\ forall x y b, 0 <= x < dw -> 0 <= y < dh -> 0 <= b < ps ->
         pixel_byte dst' dw ps x y b
         = if (dst_x <=? x) && (x <? dst_x + src_w)
              && (dst_y <=? y) && (y <? dst_y + src_h)
           then pixel_byte src sw ps (x - dst_x + src_x) (y - dst_y + src_y) b
           else pixel_byte dst dw ps x y b.
Proof.
  intros Hps Hpos (Hdw & Hdh & Hdh' & Hdp & Hda & Hdl) (Hsw & Hsh & Hsh' & Hsp & Hsa & Hsl)
         Hsx Hsy Hw Hh Hsxw Hsyh Hdx Hdy Hdxw Hdyh.
  unfold Int32.INT_MAX in *.
  unfold atlasc__blit. rewrite Hps. cbv zeta.
  unfold Int32.mul, Int32.add.
  assert (Hr : forall z, 0 <= z <= 2147483647 -> Int32.wrap z = z).
  { intros z Hz. apply Int32Facts.wrap_id.
    unfold Int32.in_range, Int32.INT_MIN, Int32.INT_MAX. lia. }
  set (SP := sw * ps) in *. set (DP := dw * ps) in *.
  assert (HSP : 0 <= SP) by (apply Z.mul_nonneg_nonneg; lia).
  assert (HDP : 0 <= DP) by (apply Z.mul_nonneg_nonneg; lia).
  assert (Hsl' : Z.of_nat (length src) = sh * SP) by (unfold SP; lia).
  assert (Hdl' : Z.of_nat (length dst) = dh * DP) by (unfold DP; lia).
  assert (Hsa' : sh * SP <= 2147483647) by (unfold SP; lia).
  assert (Hda' : dh * DP <= 2147483647) by (unfold DP; lia).
  assert (H1 : 0 <= src_y * SP) by (apply Z.mul_nonneg_nonneg; lia).
  assert (H1' : (src_y + src_h) * SP <= sh * SP)
    by (apply Z.mul_le_mono_nonneg_r; lia).
  assert (H2 : 0 <= src_x * ps) by (apply Z.mul_nonneg_nonneg; lia).
  assert (H2' : (src_x + src_w) * ps <= SP)
    by (apply Z.mul_le_mono_nonneg_r; lia).
  assert (H3 : 0 <= dst_y * DP) by (apply Z.mul_nonneg_nonneg; lia).
  assert (H3' : (dst_y + src_h) * DP <= dh * DP)
    by (apply Z.mul_le_mono_nonneg_r; lia).
  assert (H4 : 0 <= dst_x * ps) by (apply Z.mul_nonneg_nonneg; lia).
  assert (H4' : (dst_x + src_w) * ps <= DP)
    by (apply Z.mul_le_mono_nonneg_r; lia).
  assert (H5 : 0 <= src_w * ps) by (apply Z.mul_nonneg_nonneg; lia).
  assert (H6 : 0 <= src_h * SP) by (apply Z.mul_nonneg_nonneg; lia).
  assert (H7 : 0 <= src_h * DP) by (apply Z.mul_nonneg_nonneg; lia).
  rewrite (Hr (src_y * SP)) by lia.
  rewrite (Hr (src_x * ps)) by (unfold SP in *; lia).
  rewrite (Hr (dst_y * DP)) by lia.
  rewrite (Hr (dst_x * ps)) by (unfold DP in *; lia).
  rewrite (Hr (src_w * ps)) by (unfold SP in *; lia).
  rewrite (Hr (src_y + src_h)) by lia.
  replace (src_y + src_h - src_y) with src_h by lia.
  destruct (blit_rows_bytes src DP SP (src_w * ps) (Z.to_nat src_h)
              dst (dst_y * DP + dst_x * ps) (src_y * SP + src_x * ps))
    as (dst' & Hblit & Hlen & Hin & Hout).
  1-6: rewrite ?Z2Nat.id by lia; try lia.
  exists dst'. split; [exact Hblit|]. split; [exact Hlen|].
  rewrite Z2Nat.id in Hin, Hout by lia.
  intros x y b Hx Hy Hb. unfold pixel_byte.
  destruct ((dst_x <=? x) && (x <? dst_x + src_w)
            && (dst_y <=? y) && (y <? dst_y + src_h)) eqn:Hcov.
  - repeat (apply andb_true_iff in Hcov; destruct Hcov as [Hcov ?]).
    replace ((y * dw + x) * ps + b)
      with (dst_y * DP + dst_x * ps + (y - dst_y) * DP
            + ((x - dst_x) * ps + b)) by (unfold DP; ring).
    rewrite Hin.
    + f_equal. unfold SP. ring.
    + lia.
    + assert (0 <= (x - dst_x) * ps) by (apply Z.mul_nonneg_nonneg; lia).
      assert ((x - dst_x + 1) * ps <= src_w * ps)
        by (apply Z.mul_le_mono_nonneg_r; lia).
      lia.
  - apply Hout.
    + assert (0 <= y * dw) by (apply Z.mul_nonneg_nonneg; lia).
      assert (0 <= (y * dw + x) * ps) by (apply Z.mul_nonneg_nonneg; lia).
      lia.
    + intros j Hj [Hlo Hhi].
      assert (Hrow : (dst_y + j) * dw + dst_x <= y * dw + x).
      { unfold DP in Hlo.
        assert (((dst_y + j) * dw + dst_x) * ps < (y * dw + x + 1) * ps) by lia.
        assert ((dst_y + j) * dw + dst_x < y * dw + x + 1)
          by (apply (Z.mul_lt_mono_pos_r ps); lia).
        lia. }
      assert (Hrow' : y * dw + x < (dst_y + j) * dw + dst_x + src_w).
      { unfold DP in Hhi.
        assert ((y * dw + x) * ps < ((dst_y + j) * dw + dst_x + src_w) * ps) by lia.
        apply (Z.mul_lt_mono_pos_r ps); lia. }
      assert (Hy' : y = dst_y + j).
      { destruct (Z.lt_trichotomy y (dst_y + j)) as [Hlt | [Heq | Hgt]];
          [exfalso | exact Heq | exfalso].
        - assert ((y + 1) * dw <= (dst_y + j) * dw)
            by (apply Z.mul_le_mono_nonneg_r; lia).
          lia.
        - assert ((dst_y + j + 1) * dw <= y * dw)
            by (apply Z.mul_le_mono_nonneg_r; lia).
          lia. }
      subst y.
      assert (Hc : (dst_x <=? x) && (x <? dst_x + src_w)
                   && (dst_y <=? dst_y + j) && (dst_y + j <? dst_y + src_h) = true).
      { repeat (apply andb_true_iff; split); lia. }
      congruence.
Qed.

(** A copy of no byte changes nothing. *)
Lemma sx_memcpy_empty dst d src s dst' :
  sx_memcpy dst d src s 0 = Some dst' -> dst' = dst.
Proof.
  unfold sx_memcpy.
  destruct ((0 <=? 0) && (0 <=? d) && (d + 0 <=? Z.of_nat (length dst))
            && (0 <=? s) && (s + 0 <=? Z.of_nat (length src)));
    [|discriminate].
  intros H. injection H as <-.
  rewrite Z.add_0_r. cbn [Z.to_nat firstn app]. apply firstn_skipn.
Qed.

Lemma blit_rows_empty src dst_pitch src_pitch rows : forall dst dst_ptr src_ptr dst',
  blit_rows rows dst dst_ptr dst_pitch src src_ptr src_pitch 0 = Some dst' ->
  dst' = dst.
Proof.
  induction rows as [|rows IH]; intros dst dst_ptr src_ptr dst'; cbn [blit_rows].
  - intros H. injection H as <-. reflexivity.
  - destruct (sx_memcpy dst dst_ptr src src_ptr 0) as [dst1|] eqn:Hcopy;
      [|discriminate].
    apply sx_memcpy_empty in Hcopy. subst dst1. apply IH.
Qed.

Section Sheet.

Variable args : atlasc_args.
Variables dst_w dst_h : Z.

Lemma blit_sprite_pixels dst spr :
  image_sized dst dst_w dst_h 4 -> blit_fits args dst_w dst_h spr ->
  exists dst',
    blit_sprite args dst_w dst spr = Some dst'
    /\ length dst' = length dst
    /\ forall x y b, 0 <= x < dst_w -> 0 <= y < dst_h -> 0 <= b < 4 ->
         (covers args spr x y ->
          pixel_byte dst' dst_w 4 x y b = source_byte args spr x y b)
         /\ (~ covers args spr x y ->
             pixel_byte dst' dst_w 4 x y b = pixel_byte dst dst_w 4 x y b).
Proof.
  intros Hd Hfit. unfold blit_fits in Hfit. cbv zeta in Hfit.
  destruct Hfit as (Hs & Hsx & Hsy & Hw & Hh & Hsxw & Hsyh & Hdx & Hdy & Hdxw & Hdyh).
  change (blit_sprite args dst_w dst spr)
    with (atlasc__blit dst (xmin (contracted_sheet_rect args spr))
                       (ymin (contracted_sheet_rect args spr))
                       (Int32.mul dst_w 4)
                       (src_image spr)
                       (xmin (sprite_rect spr)) (ymin (sprite_rect spr))
                       (rect_width (sprite_rect spr))
                       (rect_height (sprite_rect spr))
                       (Int32.mul (vx (src_size spr)) 4) 32).
  assert (Hdp : Int32.mul dst_w 4 = dst_w * 4).
  { destruct Hd as (? & ? & ? & ? & ? & ?). apply Int32Facts.wrap_id.
    unfold Int32.in_range, Int32.INT_MIN, Int32.INT_MAX in *. lia. }
  assert (Hsp : Int32.mul (vx (src_size spr)) 4 = vx (src_size spr) * 4).
  { destruct Hs as (? & ? & ? & ? & ? & ?). apply Int32Facts.wrap_id.
    unfold Int32.in_range, Int32.INT_MIN, Int32.INT_MAX in *. lia. }
  rewrite Hdp, Hsp.
  destruct (blit_pixels dst dst_w dst_h (src_image spr)
              (vx (src_size spr)) (vy (src_size spr)) 32 4
              (xmin (contracted_sheet_rect args spr))
              (ymin (contracted_sheet_rect args spr))
              (xmin (sprite_rect spr)) (ymin (sprite_rect spr))
              (rect_width (sprite_rect spr)) (rect_height (sprite_rect spr)))
    as (dst' & Hblit & Hlen & Hpix); try assumption; try reflexivity; try lia.
  exists dst'. split; [exact Hblit|]. split; [exact Hlen|].
  intros x y b Hx Hy Hb. specialize (Hpix x y b Hx Hy Hb).
  unfold covers, source_byte. cbv zeta.
  destruct ((xmin (contracted_sheet_rect args spr) <=? x)
            && (x <? xmin (contracted_sheet_rect args spr)
                     + rect_width (sprite_rect spr))
            && (ymin (contracted_sheet_rect args spr) <=? y)
            && (y <? ymin (contracted_sheet_rect args spr)
                     + rect_height (sprite_rect spr))) eqn:Hcov.
  - split; [intros _; exact Hpix|].
    intros Hno. exfalso. apply Hno.
    repeat (apply andb_true_iff in Hcov; destruct Hcov as [Hcov ?]). lia.
  - split; [|intros _; exact Hpix].
    intros (Hcx & Hcy). exfalso.
    assert (Hyes : (xmin (contracted_sheet_rect args spr) <=? x)
            && (x <? xmin (contracted_sheet_rect args spr)
                     + rect_width (sprite_rect spr))
            && (ymin (contracted_sheet_rect args spr) <=? y)
            && (y <? ymin (contracted_sheet_rect args spr)
                     + rect_height (sprite_rect spr)) = true).
    { repeat (apply andb_true_iff; split); lia. }
    congruence.
Qed.

Lemma image_sized_length dst dst' :
  length dst' = length dst ->
  image_sized dst dst_w dst_h 4 -> image_sized dst' dst_w dst_h 4.
Proof. unfold image_sized. intros ->. tauto. Qed.

Lemma blit_sprites_pixels sprites : forall dst,
  image_sized dst dst_w dst_h 4 ->
  Forall (blit_fits args dst_w dst_h) sprites ->
  exists dst',
    blit_sprites args dst_w dst sprites = Some dst'
    /\ length dst' = length dst
    /\ forall x y b, 0 <= x < dst_w -> 0 <= y < dst_h -> 0 <= b < 4 ->
         ((forall spr, In spr sprites -> ~ covers args spr x y) ->
          pixel_byte dst' dst_w 4 x y b = pixel_byte dst dst_w 4 x y b)
         /\ (forall before spr after,
               sprites = before ++ spr :: after ->
               covers args spr x y ->
               (forall s, In s after -> ~ covers args s x y) ->
               pixel_byte dst' dst_w 4 x y b = source_byte args spr x y b).
Proof.
  induction sprites as [|spr rest IH]; intros dst Hd Hfits; cbn [blit_sprites].
  - exists dst. split; [reflexivity|]. split; [reflexivity|].
    intros x y b _ _ _. split; [reflexivity|].
    intros before s after Heq. destruct before; discriminate.
  - inversion Hfits as [|? ? Hfit Hrest]; subst.
    destruct (blit_sprite_pixels dst spr Hd Hfit) as (dst1 & -> & Hlen1 & Hpix1).
    destruct (IH dst1 (image_sized_length dst dst1 Hlen1 Hd) Hrest)
      as (dst' & -> & Hlen' & Hpix').
    exists dst'. split; [reflexivity|]. split; [congruence|].
    intros x y b Hx Hy Hb.
    destruct (Hpix1 x y b Hx Hy Hb) as [Hon1 Hoff1].
    destruct (Hpix' x y b Hx Hy Hb) as [Hnone Hlast].
    split.
    + intros Hfree. rewrite Hnone, Hoff1.
      * reflexivity.
      * apply Hfree. left. reflexivity.
      * intros s Hs. apply Hfree. right. exact Hs.
    + intros before s after Heq Hcov Hafter.
      destruct before as [|s0 before]; cbn [app] in Heq;
        injection Heq as <- ->.
      * rewrite Hnone by exact Hafter. apply Hon1. exact Hcov.
      * apply (Hlast before s after eq_refl Hcov Hafter).
Qed.

Lemma blit_fits_uvs spr :
  blit_fits args dst_w dst_h spr ->
  blit_fits args dst_w dst_h (sprite_uvs args spr).
Proof.
  assert (Himg : src_image (sprite_uvs args spr) = src_image spr).
  { unfold sprite_uvs. destruct (pts spr); [|reflexivity].
    destruct (num_points spr =? 0); reflexivity. }
  unfold blit_fits, contracted_sheet_rect. rewrite Himg.
  destruct (sprite_uvs_rects args spr) as (-> & -> & _ & _ & _ & ->). tauto.
Qed.

End Sheet.

(** The sheet as allocated and cleared. *)
Lemma sheet_buffer_cleared (dst_w dst_h : Z) :
  0 <= dst_w -> 0 <= dst_h -> dst_h <= Int32.INT_MAX ->
  dst_w * 4 <= Int32.INT_MAX -> dst_w * dst_h * 4 <= Int32.INT_MAX ->
  Int32.mul (Int32.mul dst_w dst_h) 4 = dst_w * dst_h * 4
  /\ image_sized (repeat 0 (Z.to_nat (dst_w * dst_h * 4))) dst_w dst_h 4.
Proof.
  intros Hw Hh Hh' Hp Ha.
  assert (0 <= dst_w * dst_h) by (apply Z.mul_nonneg_nonneg; lia).
  split.
  - unfold Int32.mul.
    rewrite (Int32Facts.wrap_id (dst_w * dst_h))
      by (unfold Int32.in_range, Int32.INT_MIN, Int32.INT_MAX in *; lia).
    apply Int32Facts.wrap_id.
    unfold Int32.in_range, Int32.INT_MIN, Int32.INT_MAX in *; lia.
  - unfold image_sized. rewrite repeat_length. repeat split; lia.
Qed.

(* ================================================================== *)
(** ** Failures of the packer and of the writers *)

Section Failures.

Variable E : externals.
Variable fuel : nat.
Variable args : atlasc_args.

Lemma load_sprite_isfile path spr :
  load_sprite E fuel args path = Some (inr spr) -> sx_os_path_isfile E path = true.
Proof.
  unfold load_sprite. destruct (sx_os_path_isfile E path); [reflexivity|].
  cbn. discriminate.
Qed.

Lemma load_sprites_isfile paths : forall loaded,
  load_sprites E fuel args paths = Some (inr loaded) ->
  forallb (sx_os_path_isfile E) paths = true.
Proof.
  induction paths as [|path rest IH]; intros loaded; cbn [load_sprites forallb];
    [reflexivity|].
  destruct (load_sprite E fuel args path) as [[msg | spr]|] eqn:Hone;
    [discriminate | | discriminate].
  destruct (load_sprites E fuel args rest) as [[msg | sprs]|];
    [discriminate | | discriminate].
  intros _. rewrite (load_sprite_isfile path spr Hone), (IH sprs eq_refl).
  reflexivity.
Qed.

(** [main] returns 0 exactly when the build it starts returns true. *)
Lemma main_of_build loaded out :
  in_filepaths args <> [] ->
  out_filepath args <> None ->
  load_sprites E fuel args (in_filepaths args) = Some (inr loaded) ->
  atlasc_make E fuel args = Some out ->
  main E fuel 0 args = Some (if mk_result out then 0 else -1).
Proof.
  intros Hin Hout Hload Hmake. unfold main. cbn [Z.eqb negb].
  destruct (in_filepaths args) as [|p ps] eqn:Hpaths; [congruence|].
  destruct (out_filepath args); [|congruence].
  rewrite (load_sprites_isfile _ _ Hload). cbn [negb].
  rewrite Hmake. reflexivity.
Qed.

(** What [atlasc__save] returns, writes and prints, by the answers of the
    three writers. *)
Lemma atlasc__save_outcome sprites dst dst_w dst_h out_path :
  out_filepath args = Some out_path ->
  atlasc__save E args sprites dst dst_w dst_h
  = mk_save_outcome
      (sx_file_open_writer E out_path)
      ((if stbi_write_png E (image_path E out_path) dst_w dst_h
        then [PngFile (image_path E out_path) dst_w dst_h dst] else [])
       ++ (if sx_file_open_writer E out_path
           then [if sx_file_write_text E out_path
                 then JsonFile out_path
                        (manifest_for E args sprites dst_w dst_h out_path)
                 else CutFile out_path]
           else []))
      ((if stbi_write_png E (image_path E out_path) dst_w dst_h
        then [] else [("could not write image: " ++ image_path E out_path)%string])
       ++ (if sx_file_open_writer E out_path
           then []
           else [("could not open file for writing: " ++ out_path)%string])).
Proof.
  intros Hout. unfold atlasc__save, image_path, manifest_for, image_path.
  rewrite Hout.
  destruct (sx_os_path_splitext E out_path) as [file_ext basename]. cbn [snd].
  destruct (sx_file_open_writer E out_path); cbn [negb];
    rewrite ?app_nil_r; reflexivity.
Qed.

(** The sheet image is made when the blits fit a sheet of a size within the
    range of [int]. *)
Lemma sheet_made sprites dst_w dst_h :
  0 <= dst_w -> 0 <= dst_h -> dst_h <= Int32.INT_MAX ->
  dst_w * 4 <= Int32.INT_MAX -> dst_w * dst_h * 4 <= Int32.INT_MAX ->
  Forall (blit_fits args dst_w dst_h) sprites ->
  0 <= Int32.mul (Int32.mul dst_w dst_h) 4
  /\ exists dst, sheet_pixels args sprites dst_w dst_h = Some dst.
Proof.
  intros Hw Hh Hh' Hp Ha Hfits.
  destruct (sheet_buffer_cleared dst_w dst_h Hw Hh Hh' Hp Ha) as [Hsize Hd].
  assert (0 <= dst_w * dst_h) by (apply Z.mul_nonneg_nonneg; lia).
  split; [rewrite Hsize; lia|].
  unfold sheet_pixels. rewrite Hsize.
  destruct (blit_sprites_pixels args dst_w dst_h sprites _ Hd Hfits)
    as (dst & Hdst & _).
  exists dst. exact Hdst.
Qed.

(** The sprites of a build whose packer failed are blitted as loaded. *)
Lemma unpacked_sheet loaded :
  pack_ok E args loaded = false ->
  Forall (blit_fits args 4 4) loaded ->
  exists dst, sheet_of E args loaded = Some dst.
Proof.
  intros Hpack Hfits.
  destruct (unpacked_build E args loaded Hpack) as [Hsize Hplaced].
  unfold sheet_of, final_sprites. rewrite Hsize, Hplaced.
  assert (Hall : Forall (blit_fits args 4 4)
                        (if mesh args =? 0 then loaded
                         else map (sprite_uvs args) loaded)).
  { destruct (mesh args =? 0); [exact Hfits|].
    apply Forall_map. revert Hfits. apply Forall_impl.
    intros spr. apply blit_fits_uvs. }
  destruct (sheet_made _ 4 4 ltac:(lia) ltac:(lia)
              ltac:(unfold Int32.INT_MAX; lia) ltac:(unfold Int32.INT_MAX; lia)
              ltac:(unfold Int32.INT_MAX; lia) Hall) as [_ [dst Hdst]].
  exists dst. exact Hdst.
Qed.

Lemma load_sprites_unplaced paths : forall loaded,
  load_sprites E fuel args paths = Some (inr loaded) ->
  Forall (fun spr => sheet_rect spr = sx_irecti 0 0 0 0) loaded.
Proof.
  intros loaded Hload.
  pose proof (load_sprites_each E fuel args _ _ Hload) as Heach.
  revert Heach. apply Forall_impl. intros spr (path & _ & Hone).
  destruct (load_sprite_trim E fuel args path spr Hone)
    as (pixels & _ & _ & _ & _ & _ & Hsheet).
  exact Hsheet.
Qed.

(** When the manifest cannot be opened the build fails and the process
    exits with status 255. *)
Lemma json_open_failure_is_fatal loaded dst out_path :
  in_filepaths args <> [] ->
  out_filepath args = Some out_path ->
  load_sprites E fuel args (in_filepaths args) = Some (inr loaded) ->
  0 <= Int32.add (max_width args) (max_height args) ->
  sheet_of E args loaded = Some dst ->
  sx_file_open_writer E out_path = false ->
  exists out,
    atlasc_make E fuel args = Some out
    /\ mk_result out = false
    /\ main E fuel 0 args = Some (-1)
    /\ exit_status (-1) = 255.
Proof.
  intros Hin Hout Hload Hnodes Hsheet Hopen.
  pose proof (atlasc_make_built E fuel args loaded dst Hload Hnodes Hsheet)
    as Hmake.
  destruct (built_members E args loaded dst) as (_ & _ & _ & _ & Hres & _).
  rewrite (atlasc__save_outcome _ _ _ _ out_path Hout) in Hres.
  cbn [sv_result] in Hres. rewrite Hopen in Hres.
  exists (built E args loaded dst).
  split; [exact Hmake|]. split; [exact Hres|]. split; [|reflexivity].
  rewrite (main_of_build loaded _ Hin ltac:(congruence) Hload Hmake), Hres.
  reflexivity.
Qed.

End Failures.

(** C1, as the code has it.  When the packer cannot place the padded rects
    (its nodes were allocated, the blits of the sprites, which stay at the
    corner of the sheet, fit a sheet of 4 x 4, and the two output files can
    be written), [atlasc_make] does not fail: it sizes a 4 x 4 sheet from the
    untouched bounds, leaves every sheet_rect at zero, writes the PNG and the
    manifest, leaves the error string empty and returns true; [main] returns
    0. *)
Theorem C1_pack_failure_is_not_reported
        (E : externals) (fuel : nat) (args : atlasc_args)
        (loaded : list atlasc__sprite) (out_path : string) :
  in_filepaths args <> [] ->
  out_filepath args = Some out_path ->
  load_sprites E fuel args (in_filepaths args) = Some (inr loaded) ->
  0 <= Int32.add (max_width args) (max_height args) ->
  fst (stbrp_pack_rects E (max_width args) (max_height args)
                        (map (rp_rect_size args) loaded)) = false ->
  Forall (blit_fits args 4 4) loaded ->
  stbi_write_png E (image_path E out_path) 4 4 = true ->
  sx_file_open_writer E out_path = true ->
  sx_file_write_text E out_path = true ->
  exists out dst,
    atlasc_make E fuel args = Some out
    /\ mk_result out = true
    /\ mk_packed out = false
    /\ mk_error_str out = EmptyString
    /\ mk_dst_w out = 4 /\ mk_dst_h out = 4
    /\ Forall (fun spr => sheet_rect spr = sx_irecti 0 0 0 0) (mk_sprites out)
    /\ mk_files out
       = [PngFile (image_path E out_path) 4 4 dst;
          JsonFile out_path (manifest_for E args (mk_sprites out) 4 4 out_path)]
    /\ mk_printed out = []
    /\ main E fuel 0 args = Some 0.
Proof.
  intros Hin Hout Hload Hnodes Hpack Hfits Hpng Hjson Htext.
  fold (pack_ok E args loaded) in Hpack.
  destruct (unpacked_sheet E args loaded Hpack Hfits) as [dst Hsheet].
  pose proof (atlasc_make_built E fuel args loaded dst Hload Hnodes Hsheet)
    as Hmake.
  destruct (built_members E args loaded dst)
    as (Hpk & Herr & Hsprs & Hsize & Hres & Hfiles & Hprinted).
  destruct (unpacked_build E args loaded Hpack) as [Hfour Hplaced].
  rewrite Hfour in Hsize, Hres, Hfiles, Hprinted. cbn [fst snd] in *.
  injection Hsize as Hw Hh.
  rewrite (atlasc__save_outcome E args _ _ _ _ out_path Hout)
    in Hres, Hfiles, Hprinted.
  cbn [sv_result sv_files sv_printed] in Hres, Hfiles, Hprinted.
  rewrite Hpng, Hjson, Htext in *. cbn [app] in Hfiles, Hprinted.
  exists (built E args loaded dst), dst.
  split; [exact Hmake|]. split; [exact Hres|].
  split; [rewrite Hpk; exact Hpack|]. split; [exact Herr|].
  split; [exact Hw|]. split; [exact Hh|].
  split.
  { rewrite Hsprs. unfold final_sprites. rewrite Hplaced.
    pose proof (load_sprites_unplaced E fuel args _ _ Hload) as Hzero.
    destruct (mesh args =? 0); [exact Hzero|].
    apply Forall_map. revert Hzero. apply Forall_impl. intros spr Hspr.
    destruct (sprite_uvs_rects args spr) as (_ & -> & _). exact Hspr. }
  split; [rewrite Hsprs; exact Hfiles|]. split; [exact Hprinted|].
  rewrite (main_of_build E fuel args loaded _ Hin ltac:(congruence) Hload Hmake).
  rewrite Hres. reflexivity.
Qed.

Lemma C1_pack_failure_is_not_reported_witness :
  exists out dst,
    atlasc_make Unfit.E 50 Unfit.args = Some out
    /\ mk_result out = true
    /\ mk_packed out = false
    /\ mk_error_str out = EmptyString
    /\ mk_dst_w out = 4 /\ mk_dst_h out = 4
    /\ Forall (fun spr => sheet_rect spr = sx_irecti 0 0 0 0) (mk_sprites out)
    /\ mk_files out
       = [PngFile (image_path Unfit.E "atlas.json") 4 4 dst;
          JsonFile "atlas.json"
                   (manifest_for Unfit.E Unfit.args (mk_sprites out) 4 4
                                 "atlas.json")]
    /\ mk_printed out = []
    /\ main Unfit.E 50 0 Unfit.args = Some 0.
Proof.
  apply (C1_pack_failure_is_not_reported Unfit.E 50 Unfit.args Unfit.loaded).
  - vm_compute. discriminate.
  - vm_compute. reflexivity.
  - vm_compute. reflexivity.
  - vm_compute. discriminate.
  - vm_compute. reflexivity.
  - replace Unfit.loaded with [Unfit.tile] by (vm_compute; reflexivity).
    constructor; [|constructor].
    vm_compute. repeat split; discriminate.
  - vm_compute. reflexivity.
  - vm_compute. reflexivity.
  - vm_compute. reflexivity.
Defined.

(** C4, as the code has it.  Of the three ways in which the writing of the
    output can fail, only the failure to open the manifest is fatal.  In a
    build that reaches [atlasc__save] and can open the manifest,
    [atlasc_make] returns true and [main] returns 0 whatever the writing of
    the PNG and the writing of the text of the manifest return: when the PNG
    cannot be written a line is printed and no image is left, and when the
    text does not reach the manifest nothing is said at all. *)
Theorem C4_png_write_failure_is_not_fatal
        (E : externals) (fuel : nat) (args : atlasc_args)
        (loaded : list atlasc__sprite) (dst : list Z) (out_path : string) :
  in_filepaths args <> [] ->
  out_filepath args = Some out_path ->
  load_sprites E fuel args (in_filepaths args) = Some (inr loaded) ->
  0 <= Int32.add (max_width args) (max_height args) ->
  sheet_of E args loaded = Some dst ->
  sx_file_open_writer E out_path = true ->
  exists out,
    atlasc_make E fuel args = Some out
    /\ mk_result out = true
    /\ mk_error_str out = EmptyString
    /\ mk_files out
       = (if stbi_write_png E (image_path E out_path) (mk_dst_w out) (mk_dst_h out)
          then [PngFile (image_path E out_path) (mk_dst_w out) (mk_dst_h out) dst]
          else [])
         ++ [if sx_file_write_text E out_path
             then JsonFile out_path
                    (manifest_for E args (mk_sprites out)
                                  (mk_dst_w out) (mk_dst_h out) out_path)
             else CutFile out_path]
    /\ mk_printed out
       = (if stbi_write_png E (image_path E out_path) (mk_dst_w out) (mk_dst_h out)
          then []
          else [("could not write image: " ++ image_path E out_path)%string])
    /\ main E fuel 0 args = Some 0.
Proof.
  intros Hin Hout Hload Hnodes Hsheet Hjson.
  pose proof (atlasc_make_built E fuel args loaded dst Hload Hnodes Hsheet)
    as Hmake.
  destruct (built_members E args loaded dst)
    as (_ & Herr & Hsprs & Hsize & Hres & Hfiles & Hprinted).
  rewrite (atlasc__save_outcome E args _ _ _ _ out_path Hout)
    in Hres, Hfiles, Hprinted.
  cbn [sv_result sv_files sv_printed] in Hres, Hfiles, Hprinted.
  rewrite Hjson in *. rewrite app_nil_r in Hprinted.
  assert (Hw : fst (sheet_size E args loaded) = mk_dst_w (built E args loaded dst))
    by (rewrite <- Hsize; reflexivity).
  assert (Hh : snd (sheet_size E args loaded) = mk_dst_h (built E args loaded dst))
    by (rewrite <- Hsize; reflexivity).
  rewrite Hw, Hh, <- Hsprs in Hfiles. rewrite Hw, Hh in Hprinted.
  exists (built E args loaded dst).
  split; [exact Hmake|]. split; [exact Hres|]. split; [exact Herr|].
  split; [exact Hfiles|]. split; [exact Hprinted|].
  rewrite (main_of_build E fuel args loaded _ Hin ltac:(congruence) Hload Hmake).
  rewrite Hres. reflexivity.
Qed.

Lemma C4_png_write_failure_is_not_fatal_witness :
  exists out,
    atlasc_make NoPng.E 50 Sample.args = Some out
    /\ mk_result out = true
    /\ mk_error_str out = EmptyString
    /\ mk_files out
       = (if stbi_write_png NoPng.E (image_path NoPng.E "atlas.json")
                            (mk_dst_w out) (mk_dst_h out)
          then [PngFile (image_path NoPng.E "atlas.json")
                        (mk_dst_w out) (mk_dst_h out) NoPng.sheet]
          else [])
         ++ [if sx_file_write_text NoPng.E "atlas.json"
             then JsonFile "atlas.json"
                    (manifest_for NoPng.E Sample.args (mk_sprites out)
                                  (mk_dst_w out) (mk_dst_h out) "atlas.json")
             else CutFile "atlas.json"]
    /\ mk_printed out
       = (if stbi_write_png NoPng.E (image_path NoPng.E "atlas.json")
                            (mk_dst_w out) (mk_dst_h out)
          then []
          else [("could not write image: "
                 ++ image_path NoPng.E "atlas.json")%string])
    /\ main NoPng.E 50 0 Sample.args = Some 0.
Proof.
  apply (C4_png_write_failure_is_not_fatal NoPng.E 50 Sample.args NoPng.loaded
                                           NoPng.sheet).
  - vm_compute. discriminate.
  - vm_compute. reflexivity.
  - vm_compute. reflexivity.
  - vm_compute. discriminate.
  - vm_compute. reflexivity.
  - vm_compute. reflexivity.
Defined.

(* ################################################################## *)
(** * Further properties of the code *)

(* ================================================================== *)
(** ** atlasc__test_line: what the walk visits *)

Section LineWalk.

Variables (buffer : mask) (w h x1 y1 dx sx dy sy : Z).

(** The pixel test at the head of the loop body. *)
Lemma test_line_body_hit s :
  test_line_body buffer w h x1 y1 dx sx dy sy s = inl true ->
  0 <= ls_x0 s < w /\ 0 <= ls_y0 s < h
  /\ byte_at buffer (ls_y0 s * w + ls_x0 s) <> 0.
Proof.
  unfold test_line_body.
  destruct ((ls_x0 s >? -1) && (ls_y0 s >? -1) && (ls_x0 s <? w)
            && (ls_y0 s <? h)
            && negb (byte_at buffer (ls_y0 s * w + ls_x0 s) =? 0)) eqn:Hpix.
  - intros _.
    repeat (apply andb_true_iff in Hpix; destruct Hpix as [Hpix ?]).
    apply negb_true_iff in H. apply Z.eqb_neq in H. lia.
  - destruct ((ls_x0 s =? x1) && (ls_y0 s =? y1)); [discriminate|].
    destruct (2 * ls_err s >=? dy); destruct (2 * ls_err s <=? dx);
      discriminate.
Qed.

Lemma test_line_body_miss s :
  test_line_body buffer w h x1 y1 dx sx dy sy s = inl false ->
  ls_x0 s = x1 /\ ls_y0 s = y1
  /\ (0 <= x1 < w -> 0 <= y1 < h -> byte_at buffer (y1 * w + x1) = 0).
Proof.
  unfold test_line_body.
  destruct ((ls_x0 s >? -1) && (ls_y0 s >? -1) && (ls_x0 s <? w)
            && (ls_y0 s <? h)
            && negb (byte_at buffer (ls_y0 s * w + ls_x0 s) =? 0)) eqn:Hpix;
    [discriminate|].
  destruct ((ls_x0 s =? x1) && (ls_y0 s =? y1)) eqn:Hend.
  - intros _. apply andb_true_iff in Hend. destruct Hend as [Hx Hy].
    apply Z.eqb_eq in Hx. apply Z.eqb_eq in Hy. rewrite Hx, Hy in Hpix.
    split; [exact Hx|]. split; [exact Hy|]. intros Hxw Hyh.
    destruct (Z.eqb_spec (byte_at buffer (y1 * w + x1)) 0) as [Hz | Hnz];
      [exact Hz|].
    exfalso.
    assert (Hin : (x1 >? -1) && (y1 >? -1) && (x1 <? w) && (y1 <? h) = true).
    { repeat (apply andb_true_iff; split); lia. }
    rewrite Hin in Hpix. cbn in Hpix. discriminate.
  - destruct (2 * ls_err s >=? dy); destruct (2 * ls_err s <=? dx);
      discriminate.
Qed.

(** More fuel does not change what the loop returns. *)
Lemma test_line_loop_more fuel : forall s b extra,
  test_line_loop fuel buffer w h x1 y1 dx sx dy sy s = Some b ->
  test_line_loop (fuel + extra) buffer w h x1 y1 dx sx dy sy s = Some b.
Proof.
  induction fuel as [|fuel IH]; intros s b extra; cbn [test_line_loop Nat.add];
    [discriminate|].
  destruct (test_line_body buffer w h x1 y1 dx sx dy sy s) as [r | s'].
  - auto.
  - apply IH.
Qed.

(** The loop returns false only at the far end point, after testing it. *)
Lemma test_line_loop_miss fuel : forall s,
  test_line_loop fuel buffer w h x1 y1 dx sx dy sy s = Some false ->
  0 <= x1 < w -> 0 <= y1 < h -> byte_at buffer (y1 * w + x1) = 0.
Proof.
  induction fuel as [|fuel IH]; intros s; cbn [test_line_loop]; [discriminate|].
  destruct (test_line_body buffer w h x1 y1 dx sx dy sy s) as [r | s'] eqn:Hbody.
  - intros Hr. injection Hr as ->.
    apply test_line_body_miss in Hbody. tauto.
  - apply IH.
Qed.

Hypothesis Hdx : 0 <= dx.
Hypothesis Hdy : dy <= 0.
Hypothesis Hsx : sx = 1 \/ sx = -1.
Hypothesis Hsy : sy = 1 \/ sy = -1.

(** A hit is a set pixel of the image among the positions that the
    invariant allows. *)
Lemma test_line_loop_hit fuel : forall s rx ry,
  line_inv x1 y1 dx sx dy sy s rx ry ->
  test_line_loop fuel buffer w h x1 y1 dx sx dy sy s = Some true ->
  exists kx ky,
    0 <= kx <= dx /\ 0 <= ky <= - dy
    /\ 0 <= x1 - kx * sx < w /\ 0 <= y1 - ky * sy < h
    /\ byte_at buffer ((y1 - ky * sy) * w + (x1 - kx * sx)) <> 0.
Proof.
  induction fuel as [|fuel IH]; intros s rx ry Hinv; cbn [test_line_loop];
    [discriminate|].
  destruct (test_line_body_progress buffer w h x1 y1 dx sx dy sy
                                    Hdx Hdy Hsx Hsy s rx ry Hinv)
    as [[b Hb] | (s' & rx' & ry' & Hb & Hinv' & _)]; rewrite Hb.
  - intros Hr. injection Hr as ->.
    apply test_line_body_hit in Hb.
    destruct Hinv as (Hrx & Hry & Hx & Hy & _).
    exists rx, ry. rewrite <- Hx, <- Hy. tauto.
  - apply (IH s' rx' ry' Hinv').
Qed.

End LineWalk.

(** X1. The [while (1)] loop of [atlasc__test_line] leaves on every mask and
    every pair of end points, after at most one turn per pixel step between
    them ([|x1 - x0| + |y1 - y0| + 1] turns); a larger budget of turns gives
    the same answer. *)
Theorem test_line_returns_within_bound
        (buffer : mask) (w h : Z) (p0 p1 : s2o_point) (fuel : nat) :
  (test_line_fuel p0 p1 <= fuel)%nat ->
  test_line_loop fuel buffer w h (vx p1) (vy p1)
                 (Z.abs (vx p1 - vx p0)) (if vx p0 <? vx p1 then 1 else -1)
                 (- Z.abs (vy p1 - vy p0)) (if vy p0 <? vy p1 then 1 else -1)
                 (mk_line_state (vx p0) (vy p0)
                    (Z.abs (vx p1 - vx p0) + - Z.abs (vy p1 - vy p0)))
  = Some (atlasc__test_line buffer w h p0 p1).
Proof.
  intros Hfuel.
  replace fuel with (test_line_fuel p0 p1 + (fuel - test_line_fuel p0 p1))%nat
    by lia.
  apply test_line_loop_more.
  exact (test_line_run_eq buffer w h p0 p1).
Qed.

Lemma test_line_returns_within_bound_witness :
  test_line_loop 40 Stuck.thresholded 5 4 4 3
                 (Z.abs (4 - 2)) (if 2 <? 4 then 1 else -1)
                 (- Z.abs (3 - 0)) (if 0 <? 3 then 1 else -1)
                 (mk_line_state 2 0 (Z.abs (4 - 2) + - Z.abs (3 - 0)))
  = Some (atlasc__test_line Stuck.thresholded 5 4
                            (sx_ivec2i 2 0) (sx_ivec2i 4 3)).
Proof.
  apply (test_line_returns_within_bound Stuck.thresholded 5 4
           (sx_ivec2i 2 0) (sx_ivec2i 4 3) 40).
  vm_compute. lia.
Defined.

(** A hit of the line test is a set pixel that lies some steps short of the
    far end point along each axis. *)
Lemma test_line_hit_steps (buffer : mask) (w h : Z) (p0 p1 : s2o_point) :
  atlasc__test_line buffer w h p0 p1 = true ->
  exists kx ky,
    0 <= kx <= Z.abs (vx p1 - vx p0) /\ 0 <= ky <= Z.abs (vy p1 - vy p0)
    /\ 0 <= vx p1 - kx * (if vx p0 <? vx p1 then 1 else -1) < w
    /\ 0 <= vy p1 - ky * (if vy p0 <? vy p1 then 1 else -1) < h
    /\ byte_at buffer
         ((vy p1 - ky * (if vy p0 <? vy p1 then 1 else -1)) * w
          + (vx p1 - kx * (if vx p0 <? vx p1 then 1 else -1))) <> 0.
Proof.
  intros Hhit.
  pose proof (test_line_run_eq buffer w h p0 p1) as Hrun.
  rewrite Hhit in Hrun. unfold atlasc__test_line_run in Hrun.
  apply test_line_loop_hit
    with (rx := Z.abs (vx p1 - vx p0)) (ry := Z.abs (vy p1 - vy p0)) in Hrun.
  - destruct Hrun as (kx & ky & Hkx & Hky & Hx & Hy & Hset).
    exists kx, ky. repeat split; try tauto; lia.
  - lia.
  - lia.
  - destruct (vx p0 <? vx p1); auto.
  - destruct (vy p0 <? vy p1); auto.
  - unfold line_inv; cbn.
    destruct (Z.ltb_spec (vx p0) (vx p1)); destruct (Z.ltb_spec (vy p0) (vy p1));
      repeat split; lia.
Qed.

(** X2. When [atlasc__test_line] returns true there is a set byte of the
    mask at a pixel inside the image that lies in the bounding box of the two
    end points: the test never reports a hit outside the image or away from
    the segment's box. *)
Theorem test_line_hit_is_set_pixel
        (buffer : mask) (w h : Z) (p0 p1 : s2o_point) :
  atlasc__test_line buffer w h p0 p1 = true ->
  exists x y,
    Z.min (vx p0) (vx p1) <= x <= Z.max (vx p0) (vx p1)
    /\ Z.min (vy p0) (vy p1) <= y <= Z.max (vy p0) (vy p1)
    /\ 0 <= x < w /\ 0 <= y < h
    /\ byte_at buffer (y * w + x) <> 0.
Proof.
  intros Hhit.
  destruct (test_line_hit_steps buffer w h p0 p1 Hhit)
    as (kx & ky & Hkx & Hky & Hx & Hy & Hset).
  exists (vx p1 - kx * (if vx p0 <? vx p1 then 1 else -1)),
         (vy p1 - ky * (if vy p0 <? vy p1 then 1 else -1)).
  split; [destruct (Z.ltb_spec (vx p0) (vx p1)); lia|].
  split; [destruct (Z.ltb_spec (vy p0) (vy p1)); lia|].
  split; [exact Hx|]. split; [exact Hy | exact Hset].
Qed.

Lemma test_line_hit_is_set_pixel_witness :
  exists x y,
    Z.min 2 4 <= x <= Z.max 2 4 /\ Z.min 0 3 <= y <= Z.max 0 3
    /\ 0 <= x < 5 /\ 0 <= y < 4
    /\ byte_at Stuck.thresholded (y * 5 + x) <> 0.
Proof.
  apply (test_line_hit_is_set_pixel Stuck.thresholded 5 4
           (sx_ivec2i 2 0) (sx_ivec2i 4 3)).
  vm_compute. reflexivity.
Defined.

(** X3. When [atlasc__test_line] returns false, both end points have been
    tested: neither of them, if it lies inside the image, is a set pixel of
    the mask. *)
Theorem test_line_miss_clears_end_points
        (buffer : mask) (w h : Z) (p0 p1 : s2o_point) :
  atlasc__test_line buffer w h p0 p1 = false ->
  (0 <= vx p0 < w -> 0 <= vy p0 < h -> byte_at buffer (vy p0 * w + vx p0) = 0)
  /\ (0 <= vx p1 < w -> 0 <= vy p1 < h -> byte_at buffer (vy p1 * w + vx p1) = 0).
Proof.
  intros Hmiss.
  pose proof (test_line_run_eq buffer w h p0 p1) as Hrun.
  rewrite Hmiss in Hrun. unfold atlasc__test_line_run in Hrun.
  split.
  - intros Hx Hy. unfold test_line_fuel in Hrun. cbn [test_line_loop] in Hrun.
    destruct (Z.eqb_spec (byte_at buffer (vy p0 * w + vx p0)) 0) as [Hz | Hnz];
      [exact Hz|].
    exfalso. unfold test_line_body in Hrun. cbn [ls_x0 ls_y0 ls_err] in Hrun.
    assert (Hin : (vx p0 >? -1) && (vy p0 >? -1) && (vx p0 <? w) && (vy p0 <? h)
                  && negb (byte_at buffer (vy p0 * w + vx p0) =? 0) = true).
    { repeat (apply andb_true_iff; split); lia. }
    rewrite Hin in Hrun. discriminate.
  - exact (test_line_loop_miss buffer w h _ _ _ _ _ _ _ _ Hrun).
Qed.

Lemma test_line_miss_clears_end_points_witness :
  (0 <= 2 < 5 -> 0 <= 0 < 4 -> byte_at Stuck.thresholded (0 * 5 + 2) = 0)
  /\ (0 <= 2 < 5 -> 0 <= 3 < 4 -> byte_at Stuck.thresholded (3 * 5 + 2) = 0).
Proof.
  apply (test_line_miss_clears_end_points Stuck.thresholded 5 4
           (sx_ivec2i 2 0) (sx_ivec2i 2 3)).
  vm_compute. reflexivity.
Defined.

(** *** Segments along an axis *)

Section AxisWalk.

Variables (buffer : mask) (w h x1 y1 dx sx dy sy : Z).
Hypothesis Hsx : sx = 1 \/ sx = -1.
Hypothesis Hsy : sy = 1 \/ sy = -1.

Lemma test_line_body_set s :
  0 <= ls_x0 s < w -> 0 <= ls_y0 s < h ->
  byte_at buffer (ls_y0 s * w + ls_x0 s) <> 0 ->
  test_line_body buffer w h x1 y1 dx sx dy sy s = inl true.
Proof.
  intros Hx Hy Hset. unfold test_line_body.
  assert (Hin : (ls_x0 s >? -1) && (ls_y0 s >? -1) && (ls_x0 s <? w)
                && (ls_y0 s <? h)
                && negb (byte_at buffer (ls_y0 s * w + ls_x0 s) =? 0) = true).
  { repeat (apply andb_true_iff; split); lia. }
  rewrite Hin. reflexivity.
Qed.

(** On a horizontal segment the walk tests every pixel up to the far end. *)
Lemma test_line_loop_row fuel : forall s rx k,
  dy = 0 -> line_inv x1 y1 dx sx dy sy s rx 0 ->
  rx < Z.of_nat fuel -> 0 <= k <= rx ->
  0 <= x1 - k * sx < w -> 0 <= y1 < h ->
  byte_at buffer (y1 * w + (x1 - k * sx)) <> 0 ->
  test_line_loop fuel buffer w h x1 y1 dx sx dy sy s = Some true.
Proof.
  induction fuel as [|fuel IH]; intros s rx k Hflat Hinv Hfuel Hk Hx Hy Hset;
    [lia|].
  cbn [test_line_loop].
  destruct Hinv as (Hrx & Hry & Hx0 & Hy0 & Herr).
  destruct (Z.eq_dec k rx) as [-> | Hlt].
  { rewrite test_line_body_set; [reflexivity| | |];
      rewrite ?Hx0, ?Hy0; try lia.
    replace (y1 - 0 * sy) with y1 by lia. exact Hset. }
  unfold test_line_body.
  destruct ((ls_x0 s >? -1) && (ls_y0 s >? -1) && (ls_x0 s <? w)
            && (ls_y0 s <? h)
            && negb (byte_at buffer (ls_y0 s * w + ls_x0 s) =? 0));
    [reflexivity|].
  assert (Hgo : (ls_x0 s =? x1) && (ls_y0 s =? y1) = false).
  { apply andb_false_iff. left. apply Z.eqb_neq. nia. }
  rewrite Hgo.
  assert (Hcx : (2 * ls_err s >=? dy) = true) by lia.
  assert (Hcy : (2 * ls_err s <=? dx) = false) by lia.
  rewrite Hcx, Hcy.
  apply (IH _ (rx - 1) k Hflat); try assumption; try lia.
  unfold line_inv; cbn. repeat split; nia.
Qed.

(** On a vertical segment likewise. *)
Lemma test_line_loop_column fuel : forall s ry k,
  dx = 0 -> line_inv x1 y1 dx sx dy sy s 0 ry ->
  ry < Z.of_nat fuel -> 0 <= k <= ry ->
  0 <= x1 < w -> 0 <= y1 - k * sy < h ->
  byte_at buffer ((y1 - k * sy) * w + x1) <> 0 ->
  test_line_loop fuel buffer w h x1 y1 dx sx dy sy s = Some true.
Proof.
  induction fuel as [|fuel IH]; intros s ry k Hflat Hinv Hfuel Hk Hx Hy Hset;
    [lia|].
  cbn [test_line_loop].
  destruct Hinv as (Hrx & Hry & Hx0 & Hy0 & Herr).
  destruct (Z.eq_dec k ry) as [-> | Hlt].
  { rewrite test_line_body_set; [reflexivity| | |];
      rewrite ?Hx0, ?Hy0; try lia.
    replace (x1 - 0 * sx) with x1 by lia. exact Hset. }
  unfold test_line_body.
  destruct ((ls_x0 s >? -1) && (ls_y0 s >? -1) && (ls_x0 s <? w)
            && (ls_y0 s <? h)
            && negb (byte_at buffer (ls_y0 s * w + ls_x0 s) =? 0));
    [reflexivity|].
  assert (Hgo : (ls_x0 s =? x1) && (ls_y0 s =? y1) = false).
  { apply andb_false_iff. right. apply Z.eqb_neq. nia. }
  rewrite Hgo.
  assert (Hcx : (2 * ls_err s >=? dy) = false) by lia.
  assert (Hcy : (2 * ls_err s <=? dx) = true) by lia.
  rewrite Hcx, Hcy.
  apply (IH _ (ry - 1) k Hflat); try assumption; try lia.
  unfold line_inv; cbn. repeat split; nia.
Qed.

End AxisWalk.

(** X4. On a horizontal or vertical segment the line test is exact: it
    returns true if and only if some pixel of the segment that lies inside
    the image is a set byte of the mask. *)
Theorem test_line_axis_aligned_exact
        (buffer : mask) (w h : Z) (p0 p1 : s2o_point) :
  vx p0 = vx p1 \/ vy p0 = vy p1 ->
  (atlasc__test_line buffer w h p0 p1 = true
   <-> exists x y,
         Z.min (vx p0) (vx p1) <= x <= Z.max (vx p0) (vx p1)
         /\ Z.min (vy p0) (vy p1) <= y <= Z.max (vy p0) (vy p1)
         /\ 0 <= x < w /\ 0 <= y < h
         /\ byte_at buffer (y * w + x) <> 0).
Proof.
  intros Haxis. split.
  { intros Hhit.
    destruct (test_line_hit_steps buffer w h p0 p1 Hhit)
      as (kx & ky & Hkx & Hky & Hx & Hy & Hset).
    exists (vx p1 - kx * (if vx p0 <? vx p1 then 1 else -1)),
           (vy p1 - ky * (if vy p0 <? vy p1 then 1 else -1)).
    split; [destruct (Z.ltb_spec (vx p0) (vx p1)); lia|].
    split; [destruct (Z.ltb_spec (vy p0) (vy p1)); lia|].
    split; [exact Hx|]. split; [exact Hy | exact Hset]. }
  intros (x & y & Hbx & Hby & Hx & Hy & Hset).
  unfold atlasc__test_line, atlasc__test_line_run.
  match goal with
  | |- match ?run with _ => _ end = true =>
      assert (Hrun : run = Some true); [|rewrite Hrun; reflexivity]
  end.
  destruct Haxis as [Hv | Hh].
  - (* vertical *)
    assert (x = vx p1) by lia. subst x.
    apply test_line_loop_column
      with (ry := Z.abs (vy p1 - vy p0))
           (k := (vy p1 - y) * (if vy p0 <? vy p1 then 1 else -1)).
    + destruct (vy p0 <? vy p1); auto.
    + lia.
    + unfold line_inv; cbn.
      destruct (Z.ltb_spec (vx p0) (vx p1)); destruct (Z.ltb_spec (vy p0) (vy p1));
        repeat split; lia.
    + unfold test_line_fuel. lia.
    + destruct (Z.ltb_spec (vy p0) (vy p1)); lia.
    + exact Hx.
    + destruct (Z.ltb_spec (vy p0) (vy p1)); lia.
    + replace (vy p1 - (vy p1 - y) * (if vy p0 <? vy p1 then 1 else -1)
                       * (if vy p0 <? vy p1 then 1 else -1)) with y
        by (destruct (vy p0 <? vy p1); lia).
      exact Hset.
  - (* horizontal *)
    assert (y = vy p1) by lia. subst y.
    apply test_line_loop_row
      with (rx := Z.abs (vx p1 - vx p0))
           (k := (vx p1 - x) * (if vx p0 <? vx p1 then 1 else -1)).
    + destruct (vx p0 <? vx p1); auto.
    + lia.
    + unfold line_inv; cbn.
      destruct (Z.ltb_spec (vx p0) (vx p1)); destruct (Z.ltb_spec (vy p0) (vy p1));
        repeat split; lia.
    + unfold test_line_fuel. lia.
    + destruct (Z.ltb_spec (vx p0) (vx p1)); lia.
    + destruct (Z.ltb_spec (vx p0) (vx p1)); lia.
    + exact Hy.
    + replace (vx p1 - (vx p1 - x) * (if vx p0 <? vx p1 then 1 else -1)
                       * (if vx p0 <? vx p1 then 1 else -1)) with x
        by (destruct (vx p0 <? vx p1); lia).
      exact Hset.
Qed.

Lemma test_line_axis_aligned_exact_witness :
  atlasc__test_line Stuck.thresholded 5 4 (sx_ivec2i 0 1) (sx_ivec2i 4 1) = true
  <-> exists x y,
        Z.min 0 4 <= x <= Z.max 0 4 /\ Z.min 1 1 <= y <= Z.max 1 1
        /\ 0 <= x < 5 /\ 0 <= y < 4
        /\ byte_at Stuck.thresholded (y * 5 + x) <> 0.
Proof.
  apply (test_line_axis_aligned_exact Stuck.thresholded 5 4
           (sx_ivec2i 0 1) (sx_ivec2i 4 1)).
  right. reflexivity.
Defined.

(* ================================================================== *)
(** ** atlasc__offset_pt and atlasc__fix_outline_pts: what they leave alone *)

Section Moves.

Lemma pt_set_length pts : forall i p, length (pt_set pts i p) = length pts.
Proof.
  induction pts as [|q rest IH]; intros i p; [reflexivity|].
  destruct i; cbn [pt_set length]; [reflexivity|].
  f_equal. apply IH.
Qed.

Lemma pt_at_set_same pts : forall i p,
  (i < length pts)%nat -> pt_at (pt_set pts i p) i = p.
Proof.
  unfold pt_at.
  induction pts as [|q rest IH]; intros i p Hi; cbn [length] in Hi; [lia|].
  destruct i; cbn [pt_set nth]; [reflexivity|].
  apply IH. lia.
Qed.

Lemma pt_at_set_other pts : forall i j p,
  j <> i -> pt_at (pt_set pts i p) j = pt_at pts j.
Proof.
  unfold pt_at.
  induction pts as [|q rest IH]; intros i j p Hji; [reflexivity|].
  destruct i; destruct j; cbn [pt_set nth]; try reflexivity; try congruence.
  apply IH. congruence.
Qed.

Lemma pt_set_Forall2 {A} (R : A -> s2o_point -> Prop) orig : forall pts i p,
  Forall2 R orig pts -> (forall o, R o p) -> Forall2 R orig (pt_set pts i p).
Proof.
  induction orig as [|o rest IH]; intros pts i p Hall Hp;
    inversion Hall as [|? q ? pts' Hq Hrest]; subst; cbn [pt_set].
  - constructor.
  - destruct i; constructor; auto.
Qed.

End Moves.

(** X5. [atlasc__offset_pt] writes one element of the buffer and nothing
    else: the number of points and every point but [pts[pt_idx]] are as
    before; the point written lies on the grid [0,w] x [0,h] whatever the
    float computation gave; and, as the comment on the function says, it
    returns true exactly when the buffer is changed. *)
Theorem offset_pt_writes_one_point
        (pts : list s2o_point) (num_pts pt_idx : nat) (amount : F32.float)
        (w h : Z) :
  (pt_idx < length pts)%nat -> 0 <= w -> 0 <= h ->
  let r := atlasc__offset_pt pts num_pts pt_idx amount w h in
  length (snd r) = length pts
  /\ (forall j, j <> pt_idx -> pt_at (snd r) j = pt_at pts j)
  /\ within_image (sx_ivec2i w h) (pt_at (snd r) pt_idx)
  /\ (fst r = true <-> snd r <> pts).
Proof.
  intros Hi Hw Hh r.
  pose proof (offset_pt_unchanged w h pts num_pts pt_idx amount) as Hsame.
  fold r in Hsame.
  assert (Hflag : fst r = false -> snd r = pts) by exact Hsame.
  clear Hsame. subst r. revert Hflag.
  unfold atlasc__offset_pt. cbv zeta. cbn [fst snd].
  set (new := sx_ivec2i (sx_clamp _ 0 w) (sx_clamp _ 0 h)).
  intros Hflag.
  split; [apply pt_set_length|].
  split; [intros j Hj; apply pt_at_set_other; exact Hj|].
  split.
  { rewrite pt_at_set_same by exact Hi. unfold within_image, new. cbn [vx vy].
    split; apply sx_clamp_range; assumption. }
  split.
  - intros Hchanged Heq.
    assert (Hnew : pt_at pts pt_idx = new).
    { rewrite <- Heq at 1. apply pt_at_set_same. exact Hi. }
    rewrite Hnew in Hchanged.
    rewrite !Z.eqb_refl in Hchanged. discriminate.
  - intros Hneq.
    destruct (negb (vx (pt_at pts pt_idx) =? vx new)
              || negb (vy (pt_at pts pt_idx) =? vy new)) eqn:Hf; [reflexivity|].
    exfalso. apply Hneq. apply Hflag. reflexivity.
Qed.

Lemma offset_pt_writes_one_point_witness :
  let r := atlasc__offset_pt Stuck.pts 4 0 offset_amount 5 4 in
  length (snd r) = length Stuck.pts
  /\ (forall j, j <> O -> pt_at (snd r) j = pt_at Stuck.pts j)
  /\ within_image (sx_ivec2i 5 4) (pt_at (snd r) 0)
  /\ (fst r = true <-> snd r <> Stuck.pts).
Proof.
  apply (offset_pt_writes_one_point Stuck.pts 4 0 offset_amount 5 4).
  - vm_compute. lia.
  - lia.
  - lia.
Defined.

Section Sweep.

Variables (m : mask) (tw th : Z).

(** A vertex is where it was, or on the grid [0,tw] x [0,th]. *)
Lemma offset_pt_moved orig pts num_pts i amount :
  0 <= tw -> 0 <= th ->
  Forall2 (fun o p => p = o \/ within_image (sx_ivec2i tw th) p) orig pts ->
  Forall2 (fun o p => p = o \/ within_image (sx_ivec2i tw th) p) orig
          (snd (atlasc__offset_pt pts num_pts i amount tw th)).
Proof.
  intros Hw Hh Hall. unfold atlasc__offset_pt. cbv zeta. cbn [snd].
  apply pt_set_Forall2; [exact Hall|].
  intros o. right. unfold within_image. cbn [vx vy].
  split; apply sx_clamp_range; assumption.
Qed.

Lemma fix_edge_loop_moved fuel orig num_pts i next_i : forall pts pts',
  0 <= tw -> 0 <= th ->
  Forall2 (fun o p => p = o \/ within_image (sx_ivec2i tw th) p) orig pts ->
  fix_edge_loop fuel m tw th pts num_pts i next_i = Some pts' ->
  Forall2 (fun o p => p = o \/ within_image (sx_ivec2i tw th) p) orig pts'.
Proof.
  induction fuel as [|fuel IH]; intros pts pts' Hw Hh Hall;
    cbn [fix_edge_loop]; [discriminate|].
  destruct (atlasc__test_line m tw th (pt_at pts i) (pt_at pts next_i)).
  - pose proof (offset_pt_moved orig pts num_pts i offset_amount Hw Hh Hall) as H1.
    destruct (atlasc__offset_pt pts num_pts i offset_amount tw th)
      as [changed pts1]. cbn [snd] in H1.
    destruct changed.
    + pose proof (offset_pt_moved orig pts1 num_pts next_i offset_amount
                                  Hw Hh H1) as H2.
      destruct (atlasc__offset_pt pts1 num_pts next_i offset_amount tw th)
        as [moved pts2]. cbn [snd] in H2.
      apply IH; assumption.
    + intros H. injection H as <-. exact H1.
  - intros H. injection H as <-. exact Hall.
Qed.

Lemma fix_edges_from_moved fuel orig num_pts todo : forall i pts pts',
  0 <= tw -> 0 <= th ->
  Forall2 (fun o p => p = o \/ within_image (sx_ivec2i tw th) p) orig pts ->
  fix_edges_from fuel m tw th num_pts todo i pts = Some pts' ->
  Forall2 (fun o p => p = o \/ within_image (sx_ivec2i tw th) p) orig pts'.
Proof.
  induction todo as [|todo IH]; intros i pts pts' Hw Hh Hall;
    cbn [fix_edges_from].
  - intros H. injection H as <-. exact Hall.
  - destruct (fix_edge_loop fuel m tw th pts num_pts i (next_index i num_pts))
      as [pts1|] eqn:Hedge; [|discriminate].
    apply IH; try assumption.
    apply (fix_edge_loop_moved fuel orig num_pts i (next_index i num_pts) pts pts1);
      assumption.
Qed.

(** Edges that the line test clears are passed over. *)
Lemma fix_edges_from_clear fuel num_pts pts todo : forall i,
  (i + todo <= num_pts)%nat ->
  (forall j, (j < num_pts)%nat ->
             atlasc__test_line m tw th (pt_at pts j)
                               (pt_at pts (next_index j num_pts)) = false) ->
  fix_edges_from (S fuel) m tw th num_pts todo i pts = Some pts.
Proof.
  induction todo as [|todo IH]; intros i Hi Hclear; [reflexivity|].
  cbn [fix_edges_from fix_edge_loop].
  rewrite (Hclear i) by lia.
  apply IH; [lia | exact Hclear].
Qed.

End Sweep.

(** X6. A polygon none of whose edges meets the mask under the line test is
    returned by [atlasc__fix_outline_pts] as it is, after one line test per
    edge: no vertex is moved.  In particular the corrector changes nothing
    on a mask without a set pixel. *)
Theorem fix_outline_pts_keeps_clear_polygon
        (fuel : nat) (m : mask) (tw th : Z) (pts : list s2o_point)
        (num_pts : nat) :
  (forall j, (j < num_pts)%nat ->
             atlasc__test_line m tw th (pt_at pts j)
                               (pt_at pts (next_index j num_pts)) = false) ->
  atlasc__fix_outline_pts (S fuel) m tw th pts num_pts = Some pts.
Proof.
  intros Hclear. unfold atlasc__fix_outline_pts.
  apply fix_edges_from_clear; [lia | exact Hclear].
Qed.

Lemma fix_outline_pts_keeps_clear_polygon_witness :
  atlasc__fix_outline_pts 1 Stuck.thresholded 5 4
    [sx_ivec2i 0 0; sx_ivec2i 2 0; sx_ivec2i 2 3; sx_ivec2i 0 3] 4
  = Some [sx_ivec2i 0 0; sx_ivec2i 2 0; sx_ivec2i 2 3; sx_ivec2i 0 3].
Proof.
  apply (fix_outline_pts_keeps_clear_polygon 0 Stuck.thresholded 5 4
           [sx_ivec2i 0 0; sx_ivec2i 2 0; sx_ivec2i 2 3; sx_ivec2i 0 3] 4).
  intros j Hj.
  destruct j as [|[|[|[|j]]]]; [vm_compute; reflexivity ..| lia].
Defined.

(** X7. When [atlasc__fix_outline_pts] returns, the polygon has as many
    vertices as before, and every vertex is either the vertex passed in at
    that index or a point of the grid [0,tw] x [0,th]: the corrector never
    adds, drops or reorders vertices and never moves one off the image. *)
Theorem fix_outline_pts_moves_within_image
        (fuel : nat) (m : mask) (tw th : Z) (pts pts' : list s2o_point)
        (num_pts : nat) :
  0 <= tw -> 0 <= th ->
  atlasc__fix_outline_pts fuel m tw th pts num_pts = Some pts' ->
  length pts' = length pts
  /\ Forall2 (fun o p => p = o \/ within_image (sx_ivec2i tw th) p) pts pts'.
Proof.
  intros Hw Hh Hfix.
  assert (Hall : Forall2 (fun o p => p = o \/ within_image (sx_ivec2i tw th) p)
                         pts pts').
  { apply (fix_edges_from_moved m tw th fuel pts num_pts num_pts O pts pts' Hw Hh);
      [|exact Hfix].
    clear. induction pts; constructor; auto. }
  split; [|exact Hall].
  symmetry. exact (Forall2_length Hall).
Qed.

Lemma fix_outline_pts_moves_within_image_witness :
  length [sx_ivec2i 0 0; sx_ivec2i 5 0; sx_ivec2i 4 3; sx_ivec2i 2 3]
  = length [sx_ivec2i 2 1; sx_ivec2i 4 1; sx_ivec2i 4 3; sx_ivec2i 2 3]
  /\ Forall2 (fun o p => p = o \/ within_image (sx_ivec2i 5 4) p)
             [sx_ivec2i 2 1; sx_ivec2i 4 1; sx_ivec2i 4 3; sx_ivec2i 2 3]
             [sx_ivec2i 0 0; sx_ivec2i 5 0; sx_ivec2i 4 3; sx_ivec2i 2 3].
Proof.
  apply (fix_outline_pts_moves_within_image 20 Stuck.thresholded 5 4
           [sx_ivec2i 2 1; sx_ivec2i 4 1; sx_ivec2i 4 3; sx_ivec2i 2 3]
           [sx_ivec2i 0 0; sx_ivec2i 5 0; sx_ivec2i 4 3; sx_ivec2i 2 3] 4).
  - lia.
  - lia.
  - vm_compute. reflexivity.
Defined.

(* ================================================================== *)
(** ** The loading loop of atlasc_make *)

Section Bounds.

(** The fold of [sx_irect_add_point] over the points of an outline. *)
Lemma fold_add_point_grows pts : forall rc,
  let r := fold_left sx_irect_add_point pts rc in
  xmin r <= xmin rc /\ ymin r <= ymin rc
  /\ xmax rc <= xmax r /\ ymax rc <= ymax r
  /\ Forall (within_rect r) pts.
Proof.
  induction pts as [|p rest IH]; intros rc; cbv zeta; cbn [fold_left].
  - do 4 (split; [lia|]). constructor.
  - specialize (IH (sx_irect_add_point rc p)). cbv zeta in IH.
    destruct IH as (H1 & H2 & H3 & H4 & Hall).
    set (r := fold_left sx_irect_add_point rest (sx_irect_add_point rc p)) in *.
    unfold sx_irect_add_point in H1, H2, H3, H4. cbn [xmin ymin xmax ymax] in *.
    do 4 (split; [lia|]).
    constructor; [|exact Hall].
    unfold within_rect. lia.
Qed.

Lemma fold_add_point_attained pts : forall rc,
  let r := fold_left sx_irect_add_point pts rc in
  (xmin r = xmin rc \/ exists p, In p pts /\ vx p = xmin r)
  /\ (ymin r = ymin rc \/ exists p, In p pts /\ vy p = ymin r)
  /\ (xmax r = xmax rc \/ exists p, In p pts /\ vx p = xmax r)
  /\ (ymax r = ymax rc \/ exists p, In p pts /\ vy p = ymax r).
Proof.
  induction pts as [|p rest IH]; intros rc; cbv zeta; cbn [fold_left].
  - repeat split; left; reflexivity.
  - specialize (IH (sx_irect_add_point rc p)). cbv zeta in IH.
    destruct IH as (H1 & H2 & H3 & H4).
    set (r := fold_left sx_irect_add_point rest (sx_irect_add_point rc p)) in *.
    unfold sx_irect_add_point in H1, H2, H3, H4. cbn [xmin ymin xmax ymax] in *.
    repeat split.
    + destruct H1 as [H1 | (q & Hq & H1)]; [|right; exists q; split; [right|]; auto].
      destruct (Z.min_spec (xmin rc) (vx p)) as [[_ Hm] | [_ Hm]]; rewrite Hm in H1;
        [left; exact H1 | right; exists p; split; [left; reflexivity | auto]].
    + destruct H2 as [H2 | (q & Hq & H2)]; [|right; exists q; split; [right|]; auto].
      destruct (Z.min_spec (ymin rc) (vy p)) as [[_ Hm] | [_ Hm]]; rewrite Hm in H2;
        [left; exact H2 | right; exists p; split; [left; reflexivity | auto]].
    + destruct H3 as [H3 | (q & Hq & H3)]; [|right; exists q; split; [right|]; auto].
      destruct (Z.max_spec (xmax rc) (vx p)) as [[_ Hm] | [_ Hm]]; rewrite Hm in H3;
        [right; exists p; split; [left; reflexivity | auto] | left; exact H3].
    + destruct H4 as [H4 | (q & Hq & H4)]; [|right; exists q; split; [right|]; auto].
      destruct (Z.max_spec (ymax rc) (vy p)) as [[_ Hm] | [_ Hm]]; rewrite Hm in H4;
        [right; exists p; split; [left; reflexivity | auto] | left; exact H4].
Qed.

End Bounds.

(** X8. The sprite_rect that the loading loop records is the bounding box of
    the outline extracted from the dilated mask, whether or not a mesh is
    made: every outline point lies within it and each of its four sides
    passes through an outline point.  With an empty outline it stays the
    inverted rectangle (INT_MAX, INT_MAX, INT_MIN, INT_MIN) it started as. *)
Theorem sprite_rect_bounds_outline
        (E : externals) (fuel : nat) (args : atlasc_args) (path : string)
        (spr : atlasc__sprite) (pixels : image) :
  load_sprite E fuel args path = Some (inr spr) ->
  stbi_load E path = Some pixels ->
  Forall (fun p => Int32.in_range (vx p) /\ Int32.in_range (vy p))
         (outline_of E args pixels) ->
  Forall (within_rect (sprite_rect spr)) (outline_of E args pixels)
  /\ (outline_of E args pixels = [] -> sprite_rect spr = empty_rect)
  /\ (outline_of E args pixels <> [] ->
      (exists p, In p (outline_of E args pixels) /\ vx p = xmin (sprite_rect spr))
      /\ (exists p, In p (outline_of E args pixels) /\ vy p = ymin (sprite_rect spr))
      /\ (exists p, In p (outline_of E args pixels) /\ vx p = xmax (sprite_rect spr))
      /\ (exists p, In p (outline_of E args pixels) /\ vy p = ymax (sprite_rect spr))).
Proof.
  intros Hload Hpix Hrange.
  destruct (load_sprite_trim E fuel args path spr Hload)
    as (pixels' & _ & Hpix' & _ & _ & Hrect & _).
  rewrite Hpix in Hpix'. injection Hpix' as <-.
  rewrite Hrect.
  pose proof (fold_add_point_grows (outline_of E args pixels) empty_rect) as Hgrow.
  pose proof (fold_add_point_attained (outline_of E args pixels) empty_rect) as Hatt.
  cbv zeta in Hgrow, Hatt.
  destruct Hgrow as (_ & _ & _ & _ & Hall).
  split; [exact Hall|]. split.
  - intros ->. reflexivity.
  - intros Hne.
    destruct (outline_of E args pixels) as [|p0 rest] eqn:Hout; [congruence|].
    set (r := fold_left sx_irect_add_point (p0 :: rest) empty_rect) in *.
    inversion Hall as [|? ? Hp0 _]; subst.
    inversion Hrange as [|? ? Hr0 _]; subst.
    unfold within_rect in Hp0. unfold Int32.in_range in Hr0.
    unfold empty_rect in Hatt. cbn [xmin ymin xmax ymax] in Hatt.
    destruct Hatt as (H1 & H2 & H3 & H4).
    repeat split.
    + destruct H1 as [H1 | H1]; [|exact H1].
      exists p0. split; [left; reflexivity | lia].
    + destruct H2 as [H2 | H2]; [|exact H2].
      exists p0. split; [left; reflexivity | lia].
    + destruct H3 as [H3 | H3]; [|exact H3].
      exists p0. split; [left; reflexivity | lia].
    + destruct H4 as [H4 | H4]; [|exact H4].
      exists p0. split; [left; reflexivity | lia].
Qed.

Lemma sprite_rect_bounds_outline_witness :
  let outline := outline_of Sample.E Sample.args (Ref.block 8 8 2 2 5 5) in
  Forall (within_rect (sprite_rect Sample.loaded)) outline
  /\ (outline = [] -> sprite_rect Sample.loaded = empty_rect)
  /\ (outline <> [] ->
      (exists p, In p outline /\ vx p = xmin (sprite_rect Sample.loaded))
      /\ (exists p, In p outline /\ vy p = ymin (sprite_rect Sample.loaded))
      /\ (exists p, In p outline /\ vx p = xmax (sprite_rect Sample.loaded))
      /\ (exists p, In p outline /\ vy p = ymax (sprite_rect Sample.loaded))).
Proof.
  apply (sprite_rect_bounds_outline Sample.E 50 Sample.args "a.png"
           Sample.loaded (Ref.block 8 8 2 2 5 5)).
  - vm_compute. reflexivity.
  - vm_compute. reflexivity.
  - apply Forall_forall. intros p Hp.
    assert (Hb : forallb (fun q => (Int32.INT_MIN <=? vx q) && (vx q <=? Int32.INT_MAX)
                                   && (Int32.INT_MIN <=? vy q) && (vy q <=? Int32.INT_MAX))
                         (outline_of Sample.E Sample.args (Ref.block 8 8 2 2 5 5))
                 = true) by (vm_compute; reflexivity).
    rewrite forallb_forall in Hb. specialize (Hb p Hp).
    unfold Int32.in_range. lia.
Defined.

(* ================================================================== *)
(** ** atlasc__save and the outcome of atlasc_make *)

Section Manifest.

Variable E : externals.

Lemma manifest_sprites_fields sprs : forall paths,
  map ms_size (manifest_sprites E paths sprs) = map src_size sprs
  /\ map ms_sprite_rect (manifest_sprites E paths sprs) = map sprite_rect sprs
  /\ map ms_sheet_rect (manifest_sprites E paths sprs) = map sheet_rect sprs.
Proof.
  induction sprs as [|spr rest IH]; intros paths; cbn [manifest_sprites map].
  - repeat split.
  - destruct (IH (tl paths)) as (H1 & H2 & H3).
    rewrite H1, H2, H3. repeat split.
Qed.

Lemma manifest_sprites_names sprs : forall paths,
  length paths = length sprs ->
  map ms_name (manifest_sprites E paths sprs)
  = map (fun path => fit 256 (sx_os_path_unixpath E path)) paths.
Proof.
  induction sprs as [|spr rest IH]; intros paths Hlen; cbn [manifest_sprites map].
  - destruct paths; [reflexivity | discriminate].
  - destruct paths as [|path paths]; [discriminate|].
    cbn [hd tl map manifest_of_sprite ms_name]. f_equal.
    apply IH. cbn [length] in Hlen. lia.
Qed.

Variable fuel : nat.
Variable args : atlasc_args.

Lemma placed_sprites_length loaded :
  length (placed_sprites E args loaded) = length loaded.
Proof.
  symmetry. exact (Forall2_length (placed_sprites_same E args loaded)).
Qed.

Lemma final_sprites_length loaded :
  length (final_sprites E args loaded) = length loaded.
Proof.
  unfold final_sprites.
  destruct (mesh args =? 0); rewrite ?length_map; apply placed_sprites_length.
Qed.

Lemma atlasc_make_count loaded out :
  load_sprites E fuel args (in_filepaths args) = Some (inr loaded) ->
  atlasc_make E fuel args = Some out ->
  mk_result out = true ->
  length (mk_sprites out) = length (in_filepaths args).
Proof.
  intros Hload Hmake Htrue.
  destruct (atlasc_make_cases E fuel args out Hmake)
    as [(msg & ->) | (loaded' & dst & Hload' & _ & _ & ->)]; [discriminate|].
  destruct (built_members E args loaded' dst) as (_ & _ & -> & _).
  rewrite Hload in Hload'. injection Hload' as <-.
  rewrite final_sprites_length.
  apply (load_sprites_length E fuel args _ _ Hload).
Qed.

End Manifest.

(** X9. A build that returns true has opened the manifest at the path
    given with -o, and what it leaves there is the encoded tree when
    [sx_file_write_text] succeeds and a file without it otherwise (the
    result of that call is not looked at).  The tree holds the sheet size of
    the build, the base name of the image path as far as it fits
    [image_filename[256]], and one entry per input file in the order of the
    inputs: entry [i] is named after input path [i] (through
    [sx_os_path_unixpath], cut to [name[256]]) and carries the size, the
    sprite_rect and the sheet_rect of sprite [i]. *)
Theorem manifest_lists_inputs_in_order
        (E : externals) (fuel : nat) (args : atlasc_args) (out : make_outcome) :
  atlasc_make E fuel args = Some out ->
  mk_result out = true ->
  exists out_path m,
    out_filepath args = Some out_path
    /\ m = manifest_for E args (mk_sprites out) (mk_dst_w out) (mk_dst_h out)
                        out_path
    /\ In (if sx_file_write_text E out_path
           then JsonFile out_path m else CutFile out_path)
          (mk_files out)
    /\ map ms_name (m_sprites m)
       = map (fun path => fit 256 (sx_os_path_unixpath E path)) (in_filepaths args)
    /\ map ms_size (m_sprites m) = map src_size (mk_sprites out)
    /\ map ms_sprite_rect (m_sprites m) = map sprite_rect (mk_sprites out)
    /\ map ms_sheet_rect (m_sprites m) = map sheet_rect (mk_sprites out)
    /\ m_image_width m = mk_dst_w out
    /\ m_image_height m = mk_dst_h out
    /\ m_image m = fit 256 (sx_os_path_basename E (image_path E out_path)).
Proof.
  intros Hmake Htrue.
  destruct (atlasc_make_cases E fuel args out Hmake)
    as [(msg & ->) | (loaded & dst & Hload & _ & _ & Hout)]; [discriminate|].
  pose proof (atlasc_make_count E fuel args loaded out Hload Hmake Htrue)
    as Hcount.
  destruct (built_members E args loaded dst)
    as (_ & _ & Hsprs & Hsize & Hres & Hfiles & _).
  rewrite <- Hout in Hsprs, Hsize, Hres, Hfiles. rewrite Htrue in Hres.
  destruct (out_filepath args) as [out_path|] eqn:Hpath;
    [|unfold atlasc__save in Hres; rewrite Hpath in Hres; discriminate].
  rewrite (atlasc__save_outcome E args _ _ _ _ out_path Hpath) in Hres, Hfiles.
  cbn [sv_result sv_files] in Hres, Hfiles. rewrite <- Hres in Hfiles.
  rewrite <- Hsize, <- Hsprs in Hfiles. cbn [fst snd] in Hfiles.
  exists out_path. eexists. split; [reflexivity|]. split; [reflexivity|].
  split; [rewrite Hfiles; apply in_or_app; right; left; reflexivity|].
  unfold manifest_for. cbn [m_sprites m_image m_image_width m_image_height].
  destruct (manifest_sprites_fields E (mk_sprites out) (in_filepaths args))
    as (H1 & H2 & H3).
  split; [apply manifest_sprites_names; symmetry; exact Hcount|].
  repeat split; assumption.
Qed.

Lemma manifest_lists_inputs_in_order_witness :
  exists out_path m,
    out_filepath Sample.args = Some out_path
    /\ m = manifest_for Sample.E Sample.args (mk_sprites Sample.out)
                        (mk_dst_w Sample.out) (mk_dst_h Sample.out) out_path
    /\ In (if sx_file_write_text Sample.E out_path
           then JsonFile out_path m else CutFile out_path)
          (mk_files Sample.out)
    /\ map ms_name (m_sprites m)
       = map (fun path => fit 256 (sx_os_path_unixpath Sample.E path))
             (in_filepaths Sample.args)
    /\ map ms_size (m_sprites m) = map src_size (mk_sprites Sample.out)
    /\ map ms_sprite_rect (m_sprites m) = map sprite_rect (mk_sprites Sample.out)
    /\ map ms_sheet_rect (m_sprites m) = map sheet_rect (mk_sprites Sample.out)
    /\ m_image_width m = mk_dst_w Sample.out
    /\ m_image_height m = mk_dst_h Sample.out
    /\ m_image m
       = fit 256 (sx_os_path_basename Sample.E (image_path Sample.E out_path)).
Proof.
  apply (manifest_lists_inputs_in_order Sample.E 50 Sample.args Sample.out).
  - vm_compute. reflexivity.
  - vm_compute. reflexivity.
Defined.

(** X10. When the manifest cannot be opened for writing, a build that has
    made its sheet image fails after that image is on disk: [atlasc_make]
    returns false and [main] returns -1, one line is printed, the error
    string stays empty, and the PNG written just before, at the image path
    as [image_filepath[256]] holds it, is the only file left behind. *)
Theorem manifest_open_failure_leaves_png
        (E : externals) (fuel : nat) (args : atlasc_args)
        (loaded : list atlasc__sprite) (dst : list Z) (out_path : string) :
  in_filepaths args <> [] ->
  out_filepath args = Some out_path ->
  load_sprites E fuel args (in_filepaths args) = Some (inr loaded) ->
  0 <= Int32.add (max_width args) (max_height args) ->
  sheet_of E args loaded = Some dst ->
  (forall path w h, stbi_write_png E path w h = true) ->
  sx_file_open_writer E out_path = false ->
  exists out,
    atlasc_make E fuel args = Some out
    /\ mk_result out = false
    /\ mk_error_str out = EmptyString
    /\ mk_files out
       = [PngFile (image_path E out_path) (mk_dst_w out) (mk_dst_h out) dst]
    /\ mk_printed out
       = [("could not open file for writing: " ++ out_path)%string]
    /\ main E fuel 0 args = Some (-1).
Proof.
  intros Hin Hout Hload Hnodes Hsheet Hpng Hjson.
  pose proof (atlasc_make_built E fuel args loaded dst Hload Hnodes Hsheet)
    as Hmake.
  destruct (built_members E args loaded dst)
    as (_ & Herr & _ & Hsize & Hres & Hfiles & Hprinted).
  rewrite (atlasc__save_outcome E args _ _ _ _ out_path Hout)
    in Hres, Hfiles, Hprinted.
  cbn [sv_result sv_files sv_printed] in Hres, Hfiles, Hprinted.
  rewrite Hpng, Hjson in *. cbn [app] in Hfiles, Hprinted.
  rewrite <- Hsize in Hfiles. cbn [fst snd] in Hfiles.
  exists (built E args loaded dst).
  split; [exact Hmake|]. split; [exact Hres|]. split; [exact Herr|].
  split; [exact Hfiles|]. split; [exact Hprinted|].
  rewrite (main_of_build E fuel args loaded _ Hin ltac:(congruence) Hload Hmake).
  rewrite Hres. reflexivity.
Qed.

Lemma manifest_open_failure_leaves_png_witness :
  exists out,
    atlasc_make (Ref.ext Sample.fs true false) 50 Sample.args = Some out
    /\ mk_result out = false
    /\ mk_error_str out = EmptyString
    /\ mk_files out
       = [PngFile (image_path (Ref.ext Sample.fs true false) "atlas.json")
                  (mk_dst_w out) (mk_dst_h out) NoPng.sheet]
    /\ mk_printed out
       = [("could not open file for writing: " ++ "atlas.json")%string]
    /\ main (Ref.ext Sample.fs true false) 50 0 Sample.args = Some (-1).
Proof.
  apply (manifest_open_failure_leaves_png (Ref.ext Sample.fs true false) 50
           Sample.args [Sample.loaded] NoPng.sheet).
  - vm_compute. discriminate.
  - vm_compute. reflexivity.
  - vm_compute. reflexivity.
  - vm_compute. discriminate.
  - vm_compute. reflexivity.
  - intros path w h. reflexivity.
  - vm_compute. reflexivity.
Defined.

(** X11. The loading loop stops at the first input that it cannot load and
    [atlasc_make] returns false at once: the error string is the message
    that names that path ("input image not found" when it is not a file,
    "invalid image format" when the decoder refuses it) as far as it fits
    [g_error_str[512]], the packer is not run, nothing is printed and no
    file is written, whatever the inputs after it. *)
Theorem build_stops_at_first_bad_input
        (E : externals) (fuel : nat) (args : atlasc_args)
        (good : list string) (bad : string) (rest : list string) :
  in_filepaths args = good ++ bad :: rest ->
  Forall (fun p => exists spr, load_sprite E fuel args p = Some (inr spr)) good ->
  sx_os_path_isfile E bad = false \/ stbi_load E bad = None ->
  atlasc_make E fuel args
  = Some (mk_make_outcome
            false
            (sx_snprintf 512
               (if sx_os_path_isfile E bad
                then ("invalid image format: " ++ bad)%string
                else ("input image not found: " ++ bad)%string))
            false [] 0 0 [] []).
Proof.
  intros Hpaths Hgood Hbad.
  assert (Hone : load_sprite E fuel args bad
                 = Some (inl (sx_snprintf 512
                                (if sx_os_path_isfile E bad
                                 then ("invalid image format: " ++ bad)%string
                                 else ("input image not found: " ++ bad)%string)))).
  { unfold load_sprite. destruct (sx_os_path_isfile E bad); cbn [negb].
    - destruct Hbad as [Hbad | Hbad]; [discriminate|]. rewrite Hbad. reflexivity.
    - reflexivity. }
  unfold atlasc_make. rewrite Hpaths.
  rewrite (load_sprites_first_refused E fuel args good bad rest _ Hgood Hone).
  reflexivity.
Qed.

Lemma build_stops_at_first_bad_input_witness :
  atlasc_make Sample.E 50
    (mk_atlasc_args 20 ["a.png"; "b.png"; "a.png"]%string
                    (Some "atlas.json"%string) 2048 2048 2 0 1 1 6)
  = Some (mk_make_outcome
            false
            (sx_snprintf 512
               (if sx_os_path_isfile Sample.E "b.png"
                then ("invalid image format: " ++ "b.png")%string
                else ("input image not found: " ++ "b.png")%string))
            false [] 0 0 [] []).
Proof.
  apply (build_stops_at_first_bad_input Sample.E 50
           (mk_atlasc_args 20 ["a.png"; "b.png"; "a.png"]%string
                           (Some "atlas.json"%string) 2048 2048 2 0 1 1 6)
           ["a.png"%string] "b.png" ["a.png"%string]).
  - reflexivity.
  - constructor; [|constructor]. eexists. vm_compute. reflexivity.
  - left. vm_compute. reflexivity.
Defined.

(* ================================================================== *)
(** ** main: the value returned *)

Section ExitCode.

Variable E : externals.
Variable fuel : nat.
Variable args : atlasc_args.

Lemma load_sprites_loadable paths : forall loaded,
  load_sprites E fuel args paths = Some (inr loaded) ->
  Forall (loadable E) paths.
Proof.
  induction paths as [|path rest IH]; intros loaded; cbn [load_sprites].
  - constructor.
  - destruct (load_sprite E fuel args path) as [[msg | spr]|] eqn:Hone;
      [discriminate | | discriminate].
    destruct (load_sprites E fuel args rest) as [[msg | sprs]|];
      [discriminate | | discriminate].
    intros _. constructor; [|apply (IH sprs eq_refl)].
    destruct (load_sprite_trim E fuel args path spr Hone)
      as (pixels & Hfile & Hpix & _).
    split; [exact Hfile | congruence].
Qed.

Lemma load_sprites_refused paths : forall msg,
  load_sprites E fuel args paths = Some (inl msg) ->
  ~ Forall (loadable E) paths.
Proof.
  induction paths as [|path rest IH]; intros msg; cbn [load_sprites];
    [discriminate|].
  destruct (load_sprite E fuel args path) as [[msg' | spr]|] eqn:Hone;
    [| | discriminate].
  - intros _ Hall. inversion Hall as [|? ? [Hfile Hpix] _]; subst.
    destruct (load_sprite_refused E fuel args path msg' Hone)
      as [[Hno _] | (_ & Hnone & _)]; congruence.
  - destruct (load_sprites E fuel args rest) as [[msg' | sprs]|];
      [| discriminate | discriminate].
    intros _ Hall. inversion Hall; subst. apply (IH msg' eq_refl). assumption.
Qed.

Lemma forallb_isfile_loadable paths :
  forallb (sx_os_path_isfile E) paths = false -> ~ Forall (loadable E) paths.
Proof.
  intros Hno Hall.
  assert (Hyes : forallb (sx_os_path_isfile E) paths = true).
  { apply forallb_forall. intros p Hp.
    rewrite Forall_forall in Hall. apply (Hall p Hp). }
  congruence.
Qed.

(** A build that has loaded its inputs and requested its packer nodes
    returns what the opening of the manifest returns. *)
Lemma atlasc_make_result loaded out :
  load_sprites E fuel args (in_filepaths args) = Some (inr loaded) ->
  0 <= Int32.add (max_width args) (max_height args) ->
  atlasc_make E fuel args = Some out ->
  mk_result out
  = match out_filepath args with
    | Some out_path => sx_file_open_writer E out_path
    | None => false
    end.
Proof.
  intros Hload Hnodes Hmake.
  destruct (atlasc_make_sheet E fuel args loaded out Hload Hnodes Hmake)
    as (dst & _ & ->).
  destruct (built_members E args loaded dst) as (_ & _ & _ & _ & -> & _).
  destruct (out_filepath args) as [out_path|] eqn:Hout.
  - rewrite (atlasc__save_outcome E args _ _ _ _ out_path Hout). reflexivity.
  - unfold atlasc__save. rewrite Hout. reflexivity.
Qed.

Lemma load_sprite_plain_fuel path :
  mesh args = 0 -> load_sprite E fuel args path = load_sprite E 0 args path.
Proof.
  intros Hmesh. unfold load_sprite. rewrite Hmesh. reflexivity.
Qed.

Lemma load_sprites_plain_fuel paths :
  mesh args = 0 -> load_sprites E fuel args paths = load_sprites E 0 args paths.
Proof.
  intros Hmesh. induction paths as [|path rest IH]; cbn [load_sprites];
    [reflexivity|].
  rewrite (load_sprite_plain_fuel path Hmesh), IH. reflexivity.
Qed.

Lemma atlasc_make_plain_fuel :
  mesh args = 0 -> atlasc_make E fuel args = atlasc_make E 0 args.
Proof.
  intros Hmesh. unfold atlasc_make.
  rewrite (load_sprites_plain_fuel _ Hmesh). reflexivity.
Qed.

End ExitCode.

(** X12. The value [main] returns, when it returns: 0 exactly when the
    version flag is set, or when there are inputs, each of them a file that
    the decoder accepts, the sum of the two sheet limits (-W and -H), taken
    as an [int], is not negative, so that the nodes of the packer can be
    requested, and the manifest path given with -o can be opened for
    writing; -1 in every other case.  Neither the packer's answer nor the
    writing of the PNG or of the text of the manifest enters into it. *)
Theorem main_returns_zero_iff
        (E : externals) (fuel : nat) (version : Z) (args : atlasc_args)
        (code : Z) :
  main E fuel version args = Some code ->
  (code = 0 \/ code = -1)
  /\ (code = 0
      <-> version <> 0
          \/ (in_filepaths args <> []
              /\ Forall (loadable E) (in_filepaths args)
              /\ 0 <= Int32.add (max_width args) (max_height args)
              /\ exists out_path,
                   out_filepath args = Some out_path
                   /\ sx_file_open_writer E out_path = true)).
Proof.
  unfold main.
  destruct (Z.eqb_spec version 0) as [Hv | Hv]; cbn [negb].
  2:{ intros H. injection H as <-. split; [left; reflexivity|].
      split; [intros _; left; exact Hv | reflexivity]. }
  destruct (in_filepaths args) as [|p ps] eqn:Hpaths.
  { intros H. injection H as <-. split; [right; reflexivity|].
    split; [discriminate|]. intros [Hn | (Hn & _)]; congruence. }
  destruct (out_filepath args) as [out_path|] eqn:Hout.
  2:{ intros H. injection H as <-. split; [right; reflexivity|].
      split; [discriminate|].
      intros [Hn | (_ & _ & _ & q & Hq & _)]; congruence. }
  destruct (forallb (sx_os_path_isfile E) (p :: ps)) eqn:Hfiles; cbn [negb].
  2:{ intros H. injection H as <-. split; [right; reflexivity|].
      split; [discriminate|].
      intros [Hn | (_ & Hall & _)]; [congruence|].
      exfalso. exact (forallb_isfile_loadable E _ Hfiles Hall). }
  destruct (atlasc_make E fuel args) as [out|] eqn:Hmake; [|discriminate].
  intros H. injection H as <-.
  split; [destruct (mk_result out); auto|].
  destruct (load_sprites E fuel args (in_filepaths args))
    as [[msg | loaded]|] eqn:Hload.
  - assert (Hfalse : mk_result out = false).
    { unfold atlasc_make in Hmake. rewrite Hload in Hmake.
      injection Hmake as <-. reflexivity. }
    rewrite Hfalse. split; [discriminate|].
    intros [Hn | (_ & Hall & _)]; [congruence|].
    rewrite Hpaths in Hload.
    exfalso. exact (load_sprites_refused E fuel args _ _ Hload Hall).
  - destruct (Z_le_dec 0 (Int32.add (max_width args) (max_height args)))
      as [Hnodes | Hnodes].
    + rewrite (atlasc_make_result E fuel args loaded out Hload Hnodes Hmake), Hout.
      rewrite Hpaths in Hload.
      pose proof (load_sprites_loadable E fuel args _ _ Hload) as Hall.
      destruct (sx_file_open_writer E out_path) eqn:Hopen.
      * split; [|reflexivity]. intros _. right.
        split; [discriminate|]. split; [exact Hall|]. split; [exact Hnodes|].
        exists out_path. split; [reflexivity | exact Hopen].
      * split; [discriminate|].
        intros [Hn | (_ & _ & _ & q & Hq & Hopen')]; congruence.
    + rewrite (atlasc_make_no_nodes E fuel args loaded Hload ltac:(lia)) in Hmake.
      injection Hmake as <-. cbn [mk_result failed].
      split; [discriminate|].
      intros [Hn | (_ & _ & Hsum & _)]; [congruence | contradiction].
  - unfold atlasc_make in Hmake. rewrite Hload in Hmake. discriminate.
Qed.

Lemma main_returns_zero_iff_witness :
  (0 = 0 \/ 0 = -1)
  /\ (0 = 0
      <-> 0 <> 0
          \/ (in_filepaths Sample.args <> []
              /\ Forall (loadable Sample.E) (in_filepaths Sample.args)
              /\ 0 <= Int32.add (max_width Sample.args) (max_height Sample.args)
              /\ exists out_path,
                   out_filepath Sample.args = Some out_path
                   /\ sx_file_open_writer Sample.E out_path = true)).
Proof.
  apply (main_returns_zero_iff Sample.E 50 0 Sample.args 0).
  vm_compute. reflexivity.
Defined.

(** X13. Without the mesh option no budget of loop turns matters: the two
    loops of the program that have no bound of their own are reached only
    through [atlasc__make_mesh], and [main] does with any budget what it does
    with none.  The one way in which such a run does not return a value is
    that its sprites are loaded, its packer nodes requested and its sheet
    image then cannot be made, the request for it failing or a blit leaving
    a buffer. *)
Theorem plain_build_returns
        (E : externals) (fuel : nat) (version : Z) (args : atlasc_args) :
  mesh args = 0 ->
  main E fuel version args = main E 0 version args
  /\ (main E 0 version args = None ->
      exists loaded,
        load_sprites E 0 args (in_filepaths args) = Some (inr loaded)
        /\ 0 <= Int32.add (max_width args) (max_height args)
        /\ sheet_of E args loaded = None)
  /\ (forall loaded dst,
        load_sprites E 0 args (in_filepaths args) = Some (inr loaded) ->
        sheet_of E args loaded = Some dst ->
        exists code, main E 0 version args = Some code).
Proof.
  intros Hmesh. split; [|split].
  - unfold main. rewrite (atlasc_make_plain_fuel E fuel args Hmesh). reflexivity.
  - unfold main.
    destruct (negb (version =? 0)); [discriminate|].
    destruct (in_filepaths args) as [|p ps] eqn:Hpaths; [discriminate|].
    destruct (out_filepath args); [|discriminate].
    destruct (negb (forallb (sx_os_path_isfile E) (p :: ps))); [discriminate|].
    destruct (atlasc_make E 0 args) as [out|] eqn:Hmake; [discriminate|].
    intros _.
    destruct (load_sprites_plain_returns E 0 args (in_filepaths args) Hmesh)
      as [[msg | loaded] Hload].
    + unfold atlasc_make in Hmake. rewrite Hload in Hmake. discriminate.
    + rewrite Hpaths in Hload. exists loaded. split; [exact Hload|].
      rewrite <- Hpaths in Hload.
      destruct (Z_le_dec 0 (Int32.add (max_width args) (max_height args)))
        as [Hnodes | Hnodes].
      * split; [exact Hnodes|].
        destruct (sheet_of E args loaded) as [dst|] eqn:Hsheet; [|reflexivity].
        rewrite (atlasc_make_built E 0 args loaded dst Hload Hnodes Hsheet)
          in Hmake.
        discriminate.
      * rewrite (atlasc_make_no_nodes E 0 args loaded Hload ltac:(lia)) in Hmake.
        discriminate.
  - intros loaded dst Hload Hsheet. unfold main.
    destruct (negb (version =? 0)); [eexists; reflexivity|].
    destruct (in_filepaths args) as [|p ps] eqn:Hpaths; [eexists; reflexivity|].
    destruct (out_filepath args); [|eexists; reflexivity].
    destruct (negb (forallb (sx_os_path_isfile E) (p :: ps)));
      [eexists; reflexivity|].
    rewrite <- Hpaths in Hload.
    destruct (Z_le_dec 0 (Int32.add (max_width args) (max_height args)))
      as [Hnodes | Hnodes].
    + rewrite (atlasc_make_built E 0 args loaded dst Hload Hnodes Hsheet).
      eexists; reflexivity.
    + rewrite (atlasc_make_no_nodes E 0 args loaded Hload ltac:(lia)).
      eexists; reflexivity.
Qed.

Lemma plain_build_returns_witness :
  main Unfit.E 50 0 Unfit.args = main Unfit.E 0 0 Unfit.args
  /\ (main Unfit.E 0 0 Unfit.args = None ->
      exists loaded,
        load_sprites Unfit.E 0 Unfit.args (in_filepaths Unfit.args)
        = Some (inr loaded)
        /\ 0 <= Int32.add (max_width Unfit.args) (max_height Unfit.args)
        /\ sheet_of Unfit.E Unfit.args loaded = None)
  /\ (forall loaded dst,
        load_sprites Unfit.E 0 Unfit.args (in_filepaths Unfit.args)
        = Some (inr loaded) ->
        sheet_of Unfit.E Unfit.args loaded = Some dst ->
        exists code, main Unfit.E 0 0 Unfit.args = Some code).
Proof.
  apply (plain_build_returns Unfit.E 50 0 Unfit.args).
  reflexivity.
Defined.

(* ================================================================== *)
(** ** atlasc__blit *)

(** X14. [atlasc__blit] copies a rectangle of pixels and nothing else.  For
    a source rectangle inside the source image and a target position that
    keeps it inside the destination image, the call returns a buffer of the
    same length in which every byte of every pixel of the target rectangle
    is the byte of the source pixel at the same offset from the corner of
    the source rectangle, and every other pixel is as it was; for a
    rectangle without columns or without rows the buffer returned is the
    one passed in. *)
Theorem blit_copies_rectangle
        (dst : list Z) (dw dh : Z) (src : list Z) (sw sh : Z) (bpp ps : Z)
        (dst_x dst_y src_x src_y src_w src_h : Z) :
  Z.quot bpp 8 = ps -> 0 < ps ->
  image_sized dst dw dh ps -> image_sized src sw sh ps ->
  0 <= src_x -> 0 <= src_y -> 0 <= src_w -> 0 <= src_h ->
  src_x + src_w <= sw -> src_y + src_h <= sh ->
  0 <= dst_x -> 0 <= dst_y -> dst_x + src_w <= dw -> dst_y + src_h <= dh ->
  exists dst',
    atlasc__blit dst dst_x dst_y (dw * ps) src src_x src_y src_w src_h
                 (sw * ps) bpp = Some dst'
    /\ length dst' = length dst
    /\ (forall x y b, 0 <= x < dw -> 0 <= y < dh -> 0 <= b < ps ->
          pixel_byte dst' dw ps x y b
          = if (dst_x <=? x) && (x <? dst_x + src_w)
               && (dst_y <=? y) && (y <? dst_y + src_h)
            then pixel_byte src sw ps (x - dst_x + src_x) (y - dst_y + src_y) b
            else pixel_byte dst dw ps x y b)
    /\ (src_w = 0 \/ src_h = 0 -> dst' = dst).
Proof.
  intros Hps Hpos Hd Hs Hsx Hsy Hw Hh Hsxw Hsyh Hdx Hdy Hdxw Hdyh.
  destruct (blit_pixels dst dw dh src sw sh bpp ps
                        dst_x dst_y src_x src_y src_w src_h
                        Hps Hpos Hd Hs Hsx Hsy Hw Hh Hsxw Hsyh Hdx Hdy Hdxw Hdyh)
    as (dst' & Hblit & Hlen & Hpix).
  exists dst'. split; [exact Hblit|]. split; [exact Hlen|].
  split; [exact Hpix|].
  unfold atlasc__blit in Hblit. cbv zeta in Hblit.
  intros [-> | ->].
  - change (Int32.mul 0 (Z.quot bpp 8)) with 0 in Hblit.
    exact (blit_rows_empty _ _ _ _ _ _ _ _ Hblit).
  - destruct Hs as (_ & _ & Hsh & _).
    unfold Int32.add in Hblit. rewrite Z.add_0_r in Hblit.
    rewrite Int32Facts.wrap_id in Hblit
      by (unfold Int32.in_range, Int32.INT_MIN, Int32.INT_MAX in *; lia).
    rewrite Z.sub_diag in Hblit. cbn [Z.to_nat blit_rows] in Hblit.
    injection Hblit as <-. reflexivity.
Qed.

Lemma blit_copies_rectangle_witness :
  exists dst',
    atlasc__blit (repeat 0 24) 1 0 (3 * 4) (map Z.of_nat (seq 1 16)) 0 0 2 2
                 (2 * 4) 32 = Some dst'
    /\ length dst' = length (repeat 0 24)
    /\ (forall x y b, 0 <= x < 3 -> 0 <= y < 2 -> 0 <= b < 4 ->
          pixel_byte dst' 3 4 x y b
          = if (1 <=? x) && (x <? 1 + 2) && (0 <=? y) && (y <? 0 + 2)
            then pixel_byte (map Z.of_nat (seq 1 16)) 2 4 (x - 1 + 0) (y - 0 + 0) b
            else pixel_byte (repeat 0 24) 3 4 x y b)
    /\ (2 = 0 \/ 2 = 0 -> dst' = repeat 0 24).
Proof.
  apply (blit_copies_rectangle (repeat 0 24) 3 2 (map Z.of_nat (seq 1 16)) 2 2
                               32 4 1 0 0 0 2 2).
  1: reflexivity.
  1: lia.
  1-2: unfold image_sized, Int32.INT_MAX; cbn; lia.
  all: lia.
Defined.

(* ================================================================== *)
(** ** The sheet image *)

(** X15. The sheet image handed to [atlasc__save], for sprites whose blits
    stay inside their images and inside the sheet: it has [dst_w * dst_h]
    pixels of four bytes; a pixel that no sprite's target rectangle covers
    is zero (transparent black); a pixel that is covered shows the source
    pixel of the last sprite, in input order, whose rectangle covers it. *)
Theorem sheet_shows_sprites
        (args : atlasc_args) (sprites : list atlasc__sprite) (dst_w dst_h : Z) :
  0 <= dst_w -> 0 <= dst_h -> dst_h <= Int32.INT_MAX ->
  dst_w * 4 <= Int32.INT_MAX -> dst_w * dst_h * 4 <= Int32.INT_MAX ->
  Forall (blit_fits args dst_w dst_h) sprites ->
  exists sheet,
    sheet_pixels args sprites dst_w dst_h = Some sheet
    /\ Z.of_nat (length sheet) = dst_w * dst_h * 4
    /\ forall x y b, 0 <= x < dst_w -> 0 <= y < dst_h -> 0 <= b < 4 ->
         ((forall spr, In spr sprites -> ~ covers args spr x y) ->
          pixel_byte sheet dst_w 4 x y b = 0)
         /\ (forall before spr after,
               sprites = before ++ spr :: after ->
               covers args spr x y ->
               (forall s, In s after -> ~ covers args s x y) ->
               pixel_byte sheet dst_w 4 x y b = source_byte args spr x y b).
Proof.
  intros Hw Hh Hh' Hp Ha Hfits. unfold sheet_pixels. cbv zeta.
  destruct (sheet_buffer_cleared dst_w dst_h Hw Hh Hh' Hp Ha) as [-> Hd].
  assert (0 <= dst_w * dst_h) by (apply Z.mul_nonneg_nonneg; lia).
  destruct (blit_sprites_pixels args dst_w dst_h sprites _ Hd Hfits)
    as (sheet & Hsheet & Hlen & Hpix).
  exists sheet. split; [exact Hsheet|].
  split; [rewrite Hlen, repeat_length; lia|].
  intros x y b Hx Hy Hb. destruct (Hpix x y b Hx Hy Hb) as [Hnone Hlast].
  split; [|exact Hlast].
  intros Hfree. rewrite (Hnone Hfree).
  unfold pixel_byte, byte_at. apply nth_repeat.
Qed.

Lemma sheet_shows_sprites_witness :
  exists sheet,
    sheet_pixels Sample.args (mk_sprites Sample.out)
                 (mk_dst_w Sample.out) (mk_dst_h Sample.out) = Some sheet
    /\ Z.of_nat (length sheet) = mk_dst_w Sample.out * mk_dst_h Sample.out * 4
    /\ forall x y b,
         0 <= x < mk_dst_w Sample.out -> 0 <= y < mk_dst_h Sample.out ->
         0 <= b < 4 ->
         ((forall spr, In spr (mk_sprites Sample.out) ->
                       ~ covers Sample.args spr x y) ->
          pixel_byte sheet (mk_dst_w Sample.out) 4 x y b = 0)
         /\ (forall before spr after,
               mk_sprites Sample.out = before ++ spr :: after ->
               covers Sample.args spr x y ->
               (forall s, In s after -> ~ covers Sample.args s x y) ->
               pixel_byte sheet (mk_dst_w Sample.out) 4 x y b
               = source_byte Sample.args spr x y b).
Proof.
  apply (sheet_shows_sprites Sample.args (mk_sprites Sample.out)
                             (mk_dst_w Sample.out) (mk_dst_h Sample.out)).
  1-5: vm_compute; discriminate.
  replace (mk_sprites Sample.out) with [Sample.sprite]
    by (vm_compute; reflexivity).
  constructor; [|constructor].
  vm_compute. repeat split; discriminate.
Defined.

(* ================================================================== *)
(** ** The crop and the placement of a sprite *)

Section Crop.

Lemma fold_add_point_inside pts lo_x hi_x lo_y hi_y :
  pts <> [] ->
  Int32.INT_MIN < lo_x -> hi_x < Int32.INT_MAX ->
  Int32.INT_MIN < lo_y -> hi_y < Int32.INT_MAX ->
  Forall (fun p => lo_x <= vx p <= hi_x /\ lo_y <= vy p <= hi_y) pts ->
  let r := fold_left sx_irect_add_point pts empty_rect in
  lo_x <= xmin r /\ xmin r <= xmax r /\ xmax r <= hi_x
  /\ lo_y <= ymin r /\ ymin r <= ymax r /\ ymax r <= hi_y.
Proof.
  intros Hne Hlx Hhx Hly Hhy Hall r.
  pose proof (fold_add_point_grows pts empty_rect) as Hgrow.
  pose proof (fold_add_point_attained pts empty_rect) as Hatt.
  cbv zeta in Hgrow, Hatt. fold r in Hgrow, Hatt.
  destruct Hgrow as (_ & _ & _ & _ & Hin).
  destruct pts as [|p0 rest]; [congruence|].
  inversion Hin as [|? ? [Hx0 Hy0] _]; subst.
  pose proof Hall as Hall'. rewrite Forall_forall in Hall'.
  pose proof (Hall' p0 (or_introl eq_refl)) as [Hpx Hpy].
  unfold empty_rect, Int32.INT_MAX, Int32.INT_MIN in *.
  cbn [xmin ymin xmax ymax] in Hatt.
  destruct Hatt as (H1 & H2 & H3 & H4).
  assert (lo_x <= xmin r).
  { destruct H1 as [H1 | (q & Hq & H1)]; [lia|]. destruct (Hall' q Hq). lia. }
  assert (lo_y <= ymin r).
  { destruct H2 as [H2 | (q & Hq & H2)]; [lia|]. destruct (Hall' q Hq). lia. }
  assert (xmax r <= hi_x).
  { destruct H3 as [H3 | (q & Hq & H3)]; [lia|]. destruct (Hall' q Hq). lia. }
  assert (ymax r <= hi_y).
  { destruct H4 as [H4 | (q & Hq & H4)]; [lia|]. destruct (Hall' q Hq). lia. }
  lia.
Qed.

End Crop.

(** X16. When the outline extracted for an input is not empty and its points
    are pixels of the image, the rectangle that the last loop of
    [atlasc_make] copies from the image starts at the corner of sprite_rect
    and spans [xmax - xmin] columns and [ymax - ymin] rows: it lies inside
    the image, it stops one column and one row short of the bounding box of
    the outline, and so the last column and the last row of the image are
    never copied to the sheet. *)
Theorem crop_stops_short_of_outline_bounds
        (E : externals) (fuel : nat) (args : atlasc_args) (path : string)
        (spr : atlasc__sprite) (pixels : image) :
  load_sprite E fuel args path = Some (inr spr) ->
  stbi_load E path = Some pixels ->
  outline_of E args pixels <> [] ->
  Forall (fun p => 0 <= vx p <= img_w pixels - 1 /\ 0 <= vy p <= img_h pixels - 1)
         (outline_of E args pixels) ->
  img_w pixels <= Int32.INT_MAX -> img_h pixels <= Int32.INT_MAX ->
  let rc := sprite_rect spr in
  0 <= xmin rc /\ 0 <= ymin rc
  /\ rect_width rc = xmax rc - xmin rc /\ rect_height rc = ymax rc - ymin rc
  /\ 0 <= rect_width rc /\ 0 <= rect_height rc
  /\ xmin rc + rect_width rc <= img_w pixels - 1
  /\ ymin rc + rect_height rc <= img_h pixels - 1.
Proof.
  intros Hload Hpix Hne Hall Hw Hh rc.
  destruct (load_sprite_trim E fuel args path spr Hload)
    as (pixels' & _ & Hpix' & _ & _ & Hrect & _).
  rewrite Hpix in Hpix'. injection Hpix' as <-.
  unfold Int32.INT_MAX in Hw, Hh.
  pose proof (fold_add_point_inside (outline_of E args pixels)
                0 (img_w pixels - 1) 0 (img_h pixels - 1) Hne
                ltac:(unfold Int32.INT_MIN; lia) ltac:(unfold Int32.INT_MAX; lia)
                ltac:(unfold Int32.INT_MIN; lia) ltac:(unfold Int32.INT_MAX; lia)
                Hall) as Hin.
  cbv zeta in Hin. rewrite <- Hrect in Hin. fold rc in Hin.
  destruct Hin as (H1 & H2 & H3 & H4 & H5 & H6).
  assert (Hrw : rect_width rc = xmax rc - xmin rc).
  { apply Int32Facts.wrap_id.
    unfold Int32.in_range, Int32.INT_MIN, Int32.INT_MAX. lia. }
  assert (Hrh : rect_height rc = ymax rc - ymin rc).
  { apply Int32Facts.wrap_id.
    unfold Int32.in_range, Int32.INT_MIN, Int32.INT_MAX. lia. }
  rewrite Hrw, Hrh. repeat split; lia.
Qed.

Lemma crop_stops_short_of_outline_bounds_witness :
  let rc := sprite_rect Sample.loaded in
  0 <= xmin rc /\ 0 <= ymin rc
  /\ rect_width rc = xmax rc - xmin rc /\ rect_height rc = ymax rc - ymin rc
  /\ 0 <= rect_width rc /\ 0 <= rect_height rc
  /\ xmin rc + rect_width rc <= img_w (Ref.block 8 8 2 2 5 5) - 1
  /\ ymin rc + rect_height rc <= img_h (Ref.block 8 8 2 2 5 5) - 1.
Proof.
  apply (crop_stops_short_of_outline_bounds Sample.E 50 Sample.args "a.png"
           Sample.loaded (Ref.block 8 8 2 2 5 5)).
  - vm_compute. reflexivity.
  - vm_compute. reflexivity.
  - vm_compute. discriminate.
  - apply Forall_forall. intros p Hp.
    assert (Hb : forallb (fun q => (0 <=? vx q) && (vx q <=? 7)
                                   && (0 <=? vy q) && (vy q <=? 7))
                         (outline_of Sample.E Sample.args (Ref.block 8 8 2 2 5 5))
                 = true) by (vm_compute; reflexivity).
    rewrite forallb_forall in Hb. specialize (Hb p Hp).
    cbn [img_w img_h Ref.block]. lia.
  - vm_compute. discriminate.
  - vm_compute. discriminate.
Defined.

(* ================================================================== *)
(** ** The packing stage of atlasc_make *)

Section Packing.

Variable args : atlasc_args.
Hypothesis Hborder : 0 <= border args.
Hypothesis Hpadding : 0 <= padding args.

Lemma int32_id z : Int32.INT_MIN <= z <= Int32.INT_MAX -> Int32.wrap z = z.
Proof. apply Int32Facts.wrap_id. Qed.

Lemma rp_rect_size_plain spr :
  trim_sized args spr ->
  rp_rect_size args spr
  = (xmax (sprite_rect spr) - xmin (sprite_rect spr)
     + 2 * (border args + padding args),
     ymax (sprite_rect spr) - ymin (sprite_rect spr)
     + 2 * (border args + padding args)).
Proof.
  unfold trim_sized, rp_rect_size. cbv zeta.
  unfold Int32.add, Int32.sub, Int32.mul, Int32.INT_MAX.
  intros (Hx & Hy & Hw & Hh).
  rewrite (int32_id (border args + padding args))
    by (unfold Int32.INT_MIN, Int32.INT_MAX; lia).
  rewrite (int32_id ((border args + padding args) * 2))
    by (unfold Int32.INT_MIN, Int32.INT_MAX; lia).
  rewrite (int32_id (xmax (sprite_rect spr) - xmin (sprite_rect spr)))
    by (unfold Int32.INT_MIN, Int32.INT_MAX; lia).
  rewrite (int32_id (ymax (sprite_rect spr) - ymin (sprite_rect spr)))
    by (unfold Int32.INT_MIN, Int32.INT_MAX; lia).
  rewrite !int32_id by (unfold Int32.INT_MIN, Int32.INT_MAX; lia).
  f_equal; lia.
Qed.

(** The sheet_rect of a sprite placed at [(x, y)], and where its pixels go. *)
Lemma placed_sprite_target spr x y :
  trim_sized args spr -> packed_inside args spr (x, y) ->
  max_width args <= Int32.INT_MAX -> max_height args <= Int32.INT_MAX ->
  let '(w, h) := rp_rect_size args spr in
  let placed_spr :=
    set_sheet_rect spr
      (sx_irect_expand (sx_irectwh x y w h)
         (sx_ivec2i (Int32.neg (border args)) (Int32.neg (border args)))) in
  sheet_rect placed_spr
  = sx_irecti (x + border args) (y + border args)
              (x + w - border args) (y + h - border args)
  /\ xmin (contracted_sheet_rect args placed_spr) = x + border args + padding args
  /\ ymin (contracted_sheet_rect args placed_spr) = y + border args + padding args
  /\ rect_width (sprite_rect placed_spr)
     = w - 2 * (border args + padding args)
  /\ rect_height (sprite_rect placed_spr)
     = h - 2 * (border args + padding args).
Proof.
  intros Htrim Hin Hmw Hmh.
  unfold packed_inside in Hin. rewrite (rp_rect_size_plain spr Htrim) in *.
  cbn [fst snd] in Hin. destruct Hin as (Hx & Hy & Hxw & Hyh).
  destruct Htrim as (Htx & Hty & Htw & Hth).
  unfold Int32.INT_MAX in *.
  cbv zeta. unfold contracted_sheet_rect, rect_width, rect_height, set_sheet_rect,
    sx_irect_expand, sx_irectwh.
  cbn [sheet_rect sprite_rect xmin ymin xmax ymax vx vy].
  unfold Int32.add, Int32.sub, Int32.neg.
  rewrite (int32_id (- border args)) by (unfold Int32.INT_MIN, Int32.INT_MAX; lia).
  rewrite (int32_id (- padding args)) by (unfold Int32.INT_MIN, Int32.INT_MAX; lia).
  rewrite (int32_id (x + _)) by (unfold Int32.INT_MIN, Int32.INT_MAX; lia).
  rewrite (int32_id (y + _)) by (unfold Int32.INT_MIN, Int32.INT_MAX; lia).
  rewrite (int32_id (x - _)) by (unfold Int32.INT_MIN, Int32.INT_MAX; lia).
  rewrite (int32_id (y - _)) by (unfold Int32.INT_MIN, Int32.INT_MAX; lia).
  rewrite !int32_id by (unfold Int32.INT_MIN, Int32.INT_MAX; lia).
  repeat split; try (f_equal; lia); lia.
Qed.

Hypothesis Hmw : max_width args <= Int32.INT_MAX.
Hypothesis Hmh : max_height args <= Int32.INT_MAX.

(** The bounds of the placed rects and the targets of the sprites, after the
    placing loop. *)
Lemma place_sprites_targets sprs : forall placed fr fr' sprs',
  Forall (trim_sized args) sprs ->
  Forall2 (packed_inside args) sprs placed ->
  place_sprites args sprs placed fr = (fr', sprs') ->
  (xmin fr' <= xmin fr /\ ymin fr' <= ymin fr
   /\ xmax fr <= xmax fr' /\ ymax fr <= ymax fr')
  /\ (0 <= xmin fr -> 0 <= xmin fr') /\ (0 <= ymin fr -> 0 <= ymin fr')
  /\ xmax fr' <= Z.max (xmax fr) (max_width args)
  /\ ymax fr' <= Z.max (ymax fr) (max_height args)
  /\ (forall p, In p placed ->
                xmin fr' <= fst p <= xmax fr' /\ ymin fr' <= snd p <= ymax fr')
  /\ Forall (fun spr =>
               0 <= xmin (contracted_sheet_rect args spr)
               /\ 0 <= ymin (contracted_sheet_rect args spr)
               /\ xmin (contracted_sheet_rect args spr)
                  + rect_width (sprite_rect spr) <= xmax fr'
               /\ ymin (contracted_sheet_rect args spr)
                  + rect_height (sprite_rect spr) <= ymax fr') sprs'.
Proof.
  induction sprs as [|spr rest IH]; intros placed fr fr' sprs' Htrims Hins;
    inversion Hins as [|? pos ? placed' Hin Hins']; subst; cbn [place_sprites].
  - intros H. injection H as <- <-.
    split; [lia|]. do 4 (split; [lia|]).
    split; [intros p []|constructor].
  - inversion Htrims as [|? ? Htrim Htrims']; subst.
    destruct pos as [x y]. cbn [hd tl].
    pose proof (placed_sprite_target spr x y Htrim Hin Hmw Hmh) as Htarget.
    pose proof Hin as Hin'. unfold packed_inside in Hin'.
    destruct (rp_rect_size args spr) as [w h] eqn:Hsize.
    cbn [fst snd] in Hin'. destruct Hin' as (Hx & Hy & Hxw & Hyh).
    cbv zeta in Htarget.
    destruct Htarget as (Hsheet & Hdx & Hdy & Hrw & Hrh).
    set (placed_spr := set_sheet_rect spr _) in *.
    assert (Hw0 : 2 * (border args + padding args) <= w
                  /\ 2 * (border args + padding args) <= h).
    { pose proof (rp_rect_size_plain spr Htrim) as Hplain.
      rewrite Hsize in Hplain.
      pose proof (f_equal fst Hplain) as Hwe. pose proof (f_equal snd Hplain) as Hhe.
      cbn [fst snd] in Hwe, Hhe.
      destruct Htrim as (? & ? & ? & ?). lia. }
    set (fr1 := sx_irect_add_point
                  (sx_irect_add_point fr (vmin (sx_irectwh x y w h)))
                  (vmax (sx_irectwh x y w h))).
    assert (Hfr1 : xmin fr1 = Z.min (xmin fr) x /\ ymin fr1 = Z.min (ymin fr) y
                   /\ xmax fr1 = Z.max (xmax fr) (x + w)
                   /\ ymax fr1 = Z.max (ymax fr) (y + h)).
    { unfold fr1, sx_irect_add_point, sx_irectwh, vmin, vmax, Int32.add.
      cbn [xmin ymin xmax ymax vx vy].
      unfold Int32.INT_MAX in *.
      rewrite !int32_id by (unfold Int32.INT_MIN, Int32.INT_MAX; lia).
      lia. }
    destruct Hfr1 as (Hf1 & Hf2 & Hf3 & Hf4).
    destruct (place_sprites args rest placed' fr1) as [fr2 rest'] eqn:Hrest.
    intros H. injection H as <- <-.
    destruct (IH placed' fr1 fr2 rest' Htrims' Hins' Hrest)
      as ((Hm1 & Hm2 & Hm3 & Hm4) & Hc1 & Hc2 & Hc3 & Hc4 & Hpos & Hall).
    split; [lia|].
    split; [lia|]. split; [lia|]. split; [lia|]. split; [lia|].
    split.
    + intros p [<- | Hp]; [cbn [fst snd]; lia | apply Hpos; exact Hp].
    + constructor; [|exact Hall].
      rewrite Hdx, Hdy, Hrw, Hrh. lia.
Qed.

(** Sizing keeps an extent that fits below 2^30. *)
Lemma canvas_extent_covers pot x :
  0 <= x <= 1073741824 ->
  x <= canvas_extent pot x <= 1073741824.
Proof.
  intros Hx.
  assert (Ha : x <= sx_align_mask x 3 <= 1073741824
               /\ 0 <= sx_align_mask x 3).
  { rewrite sx_align_mask_3.
    rewrite (int32_id (x + 3)) by (unfold Int32.INT_MIN, Int32.INT_MAX; lia).
    pose proof (Z.div_mod (x + 3) 4 ltac:(lia)).
    pose proof (Z.mod_pos_bound (x + 3) 4 ltac:(lia)). lia. }
  unfold canvas_extent. destruct (pot =? 0); [lia|].
  destruct (Z.eq_dec (sx_align_mask x 3) 0) as [Hz | Hnz].
  - rewrite Hz. rewrite sx_nearest_pow2_0. lia.
  - destruct (sx_nearest_pow2_rounds_up (sx_align_mask x 3) ltac:(lia))
      as (-> & Hge & Hleast).
    specialize (Hleast 30 ltac:(lia)).
    change (2 ^ 30) with 1073741824 in Hleast. lia.
Qed.


End Packing.

Section Placement.

Variable E : externals.
Variable fuel : nat.
Variable args : atlasc_args.

(** The outcome of a build in which the packer placed every rect. *)
Lemma atlasc_make_packed loaded placed fr sprs out :
  load_sprites E fuel args (in_filepaths args) = Some (inr loaded) ->
  stbrp_pack_rects E (max_width args) (max_height args)
                   (map (rp_rect_size args) loaded) = (true, placed) ->
  place_sprites args loaded placed empty_rect = (fr, sprs) ->
  atlasc_make E fuel args = Some out ->
  (exists msg, out = failed msg)
  \/ (mk_sprites out = (if mesh args =? 0 then sprs else map (sprite_uvs args) sprs)
      /\ mk_dst_w out = canvas_extent (pot args) (Int32.sub (xmax fr) (xmin fr))
      /\ mk_dst_h out = canvas_extent (pot args) (Int32.sub (ymax fr) (ymin fr))).
Proof.
  intros Hload Hpack Hplace Hmake.
  destruct (atlasc_make_cases E fuel args out Hmake)
    as [Hfailed | (loaded' & dst & Hload' & _ & _ & ->)]; [left; exact Hfailed|].
  right. rewrite Hload in Hload'. injection Hload' as <-.
  destruct (built_members E args loaded dst) as (_ & _ & -> & Hsize & _).
  assert (Hw : mk_dst_w (built E args loaded dst) = fst (sheet_size E args loaded))
    by (rewrite <- Hsize; reflexivity).
  assert (Hh : mk_dst_h (built E args loaded dst) = snd (sheet_size E args loaded))
    by (rewrite <- Hsize; reflexivity).
  rewrite Hw, Hh. unfold final_sprites, placed_sprites, sheet_size.
  rewrite Hpack, Hplace, canvas_size_extents. cbn [fst snd]. repeat split.
Qed.

Lemma place_sprites_keeps (P : atlasc__sprite -> Prop) sprs :
  (forall spr rc, P spr -> P (set_sheet_rect spr rc)) ->
  forall placed final_rect,
    Forall P sprs -> Forall P (snd (place_sprites args sprs placed final_rect)).
Proof.
  intros Hkeep.
  induction sprs as [|spr rest IH]; intros placed final_rect Hall;
    cbn [place_sprites]; [constructor|].
  inversion Hall as [|? ? Hspr Hrest]; subst.
  destruct (hd (0, 0) placed) as [x y].
  destruct (rp_rect_size args spr) as [w h].
  specialize (IH (tl placed)
    (sx_irect_add_point
       (sx_irect_add_point final_rect (vmin (sx_irectwh x y w h)))
       (vmax (sx_irectwh x y w h))) Hrest).
  destruct (place_sprites args rest (tl placed) _) as [fr rest'].
  cbn [snd] in *. constructor; [|exact IH].
  apply Hkeep. exact Hspr.
Qed.

End Placement.

(** X17. The blits of a build stay in bounds.  When the packer reports
    success and its answer keeps every rect inside the bin at a non-negative
    position, with some rect at the left edge and some rect at the top edge,
    and the sprite_rect of every sprite lies inside its source image, then
    the sheet is at most 2^30 pixels either way and every sprite's blit
    reads inside its source image and writes inside the sheet: the source
    rectangle and the target rectangle (the corner of sheet_rect moved
    inward by the padding, with the extent of sprite_rect) both fit. *)
Theorem packed_sprites_fit_the_sheet
        (E : externals) (fuel : nat) (args : atlasc_args)
        (loaded : list atlasc__sprite) (placed : list (Z * Z))
        (out : make_outcome) :
  load_sprites E fuel args (in_filepaths args) = Some (inr loaded) ->
  stbrp_pack_rects E (max_width args) (max_height args)
                   (map (rp_rect_size args) loaded) = (true, placed) ->
  atlasc_make E fuel args = Some out ->
  0 <= border args -> 0 <= padding args ->
  max_width args <= 1073741824 -> max_height args <= 1073741824 ->
  Forall (trim_sized args) loaded ->
  Forall crop_inside loaded ->
  Forall2 (packed_inside args) loaded placed ->
  (exists p, In p placed /\ fst p = 0) ->
  (exists p, In p placed /\ snd p = 0) ->
  0 <= mk_dst_w out <= 1073741824
  /\ 0 <= mk_dst_h out <= 1073741824
  /\ Forall (blit_fits args (mk_dst_w out) (mk_dst_h out)) (mk_sprites out).
Proof.
  intros Hload Hpack Hmake Hb Hp Hmw Hmh Htrims Hcrops Hins
         (px & Hpx & Hx0) (py & Hpy & Hy0).
  destruct (place_sprites args loaded placed empty_rect) as [fr sprs] eqn:Hplace.
  destruct (atlasc_make_packed E fuel args loaded placed fr sprs out
              Hload Hpack Hplace Hmake) as [(msg & ->) | (Hsprs & Hw & Hh)].
  { cbn [failed mk_dst_w mk_dst_h mk_sprites].
    split; [lia|]. split; [lia | constructor]. }
  destruct (place_sprites_targets args Hb Hp
              ltac:(unfold Int32.INT_MAX; lia) ltac:(unfold Int32.INT_MAX; lia)
              loaded placed empty_rect fr sprs Htrims Hins Hplace)
    as (_ & Hc1 & Hc2 & Hc3 & Hc4 & Hpos & Hall).
  unfold empty_rect, Int32.INT_MAX, Int32.INT_MIN in Hc1, Hc2, Hc3, Hc4.
  cbn [xmin ymin xmax ymax] in Hc1, Hc2, Hc3, Hc4.
  pose proof (Hpos px Hpx) as [Hfx _]. pose proof (Hpos py Hpy) as [_ Hfy].
  assert (Hxmin : xmin fr = 0) by lia.
  assert (Hymin : ymin fr = 0) by lia.
  assert (Hxmax : 0 <= xmax fr <= 1073741824) by lia.
  assert (Hymax : 0 <= ymax fr <= 1073741824) by lia.
  assert (Hsw : Int32.sub (xmax fr) (xmin fr) = xmax fr).
  { rewrite Hxmin. unfold Int32.sub. rewrite Z.sub_0_r.
    apply Int32Facts.wrap_id.
    unfold Int32.in_range, Int32.INT_MIN, Int32.INT_MAX. lia. }
  assert (Hsh : Int32.sub (ymax fr) (ymin fr) = ymax fr).
  { rewrite Hymin. unfold Int32.sub. rewrite Z.sub_0_r.
    apply Int32Facts.wrap_id.
    unfold Int32.in_range, Int32.INT_MIN, Int32.INT_MAX. lia. }
  rewrite Hsw in Hw. rewrite Hsh in Hh.
  pose proof (canvas_extent_covers (pot args) (xmax fr) Hxmax) as Hcw.
  pose proof (canvas_extent_covers (pot args) (ymax fr) Hymax) as Hch.
  rewrite <- Hw in Hcw. rewrite <- Hh in Hch.
  split; [lia|]. split; [lia|].
  (* the source side of every blit *)
  assert (Hsrc : Forall (fun spr => trim_sized args spr /\ crop_inside spr) sprs).
  { replace sprs with (snd (place_sprites args loaded placed empty_rect))
      by (rewrite Hplace; reflexivity).
    apply place_sprites_keeps; [intros spr rc H; exact H|].
    apply Forall_forall. intros spr Hin.
    rewrite Forall_forall in Htrims, Hcrops. split; auto. }
  assert (Hfit : Forall (blit_fits args (mk_dst_w out) (mk_dst_h out)) sprs).
  { apply Forall_forall. intros spr Hin.
    rewrite Forall_forall in Hall, Hsrc.
    destruct (Hall spr Hin) as (H1 & H2 & H3 & H4).
    destruct (Hsrc spr Hin) as ((Htx & Hty & Htw & Hth) & Himg & Hcx & Hcy).
    assert (Hrw : rect_width (sprite_rect spr)
                  = xmax (sprite_rect spr) - xmin (sprite_rect spr)).
    { apply Int32Facts.wrap_id.
      unfold Int32.in_range, Int32.INT_MIN, Int32.INT_MAX in *. lia. }
    assert (Hrh : rect_height (sprite_rect spr)
                  = ymax (sprite_rect spr) - ymin (sprite_rect spr)).
    { apply Int32Facts.wrap_id.
      unfold Int32.in_range, Int32.INT_MIN, Int32.INT_MAX in *. lia. }
    unfold blit_fits. cbv zeta. rewrite Hrw, Hrh in *.
    split; [exact Himg|]. repeat split; lia. }
  rewrite Hsprs. destruct (mesh args =? 0); [exact Hfit|].
  apply Forall_map. revert Hfit. apply Forall_impl.
  intros spr. apply blit_fits_uvs.
Qed.

Lemma packed_sprites_fit_the_sheet_witness :
  0 <= mk_dst_w Sample.out <= 1073741824
  /\ 0 <= mk_dst_h Sample.out <= 1073741824
  /\ Forall (blit_fits Sample.args (mk_dst_w Sample.out) (mk_dst_h Sample.out))
            (mk_sprites Sample.out).
Proof.
  apply (packed_sprites_fit_the_sheet Sample.E 50 Sample.args
           [Sample.loaded] [(0, 0)] Sample.out).
  - vm_compute. reflexivity.
  - vm_compute. reflexivity.
  - vm_compute. reflexivity.
  - vm_compute. discriminate.
  - vm_compute. discriminate.
  - vm_compute. discriminate.
  - vm_compute. discriminate.
  - constructor; [|constructor]. vm_compute. repeat split; discriminate.
  - constructor; [|constructor]. vm_compute. repeat split; discriminate.
  - constructor; [|constructor]. vm_compute. repeat split; discriminate.
  - exists (0, 0). split; [left; reflexivity | reflexivity].
  - exists (0, 0). split; [left; reflexivity | reflexivity].
Defined.

(* ================================================================== *)
(** ** Sprites that do not overlap on the sheet *)

Lemma ForallOrdPairs_after {A} (R : A -> A -> Prop) before a after :
  ForallOrdPairs R (before ++ a :: after) -> Forall (R a) after.
Proof.
  induction before as [|b before IH]; cbn [app]; intros Hall;
    inversion Hall as [|? ? Hhead Htail]; subst.
  - exact Hhead.
  - apply IH. exact Htail.
Qed.

(** X18. When the rectangles that the sprites are blitted to are pairwise
    disjoint, as they are when the packer does not overlap its rects, no
    blit overwrites another: every pixel of the target rectangle of every
    sprite shows, on the sheet handed to [atlasc__save], the pixel of that
    sprite's source image at the same offset from the corner of its
    sprite_rect. *)
Theorem disjoint_sprites_show_intact
        (args : atlasc_args) (sprites : list atlasc__sprite) (dst_w dst_h : Z) :
  0 <= dst_w -> 0 <= dst_h -> dst_h <= Int32.INT_MAX ->
  dst_w * 4 <= Int32.INT_MAX -> dst_w * dst_h * 4 <= Int32.INT_MAX ->
  Forall (blit_fits args dst_w dst_h) sprites ->
  ForallOrdPairs (disjoint_targets args) sprites ->
  exists sheet,
    sheet_pixels args sprites dst_w dst_h = Some sheet
    /\ forall spr x y b,
         In spr sprites ->
         0 <= x < dst_w -> 0 <= y < dst_h -> 0 <= b < 4 ->
         covers args spr x y ->
         pixel_byte sheet dst_w 4 x y b = source_byte args spr x y b.
Proof.
  intros Hw Hh Hh' Hp Ha Hfits Hapart. unfold sheet_pixels. cbv zeta.
  destruct (sheet_buffer_cleared dst_w dst_h Hw Hh Hh' Hp Ha) as [-> Hd].
  destruct (blit_sprites_pixels args dst_w dst_h sprites _ Hd Hfits)
    as (sheet & Hsheet & _ & Hpix).
  exists sheet. split; [exact Hsheet|].
  intros spr x y b Hin Hx Hy Hb Hcov.
  destruct (in_split spr sprites Hin) as (before & after & Heq).
  destruct (Hpix x y b Hx Hy Hb) as [_ Hlast].
  apply (Hlast before spr after Heq Hcov).
  rewrite Heq in Hapart.
  pose proof (ForallOrdPairs_after _ _ _ _ Hapart) as Hafter.
  rewrite Forall_forall in Hafter.
  intros s Hs. apply (Hafter s Hs x y Hcov).
Qed.

Lemma disjoint_sprites_show_intact_witness :
  exists sheet,
    sheet_pixels Pair.args (mk_sprites Pair.out)
                 (mk_dst_w Pair.out) (mk_dst_h Pair.out) = Some sheet
    /\ forall spr x y b,
         In spr (mk_sprites Pair.out) ->
         0 <= x < mk_dst_w Pair.out -> 0 <= y < mk_dst_h Pair.out ->
         0 <= b < 4 ->
         covers Pair.args spr x y ->
         pixel_byte sheet (mk_dst_w Pair.out) 4 x y b
         = source_byte Pair.args spr x y b.
Proof.
  apply (disjoint_sprites_show_intact Pair.args (mk_sprites Pair.out)
                                      (mk_dst_w Pair.out) (mk_dst_h Pair.out)).
  1-5: vm_compute; discriminate.
  - replace (mk_sprites Pair.out) with [Pair.first; Pair.second]
      by (vm_compute; reflexivity).
    constructor; [|constructor; [|constructor]].
    + vm_compute. repeat split; discriminate.
    + vm_compute. repeat split; discriminate.
  - replace (mk_sprites Pair.out) with [Pair.first; Pair.second]
      by (vm_compute; reflexivity).
    constructor; [|constructor; constructor].
    constructor; [|constructor].
    intros x y (Hx & _) (Hx' & _).
    assert (H1 : xmin (contracted_sheet_rect Pair.args Pair.first)
                 + rect_width (sprite_rect Pair.first) = 8)
      by (vm_compute; reflexivity).
    assert (H2 : xmin (contracted_sheet_rect Pair.args Pair.second) = 14)
      by (vm_compute; reflexivity).
    lia.
Defined.

(* ================================================================== *)
(** ** main: the option loop *)

Lemma cmdline_step_dec (a b : cmdline_step) : {a = b} + {a <> b}.
Proof. decide equality; [apply string_dec | apply ascii_dec]. Qed.

Section Options.

Variable sx_toint : string -> Z.
Variable help : string.

(** One turn of the loop on a step that does not leave [main]. *)
Lemma option_case_goes_on st step :
  leaves_main step = false ->
  exists st',
    option_case sx_toint help st step = inr st'
    /\ in_filepaths (st_args st')
       = in_filepaths (st_args st) ++ inputs_of [step]
    /\ out_filepath (st_args st')
       = output_of [step] (out_filepath (st_args st))
    /\ st_version st'
       = match step with flag_set_version => 1 | _ => st_version st end.
Proof.
  destruct step as [opt arg | | |]; cbn [leaves_main]; intros Hgo.
  - destruct opt as [[|] [|] [|] [|] [|] [|] [|] [|]];
      try discriminate Hgo;
      (eexists; split; [reflexivity|]);
      cbn; rewrite ?app_nil_r; repeat split.
  - eexists. split; [reflexivity|]. cbn. rewrite app_nil_r. repeat split.
  - eexists. split; [reflexivity|]. cbn. rewrite app_nil_r. repeat split.
  - eexists. split; [reflexivity|]. cbn. rewrite app_nil_r. repeat split.
Qed.


Lemma option_loop_goes_on steps : forall st,
  forallb (fun step => negb (leaves_main step)) steps = true ->
  exists st',
    option_loop sx_toint help steps st = inr st'
    /\ in_filepaths (st_args st')
       = in_filepaths (st_args st) ++ inputs_of steps
    /\ out_filepath (st_args st')
       = output_of steps (out_filepath (st_args st))
    /\ (In flag_set_version steps -> st_version st' = 1)
    /\ (~ In flag_set_version steps -> st_version st' = st_version st).
Proof.
  induction steps as [|step rest IH]; intros st Hgo; cbn [option_loop].
  - exists st. split; [reflexivity|]. cbn. rewrite app_nil_r.
    repeat split; tauto.
  - cbn [forallb] in Hgo. apply andb_true_iff in Hgo. destruct Hgo as [Hstep Hrest].
    apply negb_true_iff in Hstep.
    destruct (option_case_goes_on st step Hstep) as (st1 & -> & Hin1 & Hout1 & Hv1).
    destruct (IH st1 Hrest) as (st' & -> & Hin' & Hout' & Hv' & Hnv').
    exists st'. split; [reflexivity|].
    split.
    { rewrite Hin', Hin1. unfold inputs_of. cbn [flat_map].
      rewrite app_nil_r, app_assoc. reflexivity. }
    split.
    { rewrite Hout', Hout1. reflexivity. }
    split.
    + intros [-> | Hin].
      * destruct (in_dec cmdline_step_dec flag_set_version rest) as [Hyes | Hno].
        -- apply Hv'. exact Hyes.
        -- rewrite (Hnv' Hno). exact Hv1.
      * apply Hv'. exact Hin.
    + intros Hno. rewrite Hnv' by (intros Hin; apply Hno; right; exact Hin).
      rewrite Hv1. destruct step; try reflexivity.
      exfalso. apply Hno. left. reflexivity.
Qed.

(** The loop stops at the first step that leaves [main]. *)
Lemma option_loop_leaves before step after : forall st st',
  option_loop sx_toint help before st = inr st' ->
  option_loop sx_toint help (before ++ step :: after) st
  = match option_case sx_toint help st' step with
    | inl r => inl r
    | inr st'' => option_loop sx_toint help after st''
    end.
Proof.
  induction before as [|b before IH]; intros st st'; cbn [app option_loop].
  - intros H. injection H as <-. reflexivity.
  - destruct (option_case sx_toint help st b) as [r | st1]; [discriminate|].
    apply IH.
Qed.

End Options.

(** X19. When no option is rejected and -h is not given, the option loop of
    [main] runs to the end of the command line, and then the inputs are the
    arguments of the -i options in the order given, the output path is the
    argument of the last -o option, and the version flag is set exactly when
    the version option was given.  An argument without a flag is printed and
    is not an input. *)
Theorem option_loop_collects_inputs
        (sx_toint : string -> Z) (help : string) (steps : list cmdline_step) :
  forallb (fun step => negb (leaves_main step)) steps = true ->
  exists st,
    option_loop sx_toint help steps initial_state = inr st
    /\ in_filepaths (st_args st) = inputs_of steps
    /\ out_filepath (st_args st) = output_of steps None
    /\ (st_version st <> 0 <-> In flag_set_version steps).
Proof.
  intros Hgo.
  destruct (option_loop_goes_on sx_toint help steps initial_state Hgo)
    as (st & Hloop & Hin & Hout & Hv & Hnv).
  exists st. split; [exact Hloop|]. split; [exact Hin|]. split; [exact Hout|].
  split.
  - intros Hne.
    destruct (in_dec cmdline_step_dec flag_set_version steps) as [Hyes | Hno]; [exact Hyes|].
    rewrite (Hnv Hno) in Hne. cbn in Hne. congruence.
  - intros Hyes. rewrite (Hv Hyes). discriminate.
Qed.

Lemma option_loop_collects_inputs_witness :
  exists st,
    option_loop (fun _ => 0) "usage"
      [returned "+" "stray.png"; returned "i" "a.png"; flag_set_mesh;
       returned "o" "x.json"; returned "i" "b.png"; returned "o" "atlas.json"]
      initial_state = inr st
    /\ in_filepaths (st_args st)
       = inputs_of
           [returned "+" "stray.png"; returned "i" "a.png"; flag_set_mesh;
            returned "o" "x.json"; returned "i" "b.png"; returned "o" "atlas.json"]
    /\ out_filepath (st_args st)
       = output_of
           [returned "+" "stray.png"; returned "i" "a.png"; flag_set_mesh;
            returned "o" "x.json"; returned "i" "b.png"; returned "o" "atlas.json"]
           None
    /\ (st_version st <> 0
        <-> In flag_set_version
              [returned "+" "stray.png"; returned "i" "a.png"; flag_set_mesh;
               returned "o" "x.json"; returned "i" "b.png";
               returned "o" "atlas.json"]).
Proof.
  apply (option_loop_collects_inputs (fun _ => 0) "usage"
           [returned "+" "stray.png"; returned "i" "a.png"; flag_set_mesh;
            returned "o" "x.json"; returned "i" "b.png"; returned "o" "atlas.json"]).
  reflexivity.
Defined.

(** X20. The first step at which the parser reports an unknown option or a
    misused one ends the run with the status -1, and the first -h ends it
    with 0 after the help text: the steps after it are not read, no input is
    loaded and nothing is written, even when the version option came
    before. *)
Theorem rejected_option_ends_the_run
        (E : externals) (sx_toint : string -> Z) (help : string) (fuel : nat)
        (before after : list cmdline_step) (arg : string)
        (st : main_state) :
  option_loop sx_toint help before initial_state = inr st ->
  (atlasc_main E sx_toint help fuel (before ++ returned "?" arg :: after)
   = Some (-1, st_printed st ++ [("Unknown argument: " ++ arg)%string]))
  /\ (atlasc_main E sx_toint help fuel (before ++ returned "!" arg :: after)
      = Some (-1, st_printed st
                  ++ [("Invalid use of argument: " ++ arg)%string]))
  /\ (atlasc_main E sx_toint help fuel (before ++ returned "h" arg :: after)
      = Some (0, st_printed st ++ print_help help)).
Proof.
  intros Hloop. unfold atlasc_main.
  rewrite !(option_loop_leaves sx_toint help before _ after initial_state st Hloop).
  repeat split.
Qed.

Lemma rejected_option_ends_the_run_witness :
  (atlasc_main Sample.E (fun _ => 0) "usage" 50
     ([returned "i" "a.png"; flag_set_version]
      ++ returned "?" "--bogus" :: [returned "o" "atlas.json"])
   = Some (-1, st_printed (mk_main_state 1 Garbled.one_input [])
               ++ [("Unknown argument: " ++ "--bogus")%string]))
  /\ (atlasc_main Sample.E (fun _ => 0) "usage" 50
        ([returned "i" "a.png"; flag_set_version]
         ++ returned "!" "--bogus" :: [returned "o" "atlas.json"])
      = Some (-1, st_printed (mk_main_state 1 Garbled.one_input [])
                  ++ [("Invalid use of argument: " ++ "--bogus")%string]))
  /\ (atlasc_main Sample.E (fun _ => 0) "usage" 50
        ([returned "i" "a.png"; flag_set_version]
         ++ returned "h" "--bogus" :: [returned "o" "atlas.json"])
      = Some (0, st_printed (mk_main_state 1 Garbled.one_input [])
                 ++ print_help "usage")).
Proof.
  apply (rejected_option_ends_the_run Sample.E (fun _ => 0) "usage" 50
           [returned "i" "a.png"; flag_set_version]
           [returned "o" "atlas.json"] "--bogus"
           (mk_main_state 1 Garbled.one_input [])).
  reflexivity.
Defined.

Lemma find_not_file (E : externals) paths :
  forallb (sx_os_path_isfile E) paths = true ->
  find (fun path => negb (sx_os_path_isfile E path)) paths = None.
Proof.
  induction paths as [|p rest IH]; cbn [forallb find]; [reflexivity|].
  intros H. apply andb_true_iff in H. destruct H as [Hp Hrest].
  rewrite Hp. cbn [negb]. apply IH. exact Hrest.
Qed.

(** X21. A run whose inputs are all files but one of which the decoder
    refuses ends with the status -1 and prints nothing about it: the build
    stops at that input and leaves "invalid image format" with its path, as
    far as the two fit [g_error_str[512]], in the error string, which [main]
    never shows, and no file is written. *)
Theorem undecodable_input_fails_silently
        (E : externals) (sx_toint : string -> Z) (help : string) (fuel : nat)
        (steps : list cmdline_step) (st : main_state)
        (good : list string) (bad : string) (rest : list string) :
  option_loop sx_toint help steps initial_state = inr st ->
  st_version st = 0 ->
  out_filepath (st_args st) <> None ->
  in_filepaths (st_args st) = good ++ bad :: rest ->
  forallb (sx_os_path_isfile E) (in_filepaths (st_args st)) = true ->
  Forall (fun p => exists spr, load_sprite E fuel (st_args st) p = Some (inr spr))
         good ->
  stbi_load E bad = None ->
  atlasc_main E sx_toint help fuel steps = Some (-1, st_printed st)
  /\ atlasc_make E fuel (st_args st)
     = Some (mk_make_outcome
               false (sx_snprintf 512 ("invalid image format: " ++ bad))
               false [] 0 0 [] []).
Proof.
  intros Hloop Hv Hout Hpaths Hfiles Hgood Hbad.
  assert (Hfile : sx_os_path_isfile E bad = true).
  { rewrite Hpaths in Hfiles. rewrite forallb_app in Hfiles.
    apply andb_true_iff in Hfiles. destruct Hfiles as [_ Hfiles].
    cbn [forallb] in Hfiles. apply andb_true_iff in Hfiles. tauto. }
  assert (Hone : load_sprite E fuel (st_args st) bad
                 = Some (inl (sx_snprintf 512 ("invalid image format: " ++ bad)))).
  { unfold load_sprite. rewrite Hfile, Hbad. reflexivity. }
  assert (Hmake : atlasc_make E fuel (st_args st)
                  = Some (mk_make_outcome
                            false
                            (sx_snprintf 512 ("invalid image format: " ++ bad))
                            false [] 0 0 [] [])).
  { unfold atlasc_make. rewrite Hpaths.
    rewrite (load_sprites_first_refused E fuel (st_args st) good bad rest _
                                        Hgood Hone).
    reflexivity. }
  split; [|exact Hmake].
  unfold atlasc_main. rewrite Hloop, Hv. cbn [Z.eqb negb].
  rewrite (find_not_file E _ Hfiles), Hmake.
  destruct (in_filepaths (st_args st)) as [|p ps] eqn:Hin.
  { destruct good; discriminate. }
  destruct (out_filepath (st_args st)); [|congruence].
  cbn. rewrite app_nil_r. reflexivity.
Qed.

Lemma undecodable_input_fails_silently_witness :
  atlasc_main Garbled.E (fun _ => 0) "usage" 0 Garbled.steps
  = Some (-1, st_printed (mk_main_state 0 Garbled.args []))
  /\ atlasc_make Garbled.E 0 (st_args (mk_main_state 0 Garbled.args []))
     = Some (mk_make_outcome
               false (sx_snprintf 512 ("invalid image format: " ++ "notes.txt"))
               false [] 0 0 [] []).
Proof.
  apply (undecodable_input_fails_silently Garbled.E (fun _ => 0) "usage" 0
           Garbled.steps (mk_main_state 0 Garbled.args [])
           ["a.png"%string] "notes.txt" []).
  - reflexivity.
  - reflexivity.
  - discriminate.
  - reflexivity.
  - reflexivity.
  - constructor; [|constructor].
    exists (match load_sprite Garbled.E 0 Garbled.args "a.png" with
            | Some (inr spr) => spr
            | _ => zero_sprite
            end).
    vm_compute. reflexivity.
  - vm_compute. reflexivity.
Defined.

(* ================================================================== *)
(** ** The mesh arrays of atlasc__make_mesh in the manifest *)

Section MeshArrays.

Variable E : externals.
Variable fuel : nat.
Variable args : atlasc_args.

Lemma load_sprite_mesh_shape path spr :
  load_sprite E fuel args path = Some (inr spr) ->
  num_tris spr = 0 \/ mesh_from (tri_delaunay2d_from E) spr.
Proof.
  unfold load_sprite.
  destruct (negb (sx_os_path_isfile E path)); [discriminate|].
  destruct (stbi_load E path) as [pixels|]; [|discriminate].
  destruct (mesh args =? 0).
  - intros H. injection H as <-. left. reflexivity.
  - unfold atlasc__make_mesh.
    destruct (simplify_loop E fuel _ _ _) as [[simplified threshold]|];
      [|discriminate].
    destruct (atlasc__fix_outline_pts fuel _ _ _ simplified (length simplified))
      as [corrected|]; [|discriminate].
    intros H. injection H as <-. right. exists corrected. cbn. repeat split.
Qed.

Lemma place_sprites_mesh_shape sprs : forall placed final_rect,
  Forall (fun spr => num_tris spr = 0 \/ mesh_from (tri_delaunay2d_from E) spr) sprs ->
  Forall (fun spr => num_tris spr = 0 \/ mesh_from (tri_delaunay2d_from E) spr)
         (snd (place_sprites args sprs placed final_rect)).
Proof.
  induction sprs as [|spr rest IH]; intros placed final_rect Hall;
    cbn [place_sprites]; [constructor|].
  inversion Hall as [|? ? Hspr Hrest]; subst.
  destruct (hd (0, 0) placed) as [x y].
  destruct (rp_rect_size args spr) as [w h].
  specialize (IH (tl placed)
    (sx_irect_add_point
       (sx_irect_add_point final_rect (vmin (sx_irectwh x y w h)))
       (vmax (sx_irectwh x y w h))) Hrest).
  destruct (place_sprites args rest (tl placed) _) as [fr rest'].
  cbn [snd] in *. constructor; [|exact IH].
  destruct Hspr as [Hz | (t & H1 & H2 & H3 & H4)]; [left; exact Hz|].
  right. exists t. cbn. repeat split; assumption.
Qed.

Lemma sprite_uvs_mesh_shape spr :
  num_tris spr = 0 \/ mesh_from (tri_delaunay2d_from E) spr ->
  num_tris (sprite_uvs args spr) = 0
  \/ mesh_from (tri_delaunay2d_from E) (sprite_uvs args spr).
Proof.
  intros [Hz | (t & H1 & H2 & H3 & H4)].
  - left. destruct (sprite_uvs_rects args spr) as (_ & _ & _ & _ & -> & _). exact Hz.
  - right. exists t. unfold sprite_uvs. rewrite H2.
    destruct (num_points spr =? 0); cbn; rewrite ?H2; repeat split; assumption.
Qed.

Lemma atlasc_make_mesh_shape out spr :
  atlasc_make E fuel args = Some out ->
  In spr (mk_sprites out) ->
  num_tris spr = 0 \/ mesh_from (tri_delaunay2d_from E) spr.
Proof.
  intros Hmake Hin.
  destruct (atlasc_make_cases E fuel args out Hmake)
    as [(msg & ->) | (loaded & dst & Hload & _ & _ & ->)].
  { destruct Hin. }
  destruct (built_members E args loaded dst) as (_ & _ & Hsprs & _).
  unfold final_sprites in Hsprs.
  assert (Hloaded : Forall (fun spr => num_tris spr = 0
                                       \/ mesh_from (tri_delaunay2d_from E) spr)
                           loaded).
  { pose proof (load_sprites_each E fuel args _ _ Hload) as Heach.
    revert Heach. apply Forall_impl. intros a (path & _ & Hone).
    exact (load_sprite_mesh_shape path a Hone). }
  assert (Hplaced : Forall (fun spr => num_tris spr = 0
                                       \/ mesh_from (tri_delaunay2d_from E) spr)
                           (placed_sprites E args loaded)).
  { unfold placed_sprites.
    destruct (stbrp_pack_rects E _ _ _) as [[|] placed]; [|exact Hloaded].
    apply place_sprites_mesh_shape. exact Hloaded. }
  rewrite Hsprs in Hin. rewrite Forall_forall in Hplaced.
  destruct (mesh args =? 0); [apply Hplaced; exact Hin|].
  apply in_map_iff in Hin. destruct Hin as (q & <- & Hq).
  apply sprite_uvs_mesh_shape. apply Hplaced. exact Hq.
Qed.

End MeshArrays.

(** X22. The mesh object that the manifest holds for a sprite of a build is
    consistent with its counts: it is present only for a count of triangles
    from 1 to 65535, the indices array has three entries for each triangle
    counted, each below 65536, the positions array has as many points as
    num_vertices says, and the uvs array is as long as the positions
    array. *)
Theorem manifest_mesh_counts
        (E : externals) (fuel : nat) (args : atlasc_args) (out : make_outcome)
        (spr : atlasc__sprite) (path : string) (mm : manifest_mesh) :
  atlasc_make E fuel args = Some out ->
  In spr (mk_sprites out) ->
  ms_mesh (manifest_of_sprite E path spr) = Some mm ->
  0 < mm_num_tris mm < 65536
  /\ Z.of_nat (length (mm_indices mm)) = 3 * mm_num_tris mm
  /\ Forall (fun i => 0 <= i < 65536) (mm_indices mm)
  /\ Z.of_nat (length (mm_positions mm)) = mm_num_vertices mm
  /\ length (mm_uvs mm) = length (mm_positions mm).
Proof.
  intros Hmake Hin Hmesh.
  pose proof (build_uvs E fuel args out spr Hmake Hin) as Huv.
  pose proof (atlasc_make_mesh_shape E fuel args out spr Hmake Hin) as Hshape.
  unfold manifest_of_sprite in Hmesh. cbn [ms_mesh] in Hmesh.
  destruct (Z.eqb_spec (num_tris spr) 0) as [Hz | Hnz]; [discriminate|].
  destruct Hshape as [Hz | (polygon & Ht & Hp & Hnt & Hnp)]; [contradiction|].
  injection Hmesh as <-.
  cbn [mm_num_tris mm_indices mm_positions mm_num_vertices mm_uvs].
  fold (positions spr). fold (uv_coords spr).
  set (t := tri_delaunay2d_from E polygon) in *.
  assert (Hrange : 0 <= num_tris spr < 65536).
  { rewrite Hnt. unfold uint16. apply Z.mod_pos_bound. lia. }
  assert (Hle : num_tris spr <= del_num_triangles t).
  { rewrite Hnt. unfold uint16. apply Z.mod_le; [|lia].
    unfold del_num_triangles. apply Z.div_pos; lia. }
  assert (Hlen : del_num_triangles t * 3 <= Z.of_nat (length (del_tris t))).
  { unfold del_num_triangles.
    pose proof (Z.mul_div_le (Z.of_nat (length (del_tris t))) 3 ltac:(lia)). lia. }
  split; [lia|]. split.
  { rewrite Ht, length_firstn, length_map, length_firstn. lia. }
  split.
  { rewrite Ht. apply Forall_forall. intros i Hi.
    apply In_firstn in Hi. apply in_map_iff in Hi.
    destruct Hi as (j & <- & _). unfold uint16. apply Z.mod_pos_bound. lia. }
  split.
  { unfold positions, array_of. rewrite Hp, Hnp. unfold del_num_points.
    rewrite Nat2Z.id, firstn_all. reflexivity. }
  rewrite Huv. apply length_map.
Qed.

Lemma manifest_mesh_counts_witness :
  let mm :=
    match ms_mesh (manifest_of_sprite Sample.E "a.png" Sample.sprite) with
    | Some m => m
    | None => mk_manifest_mesh 0 0 [] [] []
    end in
  0 < mm_num_tris mm < 65536
  /\ Z.of_nat (length (mm_indices mm)) = 3 * mm_num_tris mm
  /\ Forall (fun i => 0 <= i < 65536) (mm_indices mm)
  /\ Z.of_nat (length (mm_positions mm)) = mm_num_vertices mm
  /\ length (mm_uvs mm) = length (mm_positions mm).
Proof.
  apply (manifest_mesh_counts Sample.E 50 Sample.args Sample.out Sample.sprite
                              "a.png").
  - vm_compute. reflexivity.
  - vm_compute. left. reflexivity.
  - vm_compute. reflexivity.
Defined.

(* ================================================================== *)
(** ** The vertex budget of atlasc__make_mesh *)

Section VertexCount.

Variable E : externals.
Variable fuel : nat.
Variable args : atlasc_args.

(** The simplification loop leaves only when the count is within the
    budget. *)
Lemma simplify_loop_within n : forall pts max_verts threshold r threshold',
  simplify_loop E n pts max_verts threshold = Some (r, threshold') ->
  Z.of_nat (length r) <= max_verts.
Proof.
  induction n as [|n IH]; intros pts max_verts threshold r threshold';
    cbn [simplify_loop]; [discriminate|].
  destruct (Z.gtb_spec
              (Z.of_nat (length (s2o_distance_based_path_simplification
                                   E pts threshold))) max_verts) as [Hgt | Hle].
  - apply IH.
  - intros H. injection H as <- _. exact Hle.
Qed.

Lemma offset_pt_length pts num_pts i amount w h :
  length (snd (atlasc__offset_pt pts num_pts i amount w h)) = length pts.
Proof. unfold atlasc__offset_pt. cbv zeta. cbn [snd]. apply pt_set_length. Qed.

Lemma fix_edge_loop_length n m tw th num_pts i next_i : forall pts pts',
  fix_edge_loop n m tw th pts num_pts i next_i = Some pts' ->
  length pts' = length pts.
Proof.
  induction n as [|n IH]; intros pts pts'; cbn [fix_edge_loop]; [discriminate|].
  destruct (atlasc__test_line m tw th (pt_at pts i) (pt_at pts next_i)).
  - pose proof (offset_pt_length pts num_pts i offset_amount tw th) as H1.
    destruct (atlasc__offset_pt pts num_pts i offset_amount tw th)
      as [changed pts1]. cbn [snd] in H1.
    destruct changed.
    + pose proof (offset_pt_length pts1 num_pts next_i offset_amount tw th) as H2.
      destruct (atlasc__offset_pt pts1 num_pts next_i offset_amount tw th)
        as [moved pts2]. cbn [snd] in H2.
      intros H. rewrite (IH _ _ H). congruence.
    + intros H. injection H as <-. exact H1.
  - intros H. injection H as <-. reflexivity.
Qed.

Lemma fix_edges_from_length n m tw th num_pts todo : forall i pts pts',
  fix_edges_from n m tw th num_pts todo i pts = Some pts' ->
  length pts' = length pts.
Proof.
  induction todo as [|todo IH]; intros i pts pts'; cbn [fix_edges_from].
  - intros H. injection H as <-. reflexivity.
  - destruct (fix_edge_loop n m tw th pts num_pts i (next_index i num_pts))
      as [pts1|] eqn:Hedge; [|discriminate].
    intros H. rewrite (IH _ _ _ H).
    exact (fix_edge_loop_length _ _ _ _ _ _ _ _ _ Hedge).
Qed.

(** The polygon that the loading loop hands to the triangulation. *)
Lemma load_sprite_polygon path spr :
  mesh args <> 0 ->
  load_sprite E fuel args path = Some (inr spr) ->
  exists polygon,
    Z.of_nat (length polygon) <= max_verts_per_mesh args
    /\ pts spr = Some (del_points (tri_delaunay2d_from E polygon))
    /\ num_points spr = del_num_points (tri_delaunay2d_from E polygon).
Proof.
  intros Hmesh. unfold load_sprite.
  destruct (negb (sx_os_path_isfile E path)); [discriminate|].
  destruct (stbi_load E path) as [pixels|]; [|discriminate].
  apply Z.eqb_neq in Hmesh. rewrite Hmesh.
  unfold atlasc__make_mesh.
  destruct (simplify_loop E fuel _ _ _) as [[simplified threshold]|] eqn:Hsimp;
    [|discriminate].
  destruct (atlasc__fix_outline_pts fuel _ _ _ simplified (length simplified))
    as [corrected|] eqn:Hfix; [|discriminate].
  intros H. injection H as <-.
  exists corrected. split.
  - unfold atlasc__fix_outline_pts in Hfix.
    rewrite (fix_edges_from_length _ _ _ _ _ _ _ _ _ Hfix).
    exact (simplify_loop_within _ _ _ _ _ _ Hsimp).
  - cbn. split; reflexivity.
Qed.

End VertexCount.

(** X23. With the mesh option, and a triangulation that returns as many
    points as it is given, every sprite of a build has at most
    max_verts_per_mesh vertices: the polygon handed to the triangulation is
    what the simplification loop left, which is within the budget, with its
    vertices moved but not multiplied by the corrector.  The positions and
    uvs arrays of the manifest have exactly that many points. *)
Theorem mesh_has_at_most_max_verts
        (E : externals) (fuel : nat) (args : atlasc_args) (out : make_outcome)
        (spr : atlasc__sprite) :
  (forall polygon,
     length (del_points (tri_delaunay2d_from E polygon)) = length polygon) ->
  mesh args <> 0 ->
  atlasc_make E fuel args = Some out ->
  In spr (mk_sprites out) ->
  num_points spr <= max_verts_per_mesh args
  /\ Z.of_nat (length (positions spr)) = num_points spr
  /\ length (uv_coords spr) = length (positions spr).
Proof.
  intros Hkeep Hmesh Hmake Hin.
  pose proof (build_uvs E fuel args out spr Hmake Hin) as Huv.
  destruct (atlasc_make_sprite E fuel args out spr Hmake Hin)
    as (path & l & q & _ & Hone & (Hpts & Hnp & _) & _ & ->).
  destruct (load_sprite_polygon E fuel args path l Hmesh Hone)
    as (polygon & Hcount & Hlp & Hln).
  apply Z.eqb_neq in Hmesh. rewrite Hmesh in *.
  destruct (sprite_uvs_rects args q) as (_ & _ & Hqp & Hqn & _).
  assert (Hn : num_points (sprite_uvs args q)
               = Z.of_nat (length polygon)).
  { rewrite Hqn, <- Hnp, Hln. unfold del_num_points. rewrite Hkeep. reflexivity. }
  split; [lia|]. split.
  - unfold positions, array_of. rewrite Hqp, <- Hpts, Hlp, Hn.
    rewrite Nat2Z.id, <- (Hkeep polygon), firstn_all. lia.
  - rewrite Huv. apply length_map.
Qed.

Lemma mesh_has_at_most_max_verts_witness :
  num_points Sample.sprite <= max_verts_per_mesh Sample.args
  /\ Z.of_nat (length (positions Sample.sprite)) = num_points Sample.sprite
  /\ length (uv_coords Sample.sprite) = length (positions Sample.sprite).
Proof.
  apply (mesh_has_at_most_max_verts Sample.E 50 Sample.args Sample.out
                                    Sample.sprite).
  - intros polygon. reflexivity.
  - vm_compute. discriminate.
  - vm_compute. reflexivity.
  - vm_compute. left. reflexivity.
Defined.

(* ================================================================== *)
(** ** The passes of the simplification loop of atlasc__make_mesh *)

Section SimplifyPasses.

Variable E : externals.
Variable pts : list s2o_point.
Variable max_verts : Z.

Lemma threshold_at_S k : threshold_at (S k) = F32.add (threshold_at k) delta.
Proof. reflexivity. Qed.

(** The loop entered at pass [k0] with a budget of [fuel] passes. *)
Lemma simplify_loop_passes fuel : forall k0,
  match simplify_loop E fuel pts max_verts (threshold_at k0) with
  | Some (result, threshold) =>
      exists n, (n < fuel)%nat
        /\ result = simplified_at E pts (k0 + n)
        /\ threshold = threshold_at (S (k0 + n))
        /\ Z.of_nat (length result) <= max_verts
        /\ (forall j, (k0 <= j < k0 + n)%nat ->
                      max_verts < Z.of_nat (length (simplified_at E pts j)))
  | None =>
      forall j, (k0 <= j < k0 + fuel)%nat ->
                max_verts < Z.of_nat (length (simplified_at E pts j))
  end.
Proof.
  induction fuel as [|fuel IH]; intros k0; cbn [simplify_loop].
  - intros j Hj. lia.
  - fold (simplified_at E pts k0). rewrite <- threshold_at_S.
    destruct (Z.gtb_spec (Z.of_nat (length (simplified_at E pts k0))) max_verts)
      as [Hover | Hfits].
    + specialize (IH (S k0)).
      destruct (simplify_loop E fuel pts max_verts (threshold_at (S k0)))
        as [[result threshold]|].
      * destruct IH as (n & Hn & Hres & Hthr & Hlen & Hbefore).
        exists (S n). replace (k0 + S n)%nat with (S k0 + n)%nat by lia.
        split; [lia|]. split; [exact Hres|]. split; [exact Hthr|].
        split; [exact Hlen|].
        intros j Hj. destruct (Nat.eq_dec j k0) as [-> | Hne];
          [exact Hover | apply Hbefore; lia].
      * intros j Hj. destruct (Nat.eq_dec j k0) as [-> | Hne];
          [exact Hover | apply IH; lia].
    + exists O. rewrite Nat.add_0_r. split; [lia|].
      split; [reflexivity|]. split; [reflexivity|]. split; [exact Hfits|].
      intros j Hj. lia.
Qed.

End SimplifyPasses.

(** X24. The [do ... while] loop of [atlasc__make_mesh], pass by pass.  Pass
    [k], counted from 0, simplifies the original outline, not what the pass
    before left, with the threshold 0.5 after [k] additions of 0.5 in
    [float].  Run with a budget of passes, the loop returns exactly when one
    of the passes within the budget leaves no more than [max_verts] points:
    it then returns what the first such pass left, with the threshold already
    raised for a pass that is not made, so that at least one pass is always
    made; and it does not return within the budget exactly when every pass
    within it leaves more than [max_verts] points. *)
Theorem simplify_loop_returns_first_fit
        (E : externals) (pts : list s2o_point) (max_verts : Z) (fuel : nat) :
  match simplify_loop E fuel pts max_verts threshold_start with
  | Some (result, threshold) =>
      exists n, (n < fuel)%nat
        /\ result = s2o_distance_based_path_simplification E pts (threshold_at n)
        /\ threshold = F32.add (threshold_at n) delta
        /\ Z.of_nat (length result) <= max_verts
        /\ (forall j, (j < n)%nat ->
               max_verts
               < Z.of_nat (length (s2o_distance_based_path_simplification
                                     E pts (threshold_at j))))
  | None =>
      forall j, (j < fuel)%nat ->
        max_verts
        < Z.of_nat (length (s2o_distance_based_path_simplification
                              E pts (threshold_at j)))
  end.
Proof.
  pose proof (simplify_loop_passes E pts max_verts fuel O) as H.
  change (threshold_at 0) with threshold_start in H.
  destruct (simplify_loop E fuel pts max_verts threshold_start)
    as [[result threshold]|].
  - destruct H as (n & Hn & Hres & Hthr & Hlen & Hbefore).
    exists n. cbn [Nat.add] in *.
    split; [exact Hn|]. split; [exact Hres|]. split; [exact Hthr|].
    split; [exact Hlen|].
    intros j Hj. apply Hbefore. lia.
  - intros j Hj. apply H. lia.
Qed.

